(** * IAF backtesting engine and position sizing: a shallow embedding

    The development follows [iaf-service/backtesting/types.py],
    [iaf-service/backtesting/engine.py], [iaf-service/strategies/types.py]
    and [iaf-service/strategies/risk.py].

    Python floats are idealised as rationals ([Q]); [float('inf')] is a
    separate constructor of [xfloat].  A division whose divisor is zero
    leaves this idealisation (a [ZeroDivisionError] on Python floats, a
    non-finite value on numpy scalars): the embedding raises
    [ZeroDivisionError] there.  Datetimes are counted in milliseconds. *)

From Stdlib Require Import List String ZArith QArith Qminmax Qabs Lia Lqa Bool.
From Stdlib Require Import DecimalString DecimalNat.
Import ListNotations.

Local Open Scope Q_scope.

(** ** Exceptions and the result monad *)

Inductive Exn : Type :=
| ValueError (msg : string)
| KeyError (key : string)
| IndexError
| ZeroDivisionError.

Inductive result (A : Type) : Type :=
| Ok (a : A)
| Raise (e : Exn).

Arguments Ok {A} a.
Arguments Raise {A} e.

Definition bind {A B : Type} (c : result A) (k : A -> result B) : result B :=
  match c with
  | Ok a => k a
  | Raise e => Raise e
  end.

Notation "x <- c ;; k" := (bind c (fun x => k))
  (at level 61, c at next level, right associativity).

(** ** Float helpers *)

(** [a > b] on floats. *)
Definition Qgtb (a b : Q) : bool := negb (Qle_bool a b).

(** [a / b], raising when [b] is zero. *)
Definition fdiv (a b : Q) : result Q :=
  if Qeq_bool b 0 then Raise ZeroDivisionError else Ok (a / b).

(** Truthiness of an [Optional[float]]: [None] and [0.0] are falsy. *)
Definition truthy (o : option Q) : bool :=
  match o with
  | Some q => negb (Qeq_bool q 0)
  | None => false
  end.

(** [sum(xs)]: left to right from [0]. *)
Definition fsum (xs : list Q) : Q := fold_left Qplus xs 0.

(** A float that may be [float('inf')]. *)
Inductive xfloat : Type :=
| Fin (q : Q)
| PosInf.

(** ** Insertion-ordered dictionaries with string keys *)

Section Dict.
Context {V : Type}.

Definition dict : Type := list (string * V).

Fixpoint dict_get (k : string) (d : dict) : option V :=
  match d with
  | [] => None
  | (k', v) :: r => if String.eqb k k' then Some v else dict_get k r
  end.

(** [d[k] = v]: an existing key keeps its place, a new key goes last. *)
Fixpoint dict_set (k : string) (v : V) (d : dict) : dict :=
  match d with
  | [] => [(k, v)]
  | (k', v') :: r =>
      if String.eqb k k' then (k, v) :: r else (k', v') :: dict_set k v r
  end.

Fixpoint dict_remove (k : string) (d : dict) : dict :=
  match d with
  | [] => []
  | (k', v') :: r =>
      if String.eqb k k' then r else (k', v') :: dict_remove k r
  end.

(** [del d[k]]: a [KeyError] when the key is absent. *)
Definition dict_del (k : string) (d : dict) : result dict :=
  match dict_get k d with
  | Some _ => Ok (dict_remove k d)
  | None => Raise (KeyError k)
  end.

Definition dict_keys (d : dict) : list string := map fst d.
Definition dict_values (d : dict) : list V := map snd d.
End Dict.

Arguments dict V : clear implicits.

(** ** Enumerations *)

Inductive TradeType : Type := ENTRY | EXIT | STOP_LOSS | TAKE_PROFIT | LIQUIDATION.
Inductive PositionSide : Type := LONG | SHORT.
Inductive SignalType : Type := BUY | SELL | HOLD | CLOSE_LONG | CLOSE_SHORT | NO_SIGNAL.

(** ** Market data *)

Record Candle : Type := {
  timestamp : Z;
  open : Q;
  high : Q;
  low : Q;
  close : Q;
  volume : Q
}.

(** A data frame of candles: its column names, whether its index is a
    [DatetimeIndex], and its rows.  The [timestamp] of a row stands for the
    timestamp column when there is one and for the index value otherwise. *)
Record DataFrame : Type := {
  columns : list string;
  datetime_index : bool;
  rows : list Candle
}.

Record DataSource : Type := {
  data : option DataFrame
}.

(** ** Signals *)

Record Signal : Type := {
  sig_type : SignalType;
  sig_symbol : string;
  sig_price : Q;
  sig_timestamp : Z;
  confidence : Q;
  reason : string;
  metadata : dict Q
}.

Definition is_actionable (s : Signal) : bool :=
  match sig_type s with
  | HOLD | NO_SIGNAL => false
  | _ => true
  end.

(** ** Positions, trades and equity points *)

Record BacktestPosition : Type := {
  id : string;
  symbol : string;
  side : PositionSide;
  entry_price : Q;
  size : Q;
  entry_time : Z;
  stop_loss : option Q;
  take_profit : option Q;
  trailing_stop : option Q;
  highest_price : Q;
  lowest_price : Q
}.

(** The constructor as the engine calls it; [__post_init__] sets both price
    trackers to the entry price. *)
Definition new_position (pid sym : string) (sd : PositionSide)
    (entry sz : Q) (t : Z) (sl tp : option Q) : BacktestPosition :=
  {| id := pid; symbol := sym; side := sd; entry_price := entry; size := sz;
     entry_time := t; stop_loss := sl; take_profit := tp;
     trailing_stop := None; highest_price := entry; lowest_price := entry |}.

Definition update_price_tracking (h l : Q) (p : BacktestPosition) : BacktestPosition :=
  {| id := id p; symbol := symbol p; side := side p;
     entry_price := entry_price p; size := size p; entry_time := entry_time p;
     stop_loss := stop_loss p; take_profit := take_profit p;
     trailing_stop := trailing_stop p;
     highest_price := Qmax (highest_price p) h;
     lowest_price := Qmin (lowest_price p) l |}.

Definition set_trailing_stop (t : option Q) (p : BacktestPosition) : BacktestPosition :=
  {| id := id p; symbol := symbol p; side := side p;
     entry_price := entry_price p; size := size p; entry_time := entry_time p;
     stop_loss := stop_loss p; take_profit := take_profit p;
     trailing_stop := t;
     highest_price := highest_price p; lowest_price := lowest_price p |}.

Definition calculate_pnl (p : BacktestPosition) (current_price : Q) : Q :=
  match side p with
  | LONG => (current_price - entry_price p) * size p
  | SHORT => (entry_price p - current_price) * size p
  end.

Definition calculate_pnl_percentage (p : BacktestPosition) (current_price : Q) : result Q :=
  match side p with
  | LONG => r <- fdiv (current_price - entry_price p) (entry_price p) ;; Ok (r * 100)
  | SHORT => r <- fdiv (entry_price p - current_price) (entry_price p) ;; Ok (r * 100)
  end.

Record BacktestTrade : Type := {
  trade_id : string;
  position_id : string;
  trade_symbol : string;
  trade_side : PositionSide;
  trade_entry_price : Q;
  exit_price : Q;
  trade_size : Q;
  trade_entry_time : Z;
  exit_time : Z;
  pnl : Q;
  pnl_percentage : Q;
  trade_type : TradeType;
  trade_commission : Q;
  holding_time_seconds : Z
}.

Definition is_winner (t : BacktestTrade) : bool := Qgtb (pnl t) 0.

Record EquityPoint : Type := {
  eq_timestamp : Z;
  equity : Q;
  eq_cash : Q;
  position_value : Q;
  drawdown : Q;
  drawdown_percentage : Q
}.

(** ** Configuration *)

Record BacktestConfig : Type := {
  start_date : Z;
  end_date : Z;
  initial_capital : Q;
  commission : Q;
  slippage : Q;
  max_positions : Z;
  trailing_stop_enabled : bool;
  trailing_stop_percent : Q;
  enable_shorting : bool
}.

(** The dataclass defaults, for the given dates. *)
Definition default_config (s e : Z) : BacktestConfig :=
  {| start_date := s; end_date := e; initial_capital := 10000;
     commission := 1 # 1000; slippage := 5 # 10000; max_positions := 5;
     trailing_stop_enabled := false; trailing_stop_percent := 2;
     enable_shorting := false |}.

(** ** Engine state *)

Record Engine : Type := {
  cash : Q;
  self_initial_capital : Q;
  positions : dict BacktestPosition;
  trades : list BacktestTrade;
  equity_curve : list EquityPoint;
  peak_equity : Q;
  trade_counter : nat;
  position_counter : nat
}.

Definition string_of_nat (n : nat) : string :=
  NilEmpty.string_of_uint (Nat.to_uint n).

(** [f"pos_{n}"] and [f"trade_{n}"]. *)
Definition pos_id (n : nat) : string := ("pos_" ++ string_of_nat n)%string.
Definition trade_name (n : nat) : string := ("trade_" ++ string_of_nat n)%string.

(** [BacktestTrade(...)]; [__post_init__] derives the holding time. *)
Definition new_trade (tid pid : string) (p : BacktestPosition)
    (exit : Q) (t : Z) (the_pnl pct : Q) (kind : TradeType) (fee : Q) : BacktestTrade :=
  {| trade_id := tid; position_id := pid; trade_symbol := symbol p;
     trade_side := side p; trade_entry_price := entry_price p;
     exit_price := exit; trade_size := size p;
     trade_entry_time := entry_time p; exit_time := t;
     pnl := the_pnl; pnl_percentage := pct; trade_type := kind;
     trade_commission := fee;
     holding_time_seconds := Z.quot (t - entry_time p) 1000 |}.

Section WithConfig.
Variable config : BacktestConfig.

(** [BacktestEngine.__init__] *)
Definition init : Engine :=
  {| cash := initial_capital config;
     self_initial_capital := initial_capital config;
     positions := []; trades := []; equity_curve := [];
     peak_equity := initial_capital config;
     trade_counter := 0; position_counter := 0 |}.

(** [BacktestEngine.reset] *)
Definition reset (s : Engine) : Engine :=
  {| cash := self_initial_capital s;
     self_initial_capital := self_initial_capital s;
     positions := []; trades := []; equity_curve := [];
     peak_equity := self_initial_capital s;
     trade_counter := 0; position_counter := 0 |}.

(** [BacktestEngine._open_position].  The size is a quotient of rationals,
    raising at a zero entry price as a Python float does; on [numpy] closes
    the engine stores inf instead, and a size past the largest float is inf
    as well.  [in_float_range] below delimits the inputs on which the two
    agree. *)
Definition _open_position (sg : Signal) (candle : Candle) (ts : Z)
    (s : Engine) : result Engine :=
  let position_value := cash s * (1 # 10) in
  let position_value :=
    if truthy (dict_get "position_size_pct" (metadata sg)) then
      match dict_get "position_size_pct" (metadata sg) with
      | Some pct => cash s * (pct / 100)
      | None => position_value
      end
    else position_value in
  let entry := close candle * (1 + slippage config) in
  sz <- fdiv position_value entry ;;
  let fee := position_value * commission config in
  if Qgtb (position_value + fee) (cash s) then Ok s
  else
    let counter := S (position_counter s) in
    let pid := pos_id counter in
    let position :=
      new_position pid (sig_symbol sg) LONG entry sz ts
        (dict_get "stop_loss" (metadata sg))
        (dict_get "take_profit" (metadata sg)) in
    Ok {| cash := cash s - (position_value + fee);
          self_initial_capital := self_initial_capital s;
          positions := dict_set pid position (positions s);
          trades := trades s; equity_curve := equity_curve s;
          peak_equity := peak_equity s;
          trade_counter := trade_counter s;
          position_counter := counter |}.

(** The first item of the position map whose symbol is the signal's. *)
Definition find_by_symbol (sym : string) (d : dict BacktestPosition)
    : option (string * BacktestPosition) :=
  find (fun kp => String.eqb (symbol (snd kp)) sym) d.

(** The common tail of [_close_position] and [_close_position_at_price]:
    settle [position] at [price], record the trade under [pid], and
    delete the key [key]. *)
Definition settle (key pid : string) (position : BacktestPosition)
    (price : Q) (ts : Z) (kind : TradeType) (s : Engine) : result Engine :=
  let the_pnl := calculate_pnl position price in
  let value := price * size position in
  let fee := value * commission config in
  let the_pnl := the_pnl - fee in
  let counter := S (trade_counter s) in
  pct <- calculate_pnl_percentage position price ;;
  let trade :=
    new_trade (trade_name counter) pid position price ts the_pnl pct kind fee in
  ps <- dict_del key (positions s) ;;
  Ok {| cash := cash s + (value - fee);
        self_initial_capital := self_initial_capital s;
        positions := ps;
        trades := trades s ++ [trade];
        equity_curve := equity_curve s;
        peak_equity := peak_equity s;
        trade_counter := counter;
        position_counter := position_counter s |}.

(** [BacktestEngine._close_position] *)
Definition _close_position (sg : Signal) (candle : Candle) (ts : Z)
    (kind : TradeType) (s : Engine) : result Engine :=
  match find_by_symbol (sig_symbol sg) (positions s) with
  | None => Ok s
  | Some (pid, position) =>
      let exit := close candle * (1 - slippage config) in
      settle pid pid position exit ts kind s
  end.

(** [BacktestEngine._close_position_at_price] *)
Definition _close_position_at_price (position : BacktestPosition)
    (price : Q) (ts : Z) (kind : TradeType) (s : Engine) : result Engine :=
  settle (id position) (id position) position price ts kind s.

(** [BacktestEngine._process_signal] *)
Definition _process_signal (sg : Signal) (candle : Candle) (ts : Z)
    (s : Engine) : result Engine :=
  if negb (is_actionable sg) then Ok s
  else
    match sig_type sg with
    | BUY =>
        if (max_positions config <=? Z.of_nat (List.length (positions s)))%Z
        then Ok s
        else _open_position sg candle ts s
    | SELL => _close_position sg candle ts EXIT s
    | CLOSE_LONG => _close_position sg candle ts EXIT s
    | CLOSE_SHORT => _close_position sg candle ts EXIT s
    | _ => Ok s
    end.

(** [x and test(x)] for an optional level [x]: the level when it is
    truthy and passes the test. *)
Definition guarded (o : option Q) (test : Q -> bool) : option Q :=
  match o with
  | Some v => if truthy (Some v) && test v then Some v else None
  | None => None
  end.

(** The exit, if any, that [_check_exit_orders] schedules for one item:
    stop loss first, else take profit, else trailing stop. *)
Definition exit_trigger (h l : Q) (kp : string * BacktestPosition)
    : list (string * TradeType * Q) :=
  let '(pid, position) := kp in
  match guarded (stop_loss position) (fun sl => Qle_bool l sl) with
  | Some sl => [(pid, STOP_LOSS, sl)]
  | None =>
      match guarded (take_profit position) (fun tp => Qle_bool tp h) with
      | Some tp => [(pid, TAKE_PROFIT, tp)]
      | None =>
          match guarded (trailing_stop position) (fun t => Qle_bool l t) with
          | Some t => [(pid, STOP_LOSS, t)]
          | None => []
          end
      end
  end.

(** The closing loop of [_check_exit_orders]. *)
Fixpoint close_scheduled (todo : list (string * TradeType * Q)) (ts : Z)
    (s : Engine) : result Engine :=
  match todo with
  | [] => Ok s
  | (pid, kind, price) :: rest =>
      s' <- match dict_get pid (positions s) with
            | Some position => _close_position_at_price position price ts kind s
            | None => Ok s
            end ;;
      close_scheduled rest ts s'
  end.

(** [BacktestEngine._check_exit_orders] *)
Definition _check_exit_orders (h l : Q) (ts : Z) (s : Engine) : result Engine :=
  let positions_to_close := flat_map (exit_trigger h l) (positions s) in
  close_scheduled positions_to_close ts s.

(** The body of the loop of [_update_position_prices], for one position. *)
Definition update_one (h l : Q) (p : BacktestPosition) : BacktestPosition :=
  let p := update_price_tracking h l p in
  if trailing_stop_enabled config then
    match side p with
    | LONG =>
        let new_trailing :=
          highest_price p * (1 - trailing_stop_percent config / 100) in
        match trailing_stop p with
        | None => set_trailing_stop (Some new_trailing) p
        | Some t =>
            if Qgtb new_trailing t
            then set_trailing_stop (Some new_trailing) p else p
        end
    | SHORT => p
    end
  else p.

(** [BacktestEngine._update_position_prices] *)
Definition _update_position_prices (h l : Q) (s : Engine) : Engine :=
  {| cash := cash s;
     self_initial_capital := self_initial_capital s;
     positions := map (fun kp => (fst kp, update_one h l (snd kp))) (positions s);
     trades := trades s; equity_curve := equity_curve s;
     peak_equity := peak_equity s;
     trade_counter := trade_counter s;
     position_counter := position_counter s |}.

(** [BacktestEngine._record_equity] *)
Definition _record_equity (ts : Z) (c : Q) (s : Engine) : Engine :=
  let value := fsum (map (fun p => size p * c) (dict_values (positions s))) in
  let eqty := cash s + value in
  let peak := Qmax (peak_equity s) eqty in
  let dd := peak - eqty in
  let dd_pct := if Qgtb peak 0 then (dd / peak) * 100 else 0 in
  let point :=
    {| eq_timestamp := ts; equity := eqty; eq_cash := cash s;
       position_value := value; drawdown := dd;
       drawdown_percentage := dd_pct |} in
  {| cash := cash s;
     self_initial_capital := self_initial_capital s;
     positions := positions s; trades := trades s;
     equity_curve := equity_curve s ++ [point];
     peak_equity := peak;
     trade_counter := trade_counter s;
     position_counter := position_counter s |}.

(** The signal loop of [_run_event_driven]. *)
Fixpoint process_signals (sgs : list Signal) (candle : Candle) (ts : Z)
    (s : Engine) : result Engine :=
  match sgs with
  | [] => Ok s
  | sg :: rest =>
      s' <- _process_signal sg candle ts s ;;
      process_signals rest candle ts s'
  end.

(** One pass of the body of the loop of [_run_event_driven], for the
    signals the strategy produced at this candle. *)
Definition candle_step (candle : Candle) (sgs : list Signal)
    (s : Engine) : result Engine :=
  let ts := timestamp candle in
  s1 <- _check_exit_orders (high candle) (low candle) ts s ;;
  let s2 := _update_position_prices (high candle) (low candle) s1 in
  s3 <- process_signals sgs candle ts s2 ;;
  Ok (_record_equity ts (close candle) s3).
End WithConfig.

(** ** Metrics *)

(** The trade statistics of [BacktestMetrics].  The return, drawdown and
    volatility figures of the dataclass are numpy statistics over the equity
    curve (means, standard deviations, fractional powers); they are not part
    of this model. *)
Record BacktestMetrics : Type := {
  total_trades : nat;
  winning_trades : nat;
  losing_trades : nat;
  win_rate : Q;
  profit_factor : xfloat
}.

(** [BacktestMetrics()] *)
Definition default_metrics : BacktestMetrics :=
  {| total_trades := 0; winning_trades := 0; losing_trades := 0;
     win_rate := 0; profit_factor := Fin 0 |}.

(** [BacktestMetrics.calculate_win_rate], on the two counters it reads. *)
Definition calculate_win_rate (total winning : nat) : Q :=
  if (total =? 0)%nat then 0
  else (inject_Z (Z.of_nat winning) / inject_Z (Z.of_nat total)) * 100.

(** [BacktestMetrics.calculate_profit_factor] *)
Definition calculate_profit_factor (gross_profit gross_loss : Q) : xfloat :=
  if Qeq_bool gross_loss 0 then
    if Qgtb gross_profit 0 then PosInf else Fin 0
  else Fin (Qabs (gross_profit / gross_loss)).

Definition wins_of (ts : list BacktestTrade) : list Q :=
  map pnl (filter is_winner ts).

Definition losses_of (ts : list BacktestTrade) : list Q :=
  map pnl (filter (fun t => negb (is_winner t)) ts).

(** [sum(wins) if wins else 0] *)
Definition gross_profit_of (ts : list BacktestTrade) : Q :=
  match wins_of ts with
  | [] => 0
  | w => fsum w
  end.

(** [abs(sum(losses)) if losses else 0] *)
Definition gross_loss_of (ts : list BacktestTrade) : Q :=
  match losses_of ts with
  | [] => 0
  | l => Qabs (fsum l)
  end.

(** [BacktestEngine._calculate_metrics], trade statistics. *)
Definition _calculate_metrics (s : Engine) : BacktestMetrics :=
  match trades s with
  | [] => default_metrics
  | _ =>
      let total := List.length (trades s) in
      let winning := List.length (filter is_winner (trades s)) in
      {| total_trades := total;
         winning_trades := winning;
         losing_trades := total - winning;
         win_rate := calculate_win_rate total winning;
         profit_factor :=
           calculate_profit_factor (gross_profit_of (trades s))
                                   (gross_loss_of (trades s)) |}
  end.

(** ** Strategies and the run *)

(** What the engine uses of a [TradingStrategy]: its data sources and its
    signal generator, a function of the data window it is shown. *)
Record TradingStrategy : Type := {
  algorithm_id : string;
  data_sources : dict DataSource;
  generate_signals : dict DataFrame -> list Signal
}.

Record BacktestResult : Type := {
  res_config : BacktestConfig;
  res_trades : list BacktestTrade;
  res_equity_curve : list EquityPoint;
  res_metrics : option BacktestMetrics
}.

Section Run.
Variable config : BacktestConfig.

Definition in_date_range (c : Candle) : bool :=
  ((start_date config <=? timestamp c) && (timestamp c <=? end_date config))%Z.

(** [BacktestEngine._filter_data_by_date] *)
Definition _filter_data_by_date (d : DataFrame) : DataFrame :=
  if existsb (String.eqb "timestamp") (columns d) then
    {| columns := columns d; datetime_index := false;
       rows := filter in_date_range (rows d) |}
  else if datetime_index d then
    {| columns := columns d; datetime_index := true;
       rows := filter in_date_range (rows d) |}
  else d.

(** [data.iloc[:i+1]] *)
Definition window (d : DataFrame) (i : nat) : DataFrame :=
  {| columns := columns d; datetime_index := datetime_index d;
     rows := firstn (i + 1) (rows d) |}.

(** The body of the loop of [_run_event_driven] at index [i]. *)
Definition loop_body (strategy : TradingStrategy) (d : DataFrame) (i : nat)
    (s : Engine) : result Engine :=
  match nth_error (rows d) i, dict_keys (data_sources strategy) with
  | Some candle, key :: _ =>
      let data_dict := [(key, window d i)] in
      candle_step config candle (generate_signals strategy data_dict) s
  | _, _ => Raise IndexError
  end.

Fixpoint run_indices (strategy : TradingStrategy) (d : DataFrame)
    (idxs : list nat) (s : Engine) : result Engine :=
  match idxs with
  | [] => Ok s
  | i :: rest =>
      s' <- loop_body strategy d i s ;;
      run_indices strategy d rest s'
  end.

(** The first index the loop visits: [max(50, len(data.columns))]. *)
Definition warm_up (d : DataFrame) : nat :=
  Nat.max 50 (List.length (columns d)).

(** [BacktestEngine._run_event_driven] *)
Definition _run_event_driven (strategy : TradingStrategy) (d : DataFrame)
    (s : Engine) : result Engine :=
  let total_candles := List.length (rows d) in
  run_indices strategy d
    (seq (warm_up d) (total_candles - warm_up d)) s.

(** [BacktestEngine.run] *)
Definition run (strategy : TradingStrategy) (s : Engine) : result BacktestResult :=
  let s := reset s in
  match dict_values (data_sources strategy) with
  | [] => Raise (ValueError "No data sources available for backtesting")
  | primary_source :: _ =>
      match data primary_source with
      | None => Raise (ValueError "No data loaded in data source")
      | Some d =>
          if (List.length (rows d) =? 0)%nat
          then Raise (ValueError "No data loaded in data source")
          else
            let d := _filter_data_by_date d in
            s' <- _run_event_driven strategy d s ;;
            let metrics := _calculate_metrics s' in
            Ok {| res_config := config;
                  res_trades := trades s';
                  res_equity_curve := equity_curve s';
                  res_metrics := Some metrics |}
      end
  end.
End Run.

(** ** Position sizing rule *)

Module Risk.

Record PositionSize : Type := {
  symbol : string;
  percentage_of_portfolio : Q;
  fixed_amount : option Q;
  max_amount : option Q;
  min_amount : option Q;
  risk_per_trade : option Q
}.

(** [PositionSize.calculate_size] *)
Definition calculate_size (self : PositionSize) (portfolio_value current_price : Q)
    (stop_loss_price : option Q) : result Q :=
  sz <- match fixed_amount self with
        | Some amount => fdiv amount current_price
        | None =>
            let allocated_value :=
              portfolio_value * (percentage_of_portfolio self / 100) in
            fdiv allocated_value current_price
        end ;;
  let sz :=
    match stop_loss_price, risk_per_trade self with
    | Some stop, Some risk =>
        let risk_amount := portfolio_value * (risk / 100) in
        let price_risk := Qabs (current_price - stop) in
        if Qgtb price_risk 0 then Qmin sz (risk_amount / price_risk) else sz
    | _, _ => sz
    end in
  sz <- match min_amount self with
        | Some amount => m <- fdiv amount current_price ;; Ok (Qmax sz m)
        | None => Ok sz
        end ;;
  match max_amount self with
  | Some amount => m <- fdiv amount current_price ;; Ok (Qmin sz m)
  | None => Ok sz
  end.

End Risk.

(** ** Traces of ledger operations

    [_run_event_driven] changes the ledger only through four operations.
    A trace is a sequence of them; a state is reachable when some trace
    leads to it from a freshly reset engine. *)

Inductive Op : Type :=
| CheckExits (h l : Q) (ts : Z)
| UpdatePrices (h l : Q)
| ProcessSignal (sg : Signal) (candle : Candle) (ts : Z)
| RecordEquity (ts : Z) (c : Q).

Definition exec (config : BacktestConfig) (op : Op) (s : Engine) : result Engine :=
  match op with
  | CheckExits h l ts => _check_exit_orders config h l ts s
  | UpdatePrices h l => Ok (_update_position_prices config h l s)
  | ProcessSignal sg candle ts => _process_signal config sg candle ts s
  | RecordEquity ts c => Ok (_record_equity ts c s)
  end.

Fixpoint exec_all (config : BacktestConfig) (ops : list Op) (s : Engine) : result Engine :=
  match ops with
  | [] => Ok s
  | op :: rest => s' <- exec config op s ;; exec_all config rest s'
  end.

Definition reachable (config : BacktestConfig) (s : Engine) : Prop :=
  exists s0 ops, exec_all config ops (reset s0) = Ok s.

(** The operations of one pass of the loop body. *)
Definition candle_ops (candle : Candle) (sgs : list Signal) : list Op :=
  CheckExits (high candle) (low candle) (timestamp candle)
  :: UpdatePrices (high candle) (low candle)
  :: map (fun sg => ProcessSignal sg candle (timestamp candle)) sgs
  ++ [RecordEquity (timestamp candle) (close candle)].

(** A run of the loop body over candles paired with the signals produced
    at each. *)
Fixpoint run_candles (config : BacktestConfig)
    (steps : list (Candle * list Signal)) (s : Engine) : result Engine :=
  match steps with
  | [] => Ok s
  | (candle, sgs) :: rest =>
      s' <- candle_step config candle sgs s ;;
      run_candles config rest s'
  end.

(** ** Invariants *)

(** An item of the position map as [_open_position] creates it: stored under
    its own id, the id generated from a counter value already used, a
    non-zero entry price, side LONG. *)
Definition wf_entry (counter : nat) (kp : string * BacktestPosition) : Prop :=
  id (snd kp) = fst kp
  /\ (exists n, fst kp = pos_id n /\ (n <= counter)%nat)
  /\ ~ entry_price (snd kp) == 0
  /\ side (snd kp) = LONG.

Definition wf_state (s : Engine) : Prop :=
  NoDup (dict_keys (positions s))
  /\ Forall (wf_entry (position_counter s)) (positions s).

Definition open_symbols (s : Engine) : list string :=
  map symbol (dict_values (positions s)).

(** The high-water mark of a run: the largest of the starting capital and
    the equities recorded so far. *)
Definition running_peak (base : Q) (equities : list Q) : Q :=
  fold_left Qmax equities base.

(** The position count respects the configured limit. *)
Definition within_limit (config : BacktestConfig) (s : Engine) : Prop :=
  (Z.of_nat (List.length (positions s)) <= Z.max 0 (max_positions config))%Z.

(** The maximum of the recorded equities alone. *)
Definition recorded_peak (equities : list Q) : Q :=
  match equities with
  | [] => 0
  | x :: r => fold_left Qmax r x
  end.

(** Every point of a curve stores the distance to the high-water mark that
    starts at [base], and that distance as a percentage of the mark when the
    mark is positive, 0 otherwise. *)
Definition drawdown_ok (base : Q) (curve : list EquityPoint) : Prop :=
  forall i pt,
    nth_error curve i = Some pt ->
    let peak := running_peak base (map equity (firstn (S i) curve)) in
    drawdown pt = peak - equity pt
    /\ (0 < peak -> drawdown_percentage pt = (drawdown pt / peak) * 100)
    /\ (peak <= 0 -> drawdown_percentage pt = 0).

Definition peak_tracked (s : Engine) : Prop :=
  peak_equity s = running_peak (self_initial_capital s) (map equity (equity_curve s))
  /\ drawdown_ok (self_initial_capital s) (equity_curve s).

(** Only [_record_equity] touches the curve and the high-water mark. *)
Definition same_curve (s s' : Engine) : Prop :=
  equity_curve s' = equity_curve s
  /\ peak_equity s' = peak_equity s
  /\ self_initial_capital s' = self_initial_capital s.

(** The ledger of scenario A between its BUY and its SELL: 9000 in cash and
    one LONG position of ten units entered at 100, with no exit level. *)
Definition holds_scenario_position (sym : string) (s : Engine) : Prop :=
  cash s == 9000 /\ trades s = [] /\
  exists p,
    positions s = [(pos_id 1, p)]
    /\ id p = pos_id 1 /\ symbol p = sym /\ side p = LONG
    /\ entry_price p == 100 /\ size p == 10
    /\ stop_loss p = None /\ take_profit p = None /\ trailing_stop p = None.

(** The steps of scenario A: the BUY candle, candles without signals, the
    SELL candle. *)
Definition scenario_steps (c_buy c_sell : Candle) (mid : list Candle)
    (buy sell : Signal) : list (Candle * list Signal) :=
  (c_buy, [buy]) :: map (fun c => (c, [])) mid ++ [(c_sell, [sell])].

(** What a trade record says about the exit it came from. *)
Definition trade_summary (t : BacktestTrade) : string * TradeType * Q :=
  (position_id t, trade_type t, exit_price t).

Definition exit_key (item : string * TradeType * Q) : string := fst (fst item).

(** Inputs under which the ledger stays solvent. *)
Definition fractional_costs (config : BacktestConfig) : Prop :=
  commission config <= 1 /\ - (1) < slippage config /\ slippage config <= 1.

Definition nonneg_opt (o : option Q) : Prop :=
  forall q, o = Some q -> 0 <= q.

Definition sound_op (op : Op) : Prop :=
  match op with
  | CheckExits h l ts => 0 <= l
  | UpdatePrices h l => True
  | ProcessSignal sg candle ts =>
      0 < close candle
      /\ nonneg_opt (dict_get "position_size_pct" (metadata sg))
      /\ nonneg_opt (dict_get "take_profit" (metadata sg))
  | RecordEquity ts c => True
  end.


(** The value a BUY commits: 10% of cash, or the signal's percentage when
    one is given and non-zero; and its cost with the entry fee. *)
Definition buy_value (sg : Signal) (s : Engine) : Q :=
  match dict_get "position_size_pct" (metadata sg) with
  | Some pct => if Qeq_bool pct 0 then cash s * (1 # 10) else cash s * (pct / 100)
  | None => cash s * (1 # 10)
  end.

Definition buy_cost (config : BacktestConfig) (sg : Signal) (s : Engine) : Q :=
  buy_value sg s + buy_value sg s * commission config.

(** How an open position may differ between two states of a run: only its
    price trackers and its trailing stop move, and the trailing stop, once
    set, only moves up. *)
Definition evolves (p p' : BacktestPosition) : Prop :=
  id p' = id p /\ symbol p' = symbol p /\ side p' = side p
  /\ entry_price p' = entry_price p /\ size p' = size p
  /\ entry_time p' = entry_time p
  /\ stop_loss p' = stop_loss p /\ take_profit p' = take_profit p
  /\ (forall t, trailing_stop p = Some t ->
        exists t', trailing_stop p' = Some t' /\ t <= t').

(** [s'] comes after [s] in a run: each position of [s'] either evolved from
    the position of [s] under the same id or was opened since, under an id
    generated after the counter of [s]. *)
Definition descends (s s' : Engine) : Prop :=
  (position_counter s <= position_counter s')%nat
  /\ forall k p',
       dict_get k (positions s') = Some p' ->
       (exists p, dict_get k (positions s) = Some p /\ evolves p p')
       \/ (exists m, k = pos_id m /\ (position_counter s < m)%nat).

(** ** Sample data *)

Definition flat_candle (ts : Z) (price : Q) : Candle :=
  {| timestamp := ts; open := price; high := price; low := price;
     close := price; volume := 1 |}.

Definition ohlcv_columns : list string :=
  ["timestamp"; "open"; "high"; "low"; "close"; "volume"]%string.

(** [n] candles at one price, stamped 0, 1, ... *)
Definition flat_frame (n : nat) (price : Q) : DataFrame :=
  {| columns := ohlcv_columns; datetime_index := false;
     rows := map (fun i => flat_candle (Z.of_nat i) price) (seq 0 n) |}.

Definition mk_signal (ty : SignalType) (sym : string) (md : dict Q) : Signal :=
  {| sig_type := ty; sig_symbol := sym; sig_price := 0; sig_timestamp := 0%Z;
     confidence := 1; reason := ""%string; metadata := md |}.

(** A strategy over one data source that emits the same signals at every
    candle. *)
Definition constant_strategy (frame : option DataFrame) (sgs : list Signal)
    : TradingStrategy :=
  {| algorithm_id := "constant"%string;
     data_sources := [("primary"%string, {| data := frame |})];
     generate_signals := fun _ => sgs |}.

(** The configuration of the end-to-end scenarios: no costs, one position. *)
Definition scenario_config : BacktestConfig :=
  {| start_date := 0; end_date := 1000; initial_capital := 10000;
     commission := 0; slippage := 0; max_positions := 1;
     trailing_stop_enabled := false; trailing_stop_percent := 2;
     enable_shorting := false |}.

(** An engine holding ten units of BTC bought at 100. *)
Definition holding_btc : Engine :=
  {| cash := 9000; self_initial_capital := 10000;
     positions :=
       [(pos_id 1, new_position (pos_id 1) "BTC" LONG 100 10 10 None None)];
     trades := []; equity_curve := []; peak_equity := 10000;
     trade_counter := 0; position_counter := 1 |}.

(** A sizing rule with a risk cap of 1% and a minimum notional of 5000. *)
Definition floor_rule : Risk.PositionSize :=
  {| Risk.symbol := "BTC"; Risk.percentage_of_portfolio := 10;
     Risk.fixed_amount := None; Risk.max_amount := None;
     Risk.min_amount := Some 5000; Risk.risk_per_trade := Some 1 |}.

(** The same rule without the minimum notional. *)
Definition capped_rule : Risk.PositionSize :=
  {| Risk.symbol := "BTC"; Risk.percentage_of_portfolio := 10;
     Risk.fixed_amount := None; Risk.max_amount := None;
     Risk.min_amount := None; Risk.risk_per_trade := Some 1 |}.

(** The result of a run that visited no candle. *)
Definition empty_result (config : BacktestConfig) : BacktestResult :=
  {| res_config := config; res_trades := []; res_equity_curve := [];
     res_metrics := Some default_metrics |}.

(** Default settings over a date range that starts after the sample data. *)
Definition late_config : BacktestConfig := default_config 5000 6000.

Definition buy_btc : Signal := mk_signal BUY "BTC" [].
Definition sell_btc : Signal := mk_signal SELL "BTC" [].

(** The engine of the scenarios after a BUY of BTC at a close of 100. *)
Definition bought_btc : Engine :=
  Eval vm_compute in
    match exec_all scenario_config
            [ProcessSignal buy_btc (flat_candle 10 100) 10%Z]
            (reset (init scenario_config)) with
    | Ok s => s
    | Raise _ => init scenario_config
    end.



(** A strategy that buys BTC at every candle, over 51 candles at 100: the
    loop visits the last candle only. *)
Definition eager_buyer : TradingStrategy :=
  constant_strategy (Some (flat_frame 51 100)) [buy_btc].

(** Its run under the default costs, and the one equity point recorded. *)
Definition eager_result : BacktestResult :=
  Eval vm_compute in
    match run (default_config 0 1000) eager_buyer (init (default_config 0 1000)) with
    | Ok r => r
    | Raise _ => empty_result (default_config 0 1000)
    end.

Definition eager_point : EquityPoint :=
  Eval vm_compute in
    match res_equity_curve eager_result with
    | pt :: _ => pt
    | [] => {| eq_timestamp := 0; equity := 0; eq_cash := 0;
               position_value := 0; drawdown := 0; drawdown_percentage := 0 |}
    end.

(** A BUY whose stop-loss level is 0 and whose take-profit level is 105. *)
Definition buy_zero_stop : Signal :=
  mk_signal BUY "BTC" [("stop_loss"%string, 0); ("take_profit"%string, 105)].

Definition no_position : BacktestPosition :=
  new_position "" "" LONG 0 0 0 None None.

Definition first_position (s : Engine) : BacktestPosition :=
  match positions s with
  | (_, p) :: _ => p
  | [] => no_position
  end.

Definition state_of (r : result Engine) : Engine :=
  match r with
  | Ok s => s
  | Raise _ => init scenario_config
  end.

(** A BUY with a stop at 95 and a target at 105, and the engine after it. *)
Definition buy_bracket : Signal :=
  mk_signal BUY "BTC" [("stop_loss"%string, 95); ("take_profit"%string, 105)].

Definition bracketed_btc : Engine :=
  Eval vm_compute in
    state_of (exec_all scenario_config
                [ProcessSignal buy_bracket (flat_candle 10 100) 10%Z]
                (reset (init scenario_config))).

Definition bracket_position : BacktestPosition :=
  Eval vm_compute in first_position bracketed_btc.

(** The scenario configuration with the global trailing stop switched on. *)
Definition trailing_config : BacktestConfig :=
  {| start_date := 0; end_date := 1000; initial_capital := 10000;
     commission := 0; slippage := 0; max_positions := 1;
     trailing_stop_enabled := true; trailing_stop_percent := 2;
     enable_shorting := false |}.

Definition trailing_ops : list Op :=
  [ProcessSignal buy_btc (flat_candle 10 100) 10%Z; UpdatePrices 100 100].

Definition trailing_before : Engine :=
  Eval vm_compute in
    state_of (exec_all trailing_config trailing_ops (reset (init trailing_config))).

Definition trailing_after : Engine :=
  Eval vm_compute in
    state_of (run_candles trailing_config [(flat_candle 20 110, [])] trailing_before).

Definition trailing_position_before : BacktestPosition :=
  Eval vm_compute in first_position trailing_before.

Definition trailing_position_after : BacktestPosition :=
  Eval vm_compute in first_position trailing_after.

(** ** Ledger accounting *)





(** The ids under which trades were recorded. *)
Definition settled_ids (s : Engine) : list string :=
  map position_id (trades s).

(** Every id handed out is either still open or closed by exactly one
    trade. *)
Definition ids_accounted (s : Engine) : Prop :=
  NoDup (dict_keys (positions s) ++ settled_ids s)
  /\ Forall (fun k => exists n, k = pos_id n /\ (n <= position_counter s)%nat)
       (settled_ids s)
  /\ position_counter s
     = (List.length (positions s) + List.length (trades s))%nat.

(** Trades are numbered from 1 in the order they were recorded. *)
Definition trades_numbered (s : Engine) : Prop :=
  trade_counter s = List.length (trades s)
  /\ map trade_id (trades s) = map trade_name (seq 1 (List.length (trades s))).

(** The price trackers of a position bracket its entry price. *)
Definition trackers_bracket (p : BacktestPosition) : Prop :=
  lowest_price p <= entry_price p /\ entry_price p <= highest_price p.

(** The stored trailing stop, where there is one, is the configured
    fraction of the highest price seen. *)
Definition trailing_follows (config : BacktestConfig) (p : BacktestPosition) : Prop :=
  forall t, trailing_stop p = Some t ->
    t == highest_price p * (1 - trailing_stop_percent config / 100).

(** What the engine keeps true of every open position. *)
Definition tracked (config : BacktestConfig) (p : BacktestPosition) : Prop :=
  trackers_bracket p
  /\ (trailing_stop_enabled config = false -> trailing_stop p = None)
  /\ (trailing_stop_percent config <= 100 -> trailing_follows config p).


(** A round trip under the default costs, then a second entry. *)
Definition round_trip_ops : list Op :=
  [ProcessSignal buy_btc (flat_candle 10 100) 10%Z;
   UpdatePrices 120 90;
   RecordEquity 10 100;
   ProcessSignal sell_btc (flat_candle 20 110) 20%Z;
   ProcessSignal buy_btc (flat_candle 30 105) 30%Z;
   UpdatePrices 105 105;
   RecordEquity 30 105].

Definition round_trip_state : Engine :=
  Eval vm_compute in
    state_of (exec_all (default_config 0 1000) round_trip_ops
                (reset (init (default_config 0 1000)))).

(** The engine under the default costs after its first entry. *)
Definition entered_state : Engine :=
  Eval vm_compute in
    state_of (exec_all (default_config 0 1000)
                [ProcessSignal buy_btc (flat_candle 10 100) 10%Z]
                (reset (init (default_config 0 1000)))).

Definition round_trip_position : BacktestPosition :=
  Eval vm_compute in first_position round_trip_state.

(** A strategy is passive when none of the signals it ever produces is
    actionable. *)
Definition passive (strategy : TradingStrategy) : Prop :=
  forall w, Forall (fun sg => is_actionable sg = false)
              (generate_signals strategy w).

(** The ledger of a run in which nothing was traded. *)
Definition untouched (s : Engine) : Prop :=
  positions s = [] /\ trades s = []
  /\ cash s = self_initial_capital s
  /\ peak_equity s == self_initial_capital s
  /\ Forall (fun pt => equity pt == self_initial_capital s /\ drawdown pt == 0)
       (equity_curve s).

(** A strategy that only ever says HOLD, over 60 candles. *)
Definition holder : TradingStrategy :=
  constant_strategy (Some (flat_frame 60 100)) [mk_signal HOLD "BTC" []].

Definition holder_result : BacktestResult :=
  Eval vm_compute in
    match run (default_config 0 1000) holder (init (default_config 0 1000)) with
    | Ok r => r
    | Raise _ => empty_result (default_config 0 1000)
    end.

Definition holder_point : EquityPoint :=
  Eval vm_compute in
    match res_equity_curve holder_result with
    | pt :: _ => pt
    | [] => {| eq_timestamp := 0; equity := 0; eq_cash := 0;
               position_value := 0; drawdown := 0; drawdown_percentage := 0 |}
    end.

(** No exit level of the item triggers at this candle. *)
Definition stays_open (h l : Q) (kp : string * BacktestPosition) : bool :=
  match exit_trigger h l kp with
  | [] => true
  | _ => false
  end.

(** The pnl a LONG or SHORT position realises when closed at [price], net
    of the exit commission. *)
Definition net_pnl (config : BacktestConfig) (p : BacktestPosition) (price : Q) : Q :=
  calculate_pnl p price - price * size p * commission config.

(** A BUY with a target at 105 only, and one with no level at all next to
    it under a limit of five positions. *)
Definition buy_target : Signal :=
  mk_signal BUY "BTC" [("take_profit"%string, 105)].

Definition mixed_ops : list Op :=
  [ProcessSignal buy_target (flat_candle 10 100) 10%Z;
   ProcessSignal (mk_signal BUY "ETH" []) (flat_candle 10 100) 10%Z].

Definition mixed_state : Engine :=
  Eval vm_compute in
    state_of (exec_all (default_config 0 1000) mixed_ops
                (reset (init (default_config 0 1000)))).

Definition mixed_position : BacktestPosition :=
  Eval vm_compute in first_position mixed_state.

(** ** Configuration checks and the remaining trade statistics *)

(** [BacktestConfig.validate] *)
Definition validate (c : BacktestConfig) : list string :=
  (if (end_date c <=? start_date c)%Z
   then ["start_date must be before end_date"%string] else [])
  ++ (if Qle_bool (initial_capital c) 0
      then ["initial_capital must be positive"%string] else [])
  ++ (if Qgtb 0 (commission c)
      then ["commission cannot be negative"%string] else [])
  ++ (if (max_positions c <? 1)%Z
      then ["max_positions must be at least 1"%string] else []).

(** The loop of [_calculate_returns] from the second point on: [prev] is
    the equity of the point before. *)
Fixpoint returns_from (prev : Q) (rest : list EquityPoint) : list Q :=
  match rest with
  | [] => []
  | pt :: r =>
      (if Qgtb prev 0 then [(equity pt - prev) / prev] else [])
      ++ returns_from (equity pt) r
  end.

(** [BacktestEngine._calculate_returns] *)
Definition _calculate_returns (s : Engine) : list Q :=
  match equity_curve s with
  | [] => []
  | first :: rest => returns_from (equity first) rest
  end.

(** The loop of [_calculate_max_drawdown_duration]. *)
Fixpoint drawdown_scan (curve : list EquityPoint) (max_duration current : nat) : nat :=
  match curve with
  | [] => Nat.max max_duration current
  | pt :: r =>
      if Qgtb (drawdown pt) 0
      then drawdown_scan r max_duration (S current)
      else drawdown_scan r (Nat.max max_duration current) 0
  end.

(** [BacktestEngine._calculate_max_drawdown_duration] *)
Definition _calculate_max_drawdown_duration (s : Engine) : nat :=
  drawdown_scan (equity_curve s) 0 0.

(** The loop of [_calculate_consecutive_wins_losses]. *)
Fixpoint streak_scan (ts : list BacktestTrade)
    (max_wins max_losses current_wins current_losses : nat) : nat * nat :=
  match ts with
  | [] => (max_wins, max_losses)
  | t :: r =>
      if is_winner t
      then streak_scan r (Nat.max max_wins (S current_wins)) max_losses
             (S current_wins) 0
      else streak_scan r max_wins (Nat.max max_losses (S current_losses))
             0 (S current_losses)
  end.

(** [BacktestEngine._calculate_consecutive_wins_losses] *)
Definition _calculate_consecutive_wins_losses (s : Engine) : nat * nat :=
  streak_scan (trades s) 0 0 0 0.

(** The product of the growth factors [1 + r] of a list of returns. *)
Definition compound (rs : list Q) : Q :=
  fold_right (fun r acc => (1 + r) * acc) 1 rs.

Definition winners (ts : list BacktestTrade) : nat :=
  List.length (filter is_winner ts).

Definition non_winners (ts : list BacktestTrade) : nat :=
  List.length (filter (fun t => negb (is_winner t)) ts).

Definition in_drawdown (pt : EquityPoint) : bool := Qgtb (drawdown pt) 0.

(** ** Take-profit and stop-loss rules, and the risk configuration *)

Module Rules.

Inductive StopLossType : Type :=
  SL_FIXED | SL_TRAILING | SL_ATR_BASED | SL_SUPPORT_BASED | SL_TIME_BASED.

Inductive TakeProfitType : Type :=
  TP_FIXED | TP_TRAILING | TP_MULTI_LEVEL | TP_RESISTANCE_BASED | TP_RISK_REWARD.

(** [str.lower()] on ASCII text: the letters A to Z move to a to z, every
    other byte stays. *)
Definition lower_char (c : Ascii.ascii) : Ascii.ascii :=
  let n := Ascii.nat_of_ascii c in
  if ((65 <=? n) && (n <=? 90))%nat then Ascii.ascii_of_nat (n + 32) else c.

Fixpoint lower (s : string) : string :=
  match s with
  | EmptyString => EmptyString
  | String c r => String (lower_char c) (lower r)
  end.

(** [side.lower() == "long"] *)
Definition is_long (side : string) : bool := String.eqb (lower side) "long".

Record TakeProfitRule : Type := {
  tp_symbol : string;
  tp_percentage_threshold : Q;
  tp_type : TakeProfitType;
  tp_trailing : bool;
  tp_trailing_offset : Q;
  tp_sell_percentage : Q;
  move_sl_to_be : bool;
  multiple_levels : option (list (dict Q))
}.

(** [TakeProfitRule.calculate_target_price] *)
Definition calculate_target_price (self : TakeProfitRule) (entry : Q)
    (side : string) : Q :=
  if is_long side
  then entry * (1 + tp_percentage_threshold self / 100)
  else entry * (1 - tp_percentage_threshold self / 100).

(** [TakeProfitRule.update_trailing] *)
Definition tp_update_trailing (self : TakeProfitRule)
    (current_price highest_price : Q) (side : string) : option Q :=
  if negb (tp_trailing self) then None
  else if is_long side
       then Some (highest_price * (1 - tp_trailing_offset self / 100))
       else Some (highest_price * (1 + tp_trailing_offset self / 100)).

Record StopLossRule : Type := {
  sl_symbol : string;
  sl_percentage_threshold : Q;
  sl_type : StopLossType;
  sl_trailing : bool;
  sl_trailing_offset : Q;
  trailing_activation : Q;
  atr_multiplier : option Q;
  sl_sell_percentage : Q;
  time_limit_minutes : option Z
}.

(** [self.atr_multiplier or 2.0] *)
Definition effective_multiplier (self : StopLossRule) : Q :=
  match atr_multiplier self with
  | Some m => if Qeq_bool m 0 then 2 else m
  | None => 2
  end.

(** [StopLossRule.calculate_stop_price] *)
Definition calculate_stop_price (self : StopLossRule) (entry : Q)
    (side : string) (atr : option Q) : Q :=
  match sl_type self, atr with
  | SL_ATR_BASED, Some a =>
      let offset := a * effective_multiplier self in
      if is_long side then entry - offset else entry + offset
  | _, _ =>
      if is_long side
      then entry * (1 - sl_percentage_threshold self / 100)
      else entry * (1 + sl_percentage_threshold self / 100)
  end.

(** [StopLossRule.update_trailing] *)
Definition sl_update_trailing (self : StopLossRule)
    (current_price highest_price entry : Q) (side : string) : result (option Q) :=
  if negb (sl_trailing self) then Ok None
  else
    active <-
      (if Qgtb (trailing_activation self) 0 then
         profit_pct <-
           (if is_long side
            then r <- fdiv (highest_price - entry) entry ;; Ok (r * 100)
            else r <- fdiv (entry - highest_price) entry ;; Ok (r * 100)) ;;
         Ok (negb (Qgtb (trailing_activation self) profit_pct))
       else Ok true) ;;
    if active : bool then
      if is_long side
      then Ok (Some (highest_price * (1 - sl_trailing_offset self / 100)))
      else Ok (Some (highest_price * (1 + sl_trailing_offset self / 100)))
    else Ok None.

Record RiskConfig : Type := {
  position_sizes : list Risk.PositionSize;
  take_profits : list TakeProfitRule;
  stop_losses : list StopLossRule;
  max_open_positions : Z;
  max_portfolio_risk : Q;
  max_correlated_positions : Z;
  daily_loss_limit : option Q
}.

(** [RiskConfig.get_position_size] *)
Definition get_position_size (self : RiskConfig) (sym : string)
    : option Risk.PositionSize :=
  find (fun ps => String.eqb (Risk.symbol ps) sym) (position_sizes self).

(** [RiskConfig.get_take_profit_rule] *)
Definition get_take_profit_rule (self : RiskConfig) (sym : string)
    : option TakeProfitRule :=
  find (fun tp => String.eqb (tp_symbol tp) sym) (take_profits self).

(** [RiskConfig.get_stop_loss_rule] *)
Definition get_stop_loss_rule (self : RiskConfig) (sym : string)
    : option StopLossRule :=
  find (fun sl => String.eqb (sl_symbol sl) sym) (stop_losses self).

(** [PortfolioManager.calculate_position_size], on the risk configuration
    and the total portfolio value it reads. *)
Definition calculate_position_size (risk_config : RiskConfig) (total_value : Q)
    (sym : string) (current_price : Q) (stop_loss_price : option Q) : result Q :=
  match get_position_size risk_config sym with
  | None =>
      let allocated_value := total_value * (1 # 10) in
      fdiv allocated_value current_price
  | Some position_size_config =>
      Risk.calculate_size position_size_config total_value current_price
        stop_loss_price
  end.

(** [CONSERVATIVE_RISK] *)
Definition CONSERVATIVE_RISK : RiskConfig :=
  {| position_sizes :=
       [{| Risk.symbol := "*"; Risk.percentage_of_portfolio := 5;
           Risk.fixed_amount := None; Risk.max_amount := None;
           Risk.min_amount := None; Risk.risk_per_trade := Some 1 |}];
     take_profits :=
       [{| tp_symbol := "*"; tp_percentage_threshold := 5; tp_type := TP_FIXED;
           tp_trailing := true; tp_trailing_offset := 15 # 10;
           tp_sell_percentage := 100; move_sl_to_be := false;
           multiple_levels := None |}];
     stop_losses :=
       [{| sl_symbol := "*"; sl_percentage_threshold := 2; sl_type := SL_FIXED;
           sl_trailing := false; sl_trailing_offset := 2;
           trailing_activation := 0; atr_multiplier := Some 2;
           sl_sell_percentage := 100; time_limit_minutes := None |}];
     max_open_positions := 3; max_portfolio_risk := 10;
     max_correlated_positions := 2; daily_loss_limit := None |}.

(** The stop-loss rule of [MODERATE_RISK]. *)
Definition moderate_stop : StopLossRule :=
  {| sl_symbol := "*"; sl_percentage_threshold := 5; sl_type := SL_FIXED;
     sl_trailing := true; sl_trailing_offset := 2;
     trailing_activation := 3; atr_multiplier := Some 2;
     sl_sell_percentage := 100; time_limit_minutes := None |}.

(** The take-profit rule of [MODERATE_RISK]. *)
Definition moderate_target : TakeProfitRule :=
  {| tp_symbol := "*"; tp_percentage_threshold := 10; tp_type := TP_FIXED;
     tp_trailing := true; tp_trailing_offset := 2;
     tp_sell_percentage := 100; move_sl_to_be := false;
     multiple_levels := None |}.

(** A sizing rule that bounds the notional between 500 and 2000. *)
Definition bounded_rule : Risk.PositionSize :=
  {| Risk.symbol := "BTC"; Risk.percentage_of_portfolio := 50;
     Risk.fixed_amount := None; Risk.max_amount := Some 2000;
     Risk.min_amount := Some 500; Risk.risk_per_trade := None |}.

End Rules.

(** ** Strategy run state *)

Record StrategyState : Type := {
  is_active : bool;
  last_run : option Z;
  last_signal : option Signal;
  signals_generated : nat;
  trades_executed : nat;
  errors : list string;
  custom_state : dict Q
}.

(** [self.errors[-100:]] *)
Definition last_hundred (l : list string) : list string :=
  skipn (List.length l - 100) l.

(** [StrategyState.record_error] *)
Definition record_error (error : string) (st : StrategyState) : StrategyState :=
  let appended := errors st ++ [error] in
  {| is_active := is_active st; last_run := last_run st;
     last_signal := last_signal st;
     signals_generated := signals_generated st;
     trades_executed := trades_executed st;
     errors := if (100 <? List.length appended)%nat
               then last_hundred appended else appended;
     custom_state := custom_state st |}.

(** Recording a list of errors, oldest first. *)
Definition record_errors (es : list string) (st : StrategyState) : StrategyState :=
  fold_left (fun acc e => record_error e acc) es st.

(** [StrategyState()] *)
Definition fresh_state : StrategyState :=
  {| is_active := false; last_run := None; last_signal := None;
     signals_generated := 0; trades_executed := 0; errors := [];
     custom_state := [] |}.

(** ** The vectorized fast path *)

(** [series.iloc[i]] *)
Definition series_at (series : list bool) (i : nat) : result bool :=
  match nth_error series i with
  | Some b => Ok b
  | None => Raise IndexError
  end.

(** The loop of [run_vectorized] from index [i] on, over the closes still
    to visit: the equity list and the position it ends with. *)
Fixpoint vectorized_loop (closes : list Q) (i : nat)
    (buy_series sell_series : list bool) (equity_list : list Q) (position : Q)
    : result (list Q * Q) :=
  match closes with
  | [] => Ok (equity_list, position)
  | c :: rest =>
      b <- series_at buy_series i ;;
      st <- (if b && Qeq_bool position 0 then
               p <- fdiv (last equity_list 0) c ;; Ok (equity_list, p)
             else
               sl <- series_at sell_series i ;;
               if sl && Qgtb position 0
               then Ok (equity_list ++ [position * c], 0)
               else Ok (equity_list, position)) ;;
      let equity_list := fst st in
      let position := snd st in
      let equity_list :=
        if Qgtb position 0 then equity_list ++ [position * c]
        else equity_list ++ [last equity_list 0] in
      vectorized_loop rest (S i) buy_series sell_series equity_list position
  end.

(** The two metric fields [run_vectorized] sets; its result carries no
    trades and no equity curve. *)
Record VectorizedMetrics : Type := {
  total_return : Q;
  total_return_percentage : Q
}.

(** [BacktestEngine.run_vectorized], given the buy and sell tables the
    strategy generated for the data and the close column of the data.  The
    quotients raise at a zero divisor as Python floats do; on a [numpy]
    close of zero the engine continues with inf. *)
Definition run_vectorized (buy_signals sell_signals : dict (list bool))
    (closes : list Q) (s : Engine) : result VectorizedMetrics :=
  let s := reset s in
  match dict_keys buy_signals with
  | [] => Ok {| total_return := 0; total_return_percentage := 0 |}
  | sym :: _ =>
      if String.eqb sym "" then
        Ok {| total_return := 0; total_return_percentage := 0 |}
      else
        let buy_series :=
          match dict_get sym buy_signals with
          | Some series => series
          | None => repeat false (List.length closes)
          end in
        let sell_series :=
          match dict_get sym sell_signals with
          | Some series => series
          | None => repeat false (List.length closes)
          end in
        final <- vectorized_loop closes 0 buy_series sell_series
                   [self_initial_capital s] 0 ;;
        let final_equity := last (fst final) 0 in
        let ret := final_equity - self_initial_capital s in
        r <- fdiv ret (self_initial_capital s) ;;
        Ok {| total_return := ret; total_return_percentage := r * 100 |}
  end.

Definition round_trip_first : EquityPoint :=
  Eval vm_compute in
    match equity_curve round_trip_state with
    | pt :: _ => pt
    | [] => {| eq_timestamp := 0; equity := 0; eq_cash := 0;
               position_value := 0; drawdown := 0; drawdown_percentage := 0 |}
    end.

Definition round_trip_rest : list EquityPoint :=
  Eval vm_compute in tl (equity_curve round_trip_state).

(** ** The range of a float

    The ledger is embedded over exact rationals.  A Python float is finite
    only up to [float_max], and a non-zero one is at least [float_min] in
    magnitude; past those bounds the engine's arithmetic leaves the
    rationals: a quotient by an entry price that is zero or too small is
    inf, and cash is nan once inf - inf has been added to it.  For one
    operation at one state, [op_floats] lists the numbers the operation
    reads and computes, in the order of the source, and [op_divisors] the
    numbers it divides by that it has computed itself. *)

(** The largest finite double, (2 - 2^-52) * 2^1023, and the smallest
    positive one, 2^-1074. *)
Definition float_max : Q := inject_Z (2 ^ 1024 - 2 ^ 971).
Definition float_min : Q := 1 # Z.to_pos (2 ^ 1074).

Definition is_finite (q : Q) : bool := Qle_bool (Qabs q) float_max.
Definition is_divisor (q : Q) : bool := Qle_bool float_min (Qabs q).

Definition opt_floats (o : option Q) : list Q :=
  match o with
  | Some q => [q]
  | None => []
  end.

(** The partial sums of [sum(xs)] from [acc]. *)
Fixpoint running_sums (acc : Q) (xs : list Q) : list Q :=
  match xs with
  | [] => []
  | x :: rest => (acc + x) :: running_sums (acc + x) rest
  end.

Section FloatRange.
Variable config : BacktestConfig.

(** The numbers of [_open_position]. *)
Definition open_floats (sg : Signal) (candle : Candle) (s : Engine) : list Q :=
  let position_value := buy_value sg s in
  let entry := close candle * (1 + slippage config) in
  let fee := position_value * commission config in
  [cash s * (1 # 10)]
  ++ match dict_get "position_size_pct" (metadata sg) with
     | Some pct => [pct; pct / 100]
     | None => []
     end
  ++ [position_value; close candle; 1 + slippage config; entry;
      position_value / entry; fee; position_value + fee]
  ++ (if Qgtb (position_value + fee) (cash s) then []
      else [cash s - (position_value + fee)])
  ++ opt_floats (dict_get "stop_loss" (metadata sg))
  ++ opt_floats (dict_get "take_profit" (metadata sg)).

(** The numbers of the common tail of [_close_position] and
    [_close_position_at_price]. *)
Definition settle_floats (position : BacktestPosition) (price : Q)
    (s : Engine) : list Q :=
  let diff :=
    match side position with
    | LONG => price - entry_price position
    | SHORT => entry_price position - price
    end in
  let value := price * size position in
  let fee := value * commission config in
  [price; diff; diff * size position; value; fee; diff * size position - fee;
   value - fee; cash s + (value - fee);
   diff / entry_price position; diff / entry_price position * 100].

(** The numbers of [_process_signal]. *)
Definition signal_floats (sg : Signal) (candle : Candle) (s : Engine) : list Q :=
  if negb (is_actionable sg) then []
  else
    match sig_type sg with
    | BUY =>
        if (max_positions config <=? Z.of_nat (List.length (positions s)))%Z
        then []
        else open_floats sg candle s
    | SELL | CLOSE_LONG | CLOSE_SHORT =>
        match find_by_symbol (sig_symbol sg) (positions s) with
        | None => []
        | Some (_, position) =>
            [close candle; 1 - slippage config]
            ++ settle_floats position (close candle * (1 - slippage config)) s
        end
    | _ => []
    end.

(** The entry price [_open_position] divides by, when the signal gets
    there. *)
Definition signal_divisors (sg : Signal) (candle : Candle) (s : Engine) : list Q :=
  if negb (is_actionable sg) then []
  else
    match sig_type sg with
    | BUY =>
        if (max_positions config <=? Z.of_nat (List.length (positions s)))%Z
        then []
        else [close candle * (1 + slippage config)]
    | _ => []
    end.

(** The numbers of the closing loop of [_check_exit_orders]. *)
Fixpoint scheduled_floats (todo : list (string * TradeType * Q)) (ts : Z)
    (s : Engine) : list Q :=
  match todo with
  | [] => []
  | (pid, kind, price) :: rest =>
      match dict_get pid (positions s) with
      | Some position =>
          settle_floats position price s
          ++ match _close_position_at_price config position price ts kind s with
             | Ok s' => scheduled_floats rest ts s'
             | Raise _ => []
             end
      | None => scheduled_floats rest ts s
      end
  end.

(** The numbers of the body of the loop of [_update_position_prices]. *)
Definition update_floats (h l : Q) (p : BacktestPosition) : list Q :=
  let p := update_price_tracking h l p in
  [highest_price p; lowest_price p]
  ++ (if trailing_stop_enabled config then
        match side p with
        | LONG =>
            [trailing_stop_percent config / 100;
             1 - trailing_stop_percent config / 100;
             highest_price p * (1 - trailing_stop_percent config / 100)]
        | SHORT => []
        end
      else []).

(** The numbers of [_record_equity]. *)
Definition record_floats (c : Q) (s : Engine) : list Q :=
  let terms := map (fun p => size p * c) (dict_values (positions s)) in
  let eqty := cash s + fsum terms in
  let peak := Qmax (peak_equity s) eqty in
  let dd := peak - eqty in
  [c] ++ terms ++ running_sums 0 terms ++ [eqty; peak; dd]
  ++ (if Qgtb peak 0 then [dd / peak; dd / peak * 100] else []).

Definition op_floats (op : Op) (s : Engine) : list Q :=
  match op with
  | CheckExits h l ts =>
      [h; l] ++ scheduled_floats (flat_map (exit_trigger h l) (positions s)) ts s
  | UpdatePrices h l =>
      [h; l] ++ flat_map (update_floats h l) (dict_values (positions s))
  | ProcessSignal sg candle ts => signal_floats sg candle s
  | RecordEquity ts c => record_floats c s
  end.

Definition op_divisors (op : Op) (s : Engine) : list Q :=
  match op with
  | ProcessSignal sg candle ts => signal_divisors sg candle s
  | _ => []
  end.

(** Every number of the operation is a finite float, and every divisor is
    one that is not zero. *)
Definition op_in_range (op : Op) (s : Engine) : bool :=
  forallb is_finite (op_floats op s) && forallb is_divisor (op_divisors op s).

(** The same of every operation of a trace, each at the state the trace
    has reached. *)
Fixpoint in_float_range (ops : list Op) (s : Engine) : bool :=
  match ops with
  | [] => true
  | op :: rest =>
      op_in_range op s
      && match exec config op s with
         | Ok s' => in_float_range rest s'
         | Raise _ => true
         end
  end.



End FloatRange.

(** A BUY at a close of 1e-320 followed by a SELL at 100, under the default
    costs. *)
Definition tiny_close_ops : list Op :=
  [ProcessSignal buy_btc (flat_candle 10 (1 # 10 ^ 320)) 10%Z;
   ProcessSignal sell_btc (flat_candle 20 100) 20%Z].

(** * Properties *)

(** ** Comparisons on floats *)

Lemma Qgtb_true (a b : Q) : Qgtb a b = true <-> b < a.
Proof.
  unfold Qgtb. rewrite negb_true_iff. split; intro H.
  - apply Qnot_le_lt. intro Hle. apply Qle_bool_iff in Hle. congruence.
  - destruct (Qle_bool a b) eqn:E; [|reflexivity].
    apply Qle_bool_iff in E. lra.
Qed.

Lemma Qgtb_false (a b : Q) : Qgtb a b = false <-> a <= b.
Proof.
  unfold Qgtb. rewrite negb_false_iff. apply Qle_bool_iff.
Qed.

Lemma truthy_Some (q : Q) : truthy (Some q) = true <-> ~ q == 0.
Proof.
  simpl. rewrite negb_true_iff. split; intro H.
  - apply Qeq_bool_neq. exact H.
  - destruct (Qeq_bool q 0) eqn:E; [|reflexivity].
    apply Qeq_bool_iff in E. contradiction.
Qed.

Lemma fdiv_Ok (a b r : Q) : fdiv a b = Ok r -> ~ b == 0 /\ r = a / b.
Proof.
  unfold fdiv. destruct (Qeq_bool b 0) eqn:E; [discriminate|].
  intro H. injection H as <-. split; [|reflexivity].
  apply Qeq_bool_neq. exact E.
Qed.

Lemma fdiv_nonzero (a b : Q) : ~ b == 0 -> fdiv a b = Ok (a / b).
Proof.
  intro H. unfold fdiv. destruct (Qeq_bool b 0) eqn:E; [|reflexivity].
  apply Qeq_bool_iff in E. contradiction.
Qed.

Lemma bind_Ok {A B : Type} (c : result A) (k : A -> result B) (b : B) :
  bind c k = Ok b -> exists a, c = Ok a /\ k a = Ok b.
Proof.
  destruct c as [a|e]; simpl; [|discriminate]. intro H. exists a. auto.
Qed.

(** ** Generated identifiers are distinct *)

Lemma string_of_nat_inj (m n : nat) : string_of_nat m = string_of_nat n -> m = n.
Proof.
  unfold string_of_nat. intro H.
  apply Unsigned.to_uint_inj.
  assert (E : Some (Nat.to_uint m) = Some (Nat.to_uint n)).
  { rewrite <- (NilEmpty.usu (Nat.to_uint m)), <- (NilEmpty.usu (Nat.to_uint n)).
    now rewrite H. }
  now injection E.
Qed.

Lemma pos_id_inj (m n : nat) : pos_id m = pos_id n -> m = n.
Proof.
  unfold pos_id. simpl. intro H. injection H as H.
  now apply string_of_nat_inj.
Qed.

(** ** Dictionaries *)

Section DictFacts.
Context {V : Type}.
Implicit Types (d : dict V) (k : string) (v : V).

Lemma dict_get_In k v d : dict_get k d = Some v -> In (k, v) d.
Proof.
  induction d as [|[k' v'] r IH]; simpl; [discriminate|].
  destruct (String.eqb_spec k k') as [->|Hne].
  - intro H. injection H as ->. now left.
  - intro H. right. auto.
Qed.

Lemma dict_get_None k d : dict_get k d = None <-> ~ In k (dict_keys d).
Proof.
  induction d as [|[k' v'] r IH]; simpl.
  - tauto.
  - destruct (String.eqb_spec k k') as [->|Hne].
    + split; [discriminate|]. intro H. exfalso. apply H. now left.
    + rewrite IH. split; intro H.
      * intros [E|Hin]; [congruence|contradiction].
      * intro Hin. apply H. now right.
Qed.

Lemma In_dict_get k v d :
  NoDup (dict_keys d) -> In (k, v) d -> dict_get k d = Some v.
Proof.
  induction d as [|[k' v'] r IH]; simpl; [tauto|].
  intros Hnd [E|Hin].
  - injection E as -> ->. now rewrite String.eqb_refl.
  - inversion Hnd as [|? ? Hnotin Hnd']; subst.
    destruct (String.eqb_spec k k') as [->|Hne].
    + exfalso. apply Hnotin. change (In (fst (k', v)) (map fst r)).
      now apply in_map.
    + auto.
Qed.

Lemma dict_set_fresh k v d :
  ~ In k (dict_keys d) -> dict_set k v d = d ++ [(k, v)].
Proof.
  induction d as [|[k' v'] r IH]; simpl; [reflexivity|].
  intro H. destruct (String.eqb_spec k k') as [->|Hne].
  - exfalso. apply H. now left.
  - f_equal. apply IH. intro Hin. apply H. now right.
Qed.

Lemma dict_set_length k v d :
  (List.length (dict_set k v d) <= S (List.length d))%nat.
Proof.
  induction d as [|[k' v'] r IH]; simpl; [lia|].
  destruct (String.eqb k k'); simpl; lia.
Qed.

Lemma dict_remove_incl k d x : In x (dict_remove k d) -> In x d.
Proof.
  induction d as [|[k' v'] r IH]; simpl; [tauto|].
  destruct (String.eqb k k'); simpl; intuition.
Qed.

Lemma dict_remove_keys_incl k d x :
  In x (dict_keys (dict_remove k d)) -> In x (dict_keys d).
Proof.
  induction d as [|[k' v'] r IH]; simpl; [tauto|].
  destruct (String.eqb k k'); simpl; intuition.
Qed.

Lemma dict_remove_NoDup k d :
  NoDup (dict_keys d) -> NoDup (dict_keys (dict_remove k d)).
Proof.
  induction d as [|[k' v'] r IH]; simpl; [auto|].
  intro H. inversion H as [|? ? Hnotin Hnd]; subst.
  destruct (String.eqb k k'); simpl; [assumption|].
  constructor; [|auto].
  intro Hin. apply Hnotin. eapply dict_remove_keys_incl. exact Hin.
Qed.

Lemma dict_remove_length k d :
  (List.length (dict_remove k d) <= List.length d)%nat.
Proof.
  induction d as [|[k' v'] r IH]; simpl; [lia|].
  destruct (String.eqb k k'); simpl; lia.
Qed.

Lemma dict_get_remove_same k d :
  NoDup (dict_keys d) -> dict_get k (dict_remove k d) = None.
Proof.
  induction d as [|[k' v'] r IH]; simpl; [reflexivity|].
  intro H. inversion H as [|? ? Hnotin Hnd]; subst.
  destruct (String.eqb_spec k k') as [->|Hne].
  - now apply dict_get_None.
  - simpl. destruct (String.eqb_spec k k'); [contradiction|auto].
Qed.

Lemma dict_get_remove_other k k' d :
  k <> k' -> dict_get k (dict_remove k' d) = dict_get k d.
Proof.
  intro Hne. induction d as [|[k0 v0] r IH]; simpl; [reflexivity|].
  destruct (String.eqb_spec k' k0) as [->|Hne'].
  - destruct (String.eqb_spec k k0); [contradiction|reflexivity].
  - simpl. destruct (String.eqb k k0); auto.
Qed.

Lemma dict_get_app k d d' :
  dict_get k (d ++ d') =
  match dict_get k d with Some v => Some v | None => dict_get k d' end.
Proof.
  induction d as [|[k0 v0] r IH]; simpl; [reflexivity|].
  destruct (String.eqb k k0); auto.
Qed.

Lemma dict_del_Ok k d d' :
  dict_del k d = Ok d' -> d' = dict_remove k d /\ In k (dict_keys d).
Proof.
  unfold dict_del. destruct (dict_get k d) eqn:E; [|discriminate].
  intro H. injection H as <-. split; [reflexivity|].
  apply dict_get_In in E. change k with (fst (k, v)). now apply in_map.
Qed.
End DictFacts.

Lemma dict_remove_Forall {V : Type} (P : string * V -> Prop) k (d : dict V) :
  Forall P d -> Forall P (dict_remove k d).
Proof.
  intro H. apply Forall_forall. intros x Hx.
  rewrite Forall_forall in H. apply H. eapply dict_remove_incl. exact Hx.
Qed.

(** ** What the two primitive ledger updates do *)

Section Primitives.
Variable config : BacktestConfig.

Lemma calculate_pnl_percentage_total p price :
  ~ entry_price p == 0 -> exists r, calculate_pnl_percentage p price = Ok r.
Proof.
  intro H. unfold calculate_pnl_percentage.
  destruct (side p); rewrite fdiv_nonzero by assumption; simpl; eauto.
Qed.

(** A successful [settle] removes exactly the key, appends exactly one trade
    and credits the proceeds net of the fee. *)
Lemma settle_Ok key pid p price ts kind s s' :
  settle config key pid p price ts kind s = Ok s' ->
  exists t,
    positions s' = dict_remove key (positions s)
    /\ In key (dict_keys (positions s))
    /\ trades s' = trades s ++ [t]
    /\ position_id t = pid /\ exit_price t = price /\ trade_type t = kind
    /\ pnl t = calculate_pnl p price - price * size p * commission config
    /\ cash s' = cash s + (price * size p - price * size p * commission config)
    /\ equity_curve s' = equity_curve s
    /\ peak_equity s' = peak_equity s
    /\ self_initial_capital s' = self_initial_capital s
    /\ position_counter s' = position_counter s
    /\ trade_counter s' = S (trade_counter s)
    /\ trade_size t = size p.
Proof.
  unfold settle. intro H.
  apply bind_Ok in H as (pct & _ & H).
  apply bind_Ok in H as (ps & Hdel & H).
  apply dict_del_Ok in Hdel as [-> Hin].
  injection H as <-. simpl.
  eexists. repeat split; try reflexivity. exact Hin.
Qed.

Lemma settle_total key pid p price ts kind s :
  ~ entry_price p == 0 -> In key (dict_keys (positions s)) ->
  exists s', settle config key pid p price ts kind s = Ok s'.
Proof.
  intros Hne Hin. unfold settle.
  destruct (calculate_pnl_percentage_total p price Hne) as [r ->]. simpl.
  unfold dict_del.
  destruct (dict_get key (positions s)) eqn:E.
  - simpl. eauto.
  - apply dict_get_None in E. contradiction.
Qed.

(** A successful [_open_position] either rejects, leaving the engine as it
    was, or debits the cost and stores one LONG position under a new id. *)
Lemma open_position_Ok sg candle ts s s' :
  _open_position config sg candle ts s = Ok s' ->
  let entry := close candle * (1 + slippage config) in
  ~ entry == 0 /\
  ((cash s < buy_cost config sg s /\ s' = s)
   \/ (buy_cost config sg s <= cash s
       /\ cash s' = cash s - buy_cost config sg s
       /\ positions s' =
            dict_set (pos_id (S (position_counter s)))
              (new_position (pos_id (S (position_counter s))) (sig_symbol sg)
                 LONG entry (buy_value sg s / entry) ts
                 (dict_get "stop_loss" (metadata sg))
                 (dict_get "take_profit" (metadata sg)))
              (positions s)
       /\ trades s' = trades s
       /\ equity_curve s' = equity_curve s
       /\ peak_equity s' = peak_equity s
       /\ self_initial_capital s' = self_initial_capital s
       /\ position_counter s' = S (position_counter s)
       /\ trade_counter s' = trade_counter s)).
Proof.
  unfold _open_position. intro H.
  apply bind_Ok in H as (sz & Hsz & H).
  apply fdiv_Ok in Hsz as [Hne ->].
  assert (Hval :
    (if truthy (dict_get "position_size_pct" (metadata sg))
     then match dict_get "position_size_pct" (metadata sg) with
          | Some pct => cash s * (pct / 100)
          | None => cash s * (1 # 10)
          end
     else cash s * (1 # 10)) = buy_value sg s).
  { unfold buy_value, truthy.
    destruct (dict_get "position_size_pct" (metadata sg)) as [pct|]; [|reflexivity].
    destruct (Qeq_bool pct 0); reflexivity. }
  rewrite Hval in *. clear Hval.
  split; [exact Hne|].
  fold (buy_cost config sg s) in H.
  destruct (Qgtb (buy_cost config sg s) (cash s)) eqn:E.
  - left. injection H as <-. apply Qgtb_true in E. auto.
  - right. apply Qgtb_false in E. injection H as <-. simpl.
    repeat split; try reflexivity. exact E.
Qed.

Lemma open_position_total sg candle ts s :
  ~ close candle * (1 + slippage config) == 0 ->
  exists s', _open_position config sg candle ts s = Ok s'.
Proof.
  intro H. unfold _open_position. rewrite fdiv_nonzero by assumption. simpl.
  match goal with |- context [if ?b then _ else _] => destruct b end; eauto.
Qed.

End Primitives.

(** ** Closing signals without a matching position *)

Lemma find_by_symbol_none sym (d : dict BacktestPosition) :
  (forall kp, In kp d -> symbol (snd kp) <> sym) -> find_by_symbol sym d = None.
Proof.
  unfold find_by_symbol. induction d as [|kp r IH]; simpl; [reflexivity|].
  intro H. destruct (String.eqb_spec (symbol (snd kp)) sym) as [E|_].
  - exfalso. apply (H kp); auto.
  - apply IH. intros kp' Hin. apply H. now right.
Qed.

(** C10: a SELL, CLOSE_LONG or CLOSE_SHORT signal whose symbol matches no
    open position is processed without an error and returns the engine
    exactly as it was: cash, position map, trade list and every counter. *)
Theorem unmatched_close_is_noop config sg candle ts s :
  sig_type sg = SELL \/ sig_type sg = CLOSE_LONG \/ sig_type sg = CLOSE_SHORT ->
  (forall kp, In kp (positions s) -> symbol (snd kp) <> sig_symbol sg) ->
  _process_signal config sg candle ts s = Ok s.
Proof.
  intros Hty Hnone. unfold _process_signal, is_actionable, _close_position.
  rewrite (find_by_symbol_none _ _ Hnone).
  destruct Hty as [-> | [-> | ->]]; reflexivity.
Qed.

Lemma unmatched_close_is_noop_witness :
  _process_signal scenario_config (mk_signal SELL "ETH" []) (flat_candle 20 110)
    20 holding_btc = Ok holding_btc.
Proof.
  apply (unmatched_close_is_noop scenario_config (mk_signal SELL "ETH" [])
           (flat_candle 20 110) 20%Z holding_btc).
  - left. reflexivity.
  - intros kp [<- | []]. simpl. discriminate.
Defined.

(** ** Profit factor *)

Lemma fsum_from_nonneg (xs : list Q) (a : Q) :
  Forall (fun x => 0 <= x) xs -> 0 <= a -> 0 <= fold_left Qplus xs a.
Proof.
  revert a. induction xs as [|x r IH]; simpl; intros a Hall Ha; [exact Ha|].
  inversion Hall; subst. apply IH; [assumption|]. lra.
Qed.

Lemma gross_profit_nonneg (ts : list BacktestTrade) : 0 <= gross_profit_of ts.
Proof.
  unfold gross_profit_of.
  assert (H : Forall (fun x => 0 <= x) (wins_of ts)).
  { unfold wins_of. apply Forall_forall. intros x Hx.
    apply in_map_iff in Hx as (t & <- & Ht).
    apply filter_In in Ht as [_ Hw]. unfold is_winner in Hw.
    apply Qgtb_true in Hw. lra. }
  destruct (wins_of ts) eqn:E; [lra|]. rewrite <- E in *.
  apply fsum_from_nonneg; [assumption|lra].
Qed.

Lemma gross_loss_nonneg (ts : list BacktestTrade) : 0 <= gross_loss_of ts.
Proof.
  unfold gross_loss_of. destruct (losses_of ts); [lra|]. apply Qabs_nonneg.
Qed.

(** C7: with [gp] the gross profit (sum of winning pnl, never negative) and
    [gl] the gross loss (absolute sum of the other pnl), the profit factor of
    the computed metrics is +infinity when [gl] is zero and [gp] positive,
    0 when both are zero, and |gp / gl| when [gl] is not zero. *)
Theorem profit_factor_cases (s : Engine) :
  let gp := gross_profit_of (trades s) in
  let gl := gross_loss_of (trades s) in
  let pf := profit_factor (_calculate_metrics s) in
  0 <= gp /\ 0 <= gl
  /\ (gl == 0 -> 0 < gp -> pf = PosInf)
  /\ (gl == 0 -> gp == 0 -> pf = Fin 0)
  /\ (~ gl == 0 -> pf = Fin (Qabs (gp / gl))).
Proof.
  intros gp gl pf.
  split; [apply gross_profit_nonneg|]. split; [apply gross_loss_nonneg|].
  assert (Hpf : trades s = [] \/ pf = calculate_profit_factor gp gl).
  { subst pf gp gl. unfold _calculate_metrics.
    destruct (trades s); [now left|now right]. }
  destruct Hpf as [Hnil | Hpf].
  - subst pf gp gl. unfold _calculate_metrics. rewrite Hnil.
    unfold gross_profit_of, gross_loss_of. simpl.
    repeat split; intros; try reflexivity; try lra.
  - rewrite Hpf. unfold calculate_profit_factor. repeat split.
    + intros Hgl Hgp. apply Qeq_eq_bool in Hgl. rewrite Hgl.
      apply Qgtb_true in Hgp. now rewrite Hgp.
    + intros Hgl Hgp. apply Qeq_eq_bool in Hgl. rewrite Hgl.
      assert (Hle : gp <= 0) by lra. apply Qgtb_false in Hle. now rewrite Hle.
    + intro Hgl. destruct (Qeq_bool gl 0) eqn:Eb; [|reflexivity].
      apply Qeq_bool_iff in Eb. contradiction.
Qed.

(** ** Risk-based position sizing *)

Module RiskFacts.
Import Risk.

Lemma Qabs_nonzero_pos (x : Q) : ~ x == 0 -> 0 < Qabs x.
Proof.
  intro H. destruct (Qlt_le_dec x 0) as [Hneg|Hpos].
  - rewrite Qabs_neg by lra. lra.
  - rewrite Qabs_pos by lra. lra.
Qed.

(** C9, as the code has it: with a stop-loss price different from the price
    and a risk percentage both given, and a non-zero price, a size is
    returned; it never exceeds the risk cap
    [(portfolio_value * risk / 100) / |price - stop|] when no minimum
    notional is configured, and never exceeds the larger of that cap and
    [min_amount / price] when one is. *)
Theorem risk_cap_unless_floor (self : PositionSize) (portfolio_value price stop risk : Q) :
  risk_per_trade self = Some risk ->
  ~ price == stop ->
  ~ price == 0 ->
  let cap := (portfolio_value * (risk / 100)) / Qabs (price - stop) in
  exists sz,
    calculate_size self portfolio_value price (Some stop) = Ok sz
    /\ (min_amount self = None -> sz <= cap)
    /\ (forall m, min_amount self = Some m -> sz <= Qmax cap (m / price)).
Proof.
  intros Hrisk Hstop Hprice cap. unfold calculate_size. rewrite Hrisk.
  assert (Hgt : Qgtb (Qabs (price - stop)) 0 = true).
  { apply Qgtb_true. apply Qabs_nonzero_pos. lra. }
  rewrite Hgt. fold cap.
  set (base := match fixed_amount self with
               | Some amount => fdiv amount price
               | None => fdiv (portfolio_value * (percentage_of_portfolio self / 100)) price
               end).
  assert (Hbase : exists b, base = Ok b).
  { subst base. destruct (fixed_amount self); rewrite fdiv_nonzero by assumption; eauto. }
  destruct Hbase as [b ->]. simpl.
  destruct (min_amount self) as [m|]; destruct (max_amount self) as [mx|];
    rewrite ?fdiv_nonzero by assumption; simpl; eexists; (split; [reflexivity|]);
    split; try discriminate; intros.
  - injection H as <-.
    eapply Qle_trans; [apply Q.le_min_l|].
    apply Q.max_le_compat_r. apply Q.le_min_r.
  - injection H as <-. apply Q.max_le_compat_r. apply Q.le_min_r.
  - eapply Qle_trans; [apply Q.le_min_l|]. apply Q.le_min_r.
  - apply Q.le_min_r.
Qed.

Lemma risk_cap_unless_floor_witness :
  exists sz,
    calculate_size capped_rule 10000 100 (Some 90) = Ok sz
    /\ (min_amount capped_rule = None ->
        sz <= (10000 * (1 / 100)) / Qabs (100 - 90))
    /\ (forall m, min_amount capped_rule = Some m ->
        sz <= Qmax ((10000 * (1 / 100)) / Qabs (100 - 90)) (m / 100)).
Proof.
  apply (risk_cap_unless_floor capped_rule 10000 100 90 1).
  - reflexivity.
  - intro H. vm_compute in H. discriminate.
  - intro H. vm_compute in H. discriminate.
Defined.

(** With a minimum notional of 5000 the returned size is 50 although the
    risk cap is 10. *)
Lemma min_amount_lifts_size_above_risk_cap :
  exists sz,
    calculate_size floor_rule 10000 100 (Some 90) = Ok sz
    /\ risk_per_trade floor_rule = Some 1
    /\ ~ 100 == 90
    /\ ~ sz <= (10000 * (1 / 100)) / Qabs (100 - 90).
Proof.
  exists (Qmax (Qmin ((10000 * (10 / 100)) / 100)
                  ((10000 * (1 / 100)) / Qabs (100 - 90))) (5000 / 100)).
  split; [reflexivity|]. split; [reflexivity|].
  split; intro H; vm_compute in H; [discriminate|]. apply H. reflexivity.
Qed.

End RiskFacts.

(** ** Runs without data *)

Lemma run_event_driven_no_rows config strategy d s :
  rows d = [] -> _run_event_driven config strategy d s = Ok s.
Proof.
  intro H. unfold _run_event_driven. rewrite H. reflexivity.
Qed.

(** C5, as the code has it: [run] raises its missing-data error when the
    strategy has no data source, and when the first data source holds no
    frame or a frame without rows.  The date filter runs after these
    checks: when it leaves no row of a non-empty frame, [run] raises
    nothing and returns a result with no trades, no equity points and the
    default metrics. *)
Theorem run_missing_data config strategy s :
  (data_sources strategy = [] ->
   run config strategy s =
     Raise (ValueError "No data sources available for backtesting"))
  /\ (forall key src rest,
        data_sources strategy = (key, src) :: rest ->
        data src = None \/ (exists d, data src = Some d /\ rows d = []) ->
        run config strategy s = Raise (ValueError "No data loaded in data source"))
  /\ (forall key src rest d,
        data_sources strategy = (key, src) :: rest ->
        data src = Some d -> rows d <> [] ->
        rows (_filter_data_by_date config d) = [] ->
        run config strategy s = Ok (empty_result config)).
Proof.
  unfold run. repeat split.
  - intros ->. reflexivity.
  - intros key src rest -> [Hnone | (d & Hd & Hrows)]; simpl.
    + now rewrite Hnone.
    + now rewrite Hd, Hrows.
  - intros key src rest d -> Hd Hrows Hfiltered. simpl. rewrite Hd.
    destruct (rows d) eqn:E; [contradiction|]. simpl.
    rewrite run_event_driven_no_rows by assumption. reflexivity.
Qed.

Lemma run_missing_data_witness :
  run late_config (constant_strategy (Some (flat_frame 0 100)) [buy_btc])
    (init late_config)
  = Raise (ValueError "No data loaded in data source").
Proof.
  destruct (run_missing_data late_config
              (constant_strategy (Some (flat_frame 0 100)) [buy_btc])
              (init late_config)) as (_ & H & _).
  apply (H "primary"%string {| data := Some (flat_frame 0 100) |} []).
  - reflexivity.
  - right. exists (flat_frame 0 100). split; reflexivity.
Defined.

(** Sixty candles stamped 0..59 against the range 5000..6000: the filtered
    series is empty, and [run] returns a result instead of raising. *)
Lemma run_on_empty_date_range_returns_result :
  rows (_filter_data_by_date late_config (flat_frame 60 100)) = []
  /\ run late_config (constant_strategy (Some (flat_frame 60 100)) [buy_btc])
       (init late_config)
     = Ok (empty_result late_config).
Proof.
  split; vm_compute; reflexivity.
Qed.

(** ** Well-formedness of the position map along a run *)

Lemma NoDup_snoc {A : Type} (l : list A) (a : A) :
  NoDup l -> ~ In a l -> NoDup (l ++ [a]).
Proof.
  induction l as [|x r IH]; simpl; intros Hnd Hnotin.
  - constructor; [tauto|constructor].
  - inversion Hnd; subst. constructor.
    + rewrite in_app_iff. simpl. intuition.
    + apply IH; intuition.
Qed.

Section Invariants.
Variable config : BacktestConfig.

Lemma wf_entry_mono (m n : nat) kp : (m <= n)%nat -> wf_entry m kp -> wf_entry n kp.
Proof.
  intros Hle (Hid & (k & Hk & Hkm) & Hne & Hside).
  repeat split; auto. exists k. split; [assumption|lia].
Qed.

Lemma wf_reset s0 : wf_state (reset s0).
Proof. split; simpl; constructor. Qed.

Lemma wf_keys_bounded s k :
  wf_state s -> In k (dict_keys (positions s)) ->
  exists n, k = pos_id n /\ (n <= position_counter s)%nat.
Proof.
  intros [_ Hall] Hin. apply in_map_iff in Hin as (kp & <- & Hkp).
  rewrite Forall_forall in Hall. destruct (Hall kp Hkp) as (_ & Hn & _).
  exact Hn.
Qed.

Lemma next_id_fresh s :
  wf_state s -> ~ In (pos_id (S (position_counter s))) (dict_keys (positions s)).
Proof.
  intros Hwf Hin. destruct (wf_keys_bounded _ _ Hwf Hin) as (n & E & Hle).
  apply pos_id_inj in E. lia.
Qed.

Lemma wf_get s k p :
  wf_state s -> dict_get k (positions s) = Some p ->
  id p = k /\ ~ entry_price p == 0 /\ side p = LONG
  /\ In k (dict_keys (positions s)).
Proof.
  intros [_ Hall] Hget. apply dict_get_In in Hget.
  rewrite Forall_forall in Hall. destruct (Hall _ Hget) as (Hid & _ & Hne & Hside).
  repeat split; auto. change k with (fst (k, p)). now apply in_map.
Qed.

Lemma wf_settle key pid p price ts kind s s' :
  wf_state s -> settle config key pid p price ts kind s = Ok s' -> wf_state s'.
Proof.
  intros [Hnd Hall] H.
  apply settle_Ok in H as (t & Hpos & _ & _ & _ & _ & _ & _ & _ & _ & _ & _ & Hc & _).
  split; rewrite Hpos.
  - now apply dict_remove_NoDup.
  - rewrite Hc. now apply dict_remove_Forall.
Qed.

Lemma wf_open sg candle ts s s' :
  wf_state s -> _open_position config sg candle ts s = Ok s' -> wf_state s'.
Proof.
  intros Hwf H. pose proof (next_id_fresh s Hwf) as Hfresh.
  apply open_position_Ok in H as [Hne [[_ ->] | (_ & _ & Hpos & _ & _ & _ & _ & Hc & _)]];
    [assumption|].
  rewrite dict_set_fresh in Hpos by assumption.
  destruct Hwf as [Hnd Hall]. split; rewrite Hpos.
  - unfold dict_keys. rewrite map_app. simpl.
    now apply NoDup_snoc.
  - rewrite Hc. apply Forall_app. split.
    + eapply Forall_impl; [|exact Hall]. intros kp. apply wf_entry_mono. lia.
    + constructor; [|constructor]. repeat split; simpl; auto.
      exists (S (position_counter s)). split; [reflexivity|lia].
Qed.

(** Induction over the closing loop of [_check_exit_orders]. *)
Lemma close_scheduled_inv (P : Engine -> Prop) (R : string * TradeType * Q -> Prop) ts :
  (forall s pid p price kind s',
      P s -> R (pid, kind, price) -> dict_get pid (positions s) = Some p ->
      _close_position_at_price config p price ts kind s = Ok s' -> P s') ->
  forall todo s s',
    Forall R todo -> P s -> close_scheduled config todo ts s = Ok s' -> P s'.
Proof.
  intro Hstep. induction todo as [|[[pid kind] price] rest IH]; simpl;
    intros s s' Hall HP H.
  - injection H as <-. exact HP.
  - inversion Hall as [|? ? HR Hrest]; subst.
    apply bind_Ok in H as (s1 & H1 & H2).
    apply (IH s1 s'); [assumption| |assumption].
    destruct (dict_get pid (positions s)) as [p|] eqn:E.
    + eapply Hstep; eauto.
    + injection H1 as <-. exact HP.
Qed.

Lemma wf_check_exits h l ts s s' :
  wf_state s -> _check_exit_orders config h l ts s = Ok s' -> wf_state s'.
Proof.
  unfold _check_exit_orders. intros Hwf H.
  eapply (close_scheduled_inv wf_state (fun _ => True)); [| |exact Hwf|exact H].
  - intros s1 pid p price kind s2 Hwf1 _ _ Hc. eapply wf_settle; eauto.
  - apply Forall_forall. auto.
Qed.

Lemma update_one_static h l p :
  let p' := update_one config h l p in
  id p' = id p /\ symbol p' = symbol p /\ side p' = side p
  /\ entry_price p' = entry_price p /\ size p' = size p
  /\ entry_time p' = entry_time p
  /\ stop_loss p' = stop_loss p /\ take_profit p' = take_profit p.
Proof.
  unfold update_one. cbn.
  destruct (trailing_stop_enabled config); [|cbn; repeat split; reflexivity].
  destruct (side p) eqn:Es; [|cbn; repeat split; auto].
  destruct (trailing_stop p) as [t|] eqn:Et; [|cbn; repeat split; auto].
  match goal with |- context [if ?b then _ else _] => destruct b end;
    cbn; repeat split; auto.
Qed.

Lemma update_keys h l s :
  dict_keys (positions (_update_position_prices config h l s))
  = dict_keys (positions s).
Proof.
  simpl. unfold dict_keys. rewrite map_map. reflexivity.
Qed.

Lemma wf_update h l s :
  wf_state s -> wf_state (_update_position_prices config h l s).
Proof.
  intros [Hnd Hall]. split.
  - rewrite update_keys. exact Hnd.
  - simpl. apply Forall_map. eapply Forall_impl; [|exact Hall].
    intros [k p] (Hid & Hn & Hne & Hside). simpl in *.
    destruct (update_one_static h l p) as (E1 & _ & E3 & E4 & _).
    unfold wf_entry. simpl. rewrite E1, E3, E4. auto.
Qed.

Lemma wf_process_signal sg candle ts s s' :
  wf_state s -> _process_signal config sg candle ts s = Ok s' -> wf_state s'.
Proof.
  unfold _process_signal. intros Hwf H.
  destruct (negb (is_actionable sg)); [injection H as <-; assumption|].
  assert (Hclose : forall kind,
    _close_position config sg candle ts kind s = Ok s' -> wf_state s').
  { intros kind Hc. unfold _close_position in Hc.
    destruct (find_by_symbol (sig_symbol sg) (positions s)) as [[pid p]|].
    - eapply wf_settle; eauto.
    - injection Hc as <-. assumption. }
  destruct (sig_type sg); eauto; try (injection H as <-; assumption).
  destruct (max_positions config <=? Z.of_nat (List.length (positions s)))%Z.
  - injection H as <-. assumption.
  - eapply wf_open; eauto.
Qed.

Lemma wf_exec op s s' : wf_state s -> exec config op s = Ok s' -> wf_state s'.
Proof.
  intros Hwf H. destruct op; simpl in H.
  - eapply wf_check_exits; eauto.
  - injection H as <-. now apply wf_update.
  - eapply wf_process_signal; eauto.
  - injection H as <-. exact Hwf.
Qed.

(** Induction over traces. *)
Lemma exec_all_inv (P : Engine -> Prop) :
  (forall op s s', P s -> exec config op s = Ok s' -> P s') ->
  forall ops s s', P s -> exec_all config ops s = Ok s' -> P s'.
Proof.
  intro Hstep. induction ops as [|op rest IH]; simpl; intros s s' HP H.
  - injection H as <-. exact HP.
  - apply bind_Ok in H as (s1 & H1 & H2). eauto.
Qed.

Lemma reachable_wf s : reachable config s -> wf_state s.
Proof.
  intros (s0 & ops & H).
  eapply (exec_all_inv wf_state); [|apply wf_reset|exact H].
  intros. eapply wf_exec; eauto.
Qed.

End Invariants.

(** ** How many positions are open, and for which symbols *)

Section PositionCount.
Variable config : BacktestConfig.

Lemma within_limit_settle key pid p price ts kind s s' :
  (within_limit config) s -> settle config key pid p price ts kind s = Ok s' ->
  (within_limit config) s'.
Proof.
  unfold within_limit. intros Hs H.
  apply settle_Ok in H as (t & Hpos & _). rewrite Hpos.
  pose proof (dict_remove_length key (positions s)). lia.
Qed.

Lemma within_limit_exec op s s' :
  (within_limit config) s -> exec config op s = Ok s' -> (within_limit config) s'.
Proof.
  intros Hs H. destruct op; simpl in H.
  - unfold _check_exit_orders in H.
    eapply (close_scheduled_inv config (within_limit config) (fun _ => True));
      [| |exact Hs|exact H].
    + intros s1 pid p price kind s2 H1 _ _ Hc. eapply within_limit_settle; eauto.
    + apply Forall_forall. auto.
  - injection H as <-. unfold within_limit in *. simpl. now rewrite length_map.
  - unfold _process_signal in H.
    destruct (negb (is_actionable sg)); [injection H as <-; assumption|].
    assert (Hclose : forall kind,
      _close_position config sg candle ts kind s = Ok s' -> (within_limit config) s').
    { intros kind Hc. unfold _close_position in Hc.
      destruct (find_by_symbol (sig_symbol sg) (positions s)) as [[pid p]|].
      - eapply within_limit_settle; eauto.
      - injection Hc as <-. assumption. }
    destruct (sig_type sg); eauto; try (injection H as <-; assumption).
    destruct (max_positions config <=? Z.of_nat (List.length (positions s)))%Z eqn:E.
    + injection H as <-. assumption.
    + apply Z.leb_gt in E.
      apply open_position_Ok in H as [_ [[_ ->] | (_ & _ & Hpos & _)]];
        [assumption|].
      unfold within_limit. rewrite Hpos.
      pose proof (dict_set_length (pos_id (S (position_counter s)))
        (new_position (pos_id (S (position_counter s))) (sig_symbol sg) LONG
           (close candle * (1 + slippage config))
           (buy_value sg s / (close candle * (1 + slippage config))) ts
           (dict_get "stop_loss" (metadata sg))
           (dict_get "take_profit" (metadata sg))) (positions s)).
      lia.
  - injection H as <-. exact Hs.
Qed.

Lemma reachable_within_limit s : reachable config s -> (within_limit config) s.
Proof.
  intros (s0 & ops & H).
  eapply (exec_all_inv config (within_limit config)); [| |exact H].
  - intros. eapply within_limit_exec; eauto.
  - unfold within_limit. simpl. lia.
Qed.

(** C1, as the code has it: opening checks the number of open positions
    and the cash, never the symbol.  At every state of a run the open
    positions number at most [max_positions] and have distinct ids; no two
    of them share a symbol when [max_positions] is at most 1. *)
Theorem positions_bounded_and_distinct s :
  reachable config s ->
  (Z.of_nat (List.length (positions s)) <= Z.max 0 (max_positions config))%Z
  /\ NoDup (dict_keys (positions s))
  /\ ((max_positions config <= 1)%Z -> NoDup (open_symbols s)).
Proof.
  intro Hr. pose proof (reachable_within_limit s Hr) as Hlim.
  pose proof (reachable_wf config s Hr) as [Hnd _].
  split; [exact Hlim|]. split; [exact Hnd|].
  intro Hmax. unfold within_limit in Hlim. unfold open_symbols, dict_values.
  destruct (positions s) as [|kp [|kp' r]]; simpl in *.
  - constructor.
  - constructor; [tauto|constructor].
  - lia.
Qed.

End PositionCount.

Lemma positions_bounded_and_distinct_witness :
  (Z.of_nat (List.length (positions bought_btc))
     <= Z.max 0 (max_positions scenario_config))%Z
  /\ NoDup (dict_keys (positions bought_btc))
  /\ ((max_positions scenario_config <= 1)%Z -> NoDup (open_symbols bought_btc)).
Proof.
  apply (positions_bounded_and_distinct scenario_config bought_btc).
  exists (init scenario_config).
  exists [ProcessSignal buy_btc (flat_candle 10 100) 10%Z].
  vm_compute. reflexivity.
Defined.

(** Under the default limit of five positions, a strategy that emits two BUY
    signals for BTC at one candle leaves two open positions for BTC. *)
Lemma second_buy_opens_second_position_for_symbol :
  exists s,
    _run_event_driven (default_config 0 1000)
      (constant_strategy (Some (flat_frame 51 100)) [buy_btc; buy_btc])
      (flat_frame 51 100) (reset (init (default_config 0 1000))) = Ok s
    /\ open_symbols s = ["BTC"; "BTC"]%string
    /\ ~ NoDup (open_symbols s).
Proof.
  eexists. split; [vm_compute; reflexivity|].
  split; [reflexivity|].
  intro H. inversion H as [|? ? Hnotin _]; subst. apply Hnotin. now left.
Qed.

(** ** Every operation completes on a well-formed state *)

Section Totality.
Variable config : BacktestConfig.

Lemma find_by_symbol_In sym (d : dict BacktestPosition) kp :
  find_by_symbol sym d = Some kp -> In kp d /\ symbol (snd kp) = sym.
Proof.
  unfold find_by_symbol. intro H. apply find_some in H as [Hin E].
  apply String.eqb_eq in E. auto.
Qed.

Lemma wf_In s k p :
  wf_state s -> In (k, p) (positions s) ->
  id p = k /\ ~ entry_price p == 0 /\ In k (dict_keys (positions s)).
Proof.
  intros Hwf Hin. destruct Hwf as [Hnd Hall].
  pose proof (In_dict_get k p (positions s) Hnd Hin) as Hget.
  destruct (wf_get s k p (conj Hnd Hall) Hget) as (H1 & H2 & _ & H4). auto.
Qed.




End Totality.

(** ** Solvency *)

Section Solvency.
Variable config : BacktestConfig.
Hypothesis costs : fractional_costs config.






Lemma dict_set_In {V : Type} k (v : V) d x :
  In x (dict_set k v d) -> In x d \/ x = (k, v).
Proof.
  induction d as [|[k' v'] r IH]; simpl.
  - intros [<-|[]]. now right.
  - destruct (String.eqb k k'); simpl; intros [<-|H]; auto.
    destruct (IH H); auto.
Qed.





End Solvency.

(** ** Traces within the range of a float *)

Section FloatRangeFacts.
Variable config : BacktestConfig.




End FloatRangeFacts.





(** The range condition is what keeps the ledger in the rationals: a BUY
    at a close of 1e-320 meets every other condition, and its size,
    1000 / 1.0005e-320, is past the largest float. *)
Lemma tiny_close_leaves_float_range :
  fractional_costs (default_config 0 1000)
  /\ Forall sound_op tiny_close_ops
  /\ in_float_range (default_config 0 1000) tiny_close_ops
       (reset (init (default_config 0 1000))) = false.
Proof.
  split; [|split].
  - unfold fractional_costs. simpl. repeat split; lra.
  - repeat constructor; simpl; try reflexivity; intros q Hq; discriminate.
  - vm_compute. reflexivity.
Qed.

(** ** Only [_record_equity] touches the equity curve *)

Section Frame.
Variable config : BacktestConfig.

Lemma same_curve_settle key pid p price ts kind s s' :
  settle config key pid p price ts kind s = Ok s' -> same_curve s s'.
Proof.
  intro H. apply settle_Ok in H as (t & H). unfold same_curve. tauto.
Qed.

Lemma same_curve_trans a b c : same_curve a b -> same_curve b c -> same_curve a c.
Proof.
  unfold same_curve. intros (A1 & A2 & A3) (B1 & B2 & B3).
  repeat split; congruence.
Qed.

Lemma same_curve_refl a : same_curve a a.
Proof. unfold same_curve. auto. Qed.

Lemma same_curve_exec op s s' :
  (forall ts c, op <> RecordEquity ts c) ->
  exec config op s = Ok s' -> same_curve s s'.
Proof.
  intros Hop H. destruct op; simpl in H.
  - unfold _check_exit_orders in H.
    eapply (close_scheduled_inv config (same_curve s) (fun _ => True));
      [| |apply same_curve_refl|exact H].
    + intros s1 pid p price kind s2 H1 _ _ Hc.
      eapply same_curve_trans; [exact H1|]. eapply same_curve_settle; eauto.
    + apply Forall_forall. auto.
  - injection H as <-. unfold same_curve. auto.
  - unfold _process_signal in H.
    destruct (negb (is_actionable sg)); [injection H as <-; apply same_curve_refl|].
    assert (Hcl : forall kind, _close_position config sg candle ts kind s = Ok s' ->
                   same_curve s s').
    { intros kind Hc. unfold _close_position in Hc.
      destruct (find_by_symbol (sig_symbol sg) (positions s)) as [[pid p]|].
      - eapply same_curve_settle; eauto.
      - injection Hc as <-. apply same_curve_refl. }
    destruct (sig_type sg); eauto; try (injection H as <-; apply same_curve_refl).
    destruct (max_positions config <=? Z.of_nat (List.length (positions s)))%Z;
      [injection H as <-; apply same_curve_refl|].
    apply open_position_Ok in H as [_ [[_ ->] | (_ & _ & _ & _ & H5 & H6 & H7 & _)]];
      [apply same_curve_refl|].
    unfold same_curve. auto.
  - exfalso. eapply Hop. reflexivity.
Qed.

End Frame.

(** ** The loop of [_run_event_driven] as a trace *)

Section RunAsTrace.
Variable config : BacktestConfig.

Lemma exec_all_app ops1 ops2 s :
  exec_all config (ops1 ++ ops2) s =
  (s' <- exec_all config ops1 s ;; exec_all config ops2 s').
Proof.
  revert s. induction ops1 as [|op r IH]; simpl; intro s; [reflexivity|].
  destruct (exec config op s) as [s1|e]; simpl; auto.
Qed.

Lemma process_signals_trace sgs candle ts s :
  process_signals config sgs candle ts s =
  exec_all config (map (fun sg => ProcessSignal sg candle ts) sgs) s.
Proof.
  revert s. induction sgs as [|sg r IH]; simpl; intro s; [reflexivity|].
  destruct (_process_signal config sg candle ts s); simpl; auto.
Qed.

Lemma candle_step_trace candle sgs s :
  candle_step config candle sgs s = exec_all config (candle_ops candle sgs) s.
Proof.
  unfold candle_step, candle_ops. simpl.
  destruct (_check_exit_orders config (high candle) (low candle) (timestamp candle) s)
    as [s1|e]; simpl; [|reflexivity].
  rewrite exec_all_app, process_signals_trace.
  destruct (exec_all config _ _) as [s3|e]; reflexivity.
Qed.

Lemma run_candles_trace steps s :
  run_candles config steps s =
  exec_all config (flat_map (fun cs => candle_ops (fst cs) (snd cs)) steps) s.
Proof.
  revert s. induction steps as [|[c sgs] r IH]; intro s; [reflexivity|].
  cbn [run_candles flat_map fst snd].
  rewrite exec_all_app, candle_step_trace.
  destruct (exec_all config (candle_ops c sgs) s); simpl; auto.
Qed.

Lemma run_indices_trace strategy d idxs s s' :
  run_indices config strategy d idxs s = Ok s' ->
  exists ops, exec_all config ops s = Ok s'.
Proof.
  revert s. induction idxs as [|i r IH]; simpl; intros s H.
  - exists []. exact H.
  - apply bind_Ok in H as (s1 & H1 & H2).
    destruct (IH _ H2) as [ops Hops].
    unfold loop_body in H1.
    destruct (nth_error (rows d) i) as [c|]; [|discriminate].
    destruct (dict_keys (data_sources strategy)) as [|key ks]; [discriminate|].
    rewrite candle_step_trace in H1.
    eexists (_ ++ ops). rewrite exec_all_app, H1. exact Hops.
Qed.

Lemma run_event_driven_reachable strategy d s0 s :
  _run_event_driven config strategy d (reset s0) = Ok s -> reachable config s.
Proof.
  unfold _run_event_driven. intro H.
  apply run_indices_trace in H as [ops H]. exists s0, ops. exact H.
Qed.

(** What [run] returns is the trade list, the equity curve and the metrics
    of a reachable state. *)
Lemma run_result strategy s0 r :
  run config strategy s0 = Ok r ->
  exists s, reachable config s
    /\ self_initial_capital s = self_initial_capital s0
    /\ res_trades r = trades s
    /\ res_equity_curve r = equity_curve s
    /\ res_metrics r = Some (_calculate_metrics s).
Proof.
  unfold run. intro H.
  destruct (dict_values (data_sources strategy)) as [|src rest]; [discriminate|].
  destruct (data src) as [d|]; [|discriminate].
  destruct (List.length (rows d) =? 0)%nat; [discriminate|].
  apply bind_Ok in H as (s & Hrun & H). injection H as <-. simpl.
  exists s. split; [eapply run_event_driven_reachable; eauto|].
  split; [|auto].
  unfold _run_event_driven in Hrun. apply run_indices_trace in Hrun as [ops Hops].
  change (self_initial_capital s0) with (self_initial_capital (reset s0)).
  eapply (exec_all_inv config
            (fun x => self_initial_capital x = self_initial_capital (reset s0)));
    [| reflexivity | exact Hops].
  intros op a b Ha Hab. rewrite <- Ha.
  destruct op as [h l ts|h l|sg candle ts|ts c];
    try (apply (same_curve_exec config) in Hab as (_ & _ & E);
         [exact E|intros; discriminate]).
  simpl in Hab. injection Hab as <-. reflexivity.
Qed.

End RunAsTrace.

(** ** Drawdown bookkeeping *)

Section Drawdown.
Variable config : BacktestConfig.

Lemma running_peak_snoc base xs x :
  running_peak base (xs ++ [x]) = Qmax (running_peak base xs) x.
Proof.
  unfold running_peak. rewrite fold_left_app. reflexivity.
Qed.

Lemma peak_tracked_record ts c s :
  peak_tracked s -> peak_tracked (_record_equity ts c s).
Proof.
  intros [Hpeak Hdd]. unfold peak_tracked. simpl.
  set (eqty := cash s + fsum (map (fun p => size p * c) (dict_values (positions s)))).
  rewrite map_app. simpl. rewrite running_peak_snoc, <- Hpeak.
  split; [reflexivity|].
  intros i pt Hnth.
  destruct (Nat.lt_ge_cases i (List.length (equity_curve s))) as [Hlt|Hge].
  - rewrite nth_error_app1 in Hnth by assumption.
    rewrite firstn_app.
    replace (S i - List.length (equity_curve s))%nat with 0%nat by lia.
    simpl. rewrite app_nil_r. exact (Hdd i pt Hnth).
  - rewrite nth_error_app2 in Hnth by assumption.
    destruct (i - List.length (equity_curve s))%nat as [|k] eqn:Ek;
      [|destruct k; discriminate].
    simpl in Hnth. injection Hnth as <-.
    rewrite firstn_all2 by (rewrite length_app; simpl; lia).
    rewrite map_app. simpl. rewrite running_peak_snoc, <- Hpeak. cbn.
    fold eqty. split; [reflexivity|]. split; intro Hp.
    + apply Qgtb_true in Hp. now rewrite Hp.
    + apply Qgtb_false in Hp. now rewrite Hp.
Qed.

Lemma peak_tracked_exec op s s' :
  peak_tracked s -> exec config op s = Ok s' -> peak_tracked s'.
Proof.
  intros Hs H.
  destruct op as [h l ts|h l|sg candle ts|ts c];
    try (apply (same_curve_exec config) in H as (E1 & E2 & E3); [|intros; discriminate];
         unfold peak_tracked; rewrite E1, E2, E3; exact Hs).
  simpl in H. injection H as <-. now apply peak_tracked_record.
Qed.

Lemma reachable_peak_tracked s : reachable config s -> peak_tracked s.
Proof.
  intros (s0 & ops & H).
  eapply (exec_all_inv config peak_tracked); [| |exact H].
  - intros. eapply peak_tracked_exec; eauto.
  - split; [reflexivity|]. intros i pt Hnth. destruct i; discriminate.
Qed.

(** C4, as the code has it: the high-water mark of a run starts at the
    initial capital, not at the first recorded equity.  For the curve a run
    returns, at every index i the stored drawdown is
    [max (initial capital, equity[0..i]) - equity[i]], and the stored
    percentage is that drawdown over that maximum times 100 when the
    maximum is positive, 0 otherwise. *)
Theorem drawdown_from_running_peak strategy s0 r i pt :
  run config strategy s0 = Ok r ->
  nth_error (res_equity_curve r) i = Some pt ->
  let peak :=
    running_peak (self_initial_capital s0)
      (map equity (firstn (S i) (res_equity_curve r))) in
  drawdown pt = peak - equity pt
  /\ (0 < peak -> drawdown_percentage pt = (drawdown pt / peak) * 100)
  /\ (peak <= 0 -> drawdown_percentage pt = 0).
Proof.
  intros Hrun Hnth.
  apply run_result in Hrun as (s & Hr & Hcap & _ & Hcurve & _).
  destruct (reachable_peak_tracked s Hr) as [_ Hdd].
  rewrite Hcurve in *. rewrite <- Hcap. exact (Hdd i pt Hnth).
Qed.

End Drawdown.

Lemma drawdown_from_running_peak_witness :
  let peak :=
    running_peak (self_initial_capital (init (default_config 0 1000)))
      (map equity (firstn 1 (res_equity_curve eager_result))) in
  drawdown eager_point = peak - equity eager_point
  /\ (0 < peak -> drawdown_percentage eager_point = (drawdown eager_point / peak) * 100)
  /\ (peak <= 0 -> drawdown_percentage eager_point = 0).
Proof.
  apply (drawdown_from_running_peak (default_config 0 1000) eager_buyer
           (init (default_config 0 1000)) eager_result 0 eager_point).
  - vm_compute. reflexivity.
  - vm_compute. reflexivity.
Defined.

(** A first candle that opens a position under the default costs records an
    equity below the initial capital of 10000, and a drawdown that is not 0
    although that equity is the only one recorded. *)
Lemma first_drawdown_counts_from_initial_capital :
  run (default_config 0 1000) eager_buyer (init (default_config 0 1000))
    = Ok eager_result
  /\ nth_error (res_equity_curve eager_result) 0 = Some eager_point
  /\ ~ drawdown eager_point
       == recorded_peak (map equity (firstn 1 (res_equity_curve eager_result)))
          - equity eager_point.
Proof.
  split; [vm_compute; reflexivity|]. split; [reflexivity|].
  intro H. vm_compute in H. discriminate.
Qed.

(** ** End-to-end scenario A *)

Section ScenarioA.
Variable sym : string.

Lemma run_candles_app config steps1 steps2 s :
  run_candles config (steps1 ++ steps2) s =
  (s' <- run_candles config steps1 s ;; run_candles config steps2 s').
Proof.
  revert s. induction steps1 as [|[c sgs] r IH]; simpl; intro s; [reflexivity|].
  destruct (candle_step config c sgs s); simpl; auto.
Qed.

Lemma scenario_entry c_buy buy :
  close c_buy == 100 ->
  sig_type buy = BUY -> sig_symbol buy = sym ->
  dict_get "position_size_pct" (metadata buy) = None ->
  dict_get "stop_loss" (metadata buy) = None ->
  dict_get "take_profit" (metadata buy) = None ->
  exists s, candle_step scenario_config c_buy [buy] (init scenario_config) = Ok s
    /\ holds_scenario_position sym s.
Proof.
  intros Hclose Hty Hsym Hpct Hsl Htp.
  unfold candle_step. cbn [_check_exit_orders init positions flat_map close_scheduled bind].
  cbn [process_signals]. unfold _process_signal, is_actionable. rewrite Hty.
  cbn [negb max_positions scenario_config _update_position_prices positions map
       List.length Z.of_nat Z.leb Z.compare].
  set (s0 := _update_position_prices scenario_config (high c_buy) (low c_buy)
               (init scenario_config)).
  assert (Hne : ~ close c_buy * (1 + slippage scenario_config) == 0).
  { simpl. rewrite Hclose. intro H. vm_compute in H. discriminate. }
  destruct (open_position_total scenario_config buy c_buy (timestamp c_buy) s0 Hne)
    as [s1 H1].
  rewrite H1. cbn [bind].
  eexists. split; [reflexivity|].
  apply open_position_Ok in H1 as [_ [[Hlt _] | (_ & Hc & Hpos & Htr & _)]].
  - exfalso. unfold buy_cost, buy_value in Hlt. rewrite Hpct in Hlt.
    simpl in Hlt. lra.
  - unfold holds_scenario_position. cbn [_record_equity cash trades positions].
    split.
    { rewrite Hc. unfold buy_cost, buy_value. rewrite Hpct. simpl. lra. }
    split; [rewrite Htr; reflexivity|].
    eexists. split; [rewrite Hpos; reflexivity|].
    cbn. rewrite Hsym, Hsl, Htp. repeat split; try reflexivity.
    + rewrite Hclose. reflexivity.
    + unfold buy_value. rewrite Hpct. simpl cash. rewrite Hclose. reflexivity.
Qed.

Lemma scenario_quiet_exits h l ts s :
  holds_scenario_position sym s ->
  _check_exit_orders scenario_config h l ts s = Ok s.
Proof.
  intros (_ & _ & p & Hpos & _ & _ & _ & _ & _ & Hsl & Htp & Htr).
  unfold _check_exit_orders. rewrite Hpos. simpl. rewrite Hsl, Htp, Htr.
  reflexivity.
Qed.

Lemma scenario_tracking h l s :
  holds_scenario_position sym s ->
  holds_scenario_position sym (_update_position_prices scenario_config h l s).
Proof.
  intros (Hc & Htr & p & Hpos & Hid & Hsy & Hsd & He & Hsz & Hsl & Htp & Hts).
  unfold holds_scenario_position. simpl. rewrite Hpos. simpl.
  split; [exact Hc|]. split; [exact Htr|].
  eexists. split; [reflexivity|]. cbn. repeat split; assumption.
Qed.

Lemma scenario_hold c s :
  holds_scenario_position sym s ->
  exists s', candle_step scenario_config c [] s = Ok s'
    /\ holds_scenario_position sym s'.
Proof.
  intro H. unfold candle_step.
  rewrite (scenario_quiet_exits _ _ _ _ H). cbn [bind process_signals].
  eexists. split; [reflexivity|].
  apply (scenario_tracking (high c) (low c)) in H.
  destruct H as (Hc & Htr & p & Hpos & Hrest).
  unfold holds_scenario_position. cbn [_record_equity cash trades positions].
  split; [exact Hc|]. split; [exact Htr|]. exists p. split; assumption.
Qed.

Lemma scenario_holds mid s :
  holds_scenario_position sym s ->
  exists s', run_candles scenario_config (map (fun c => (c, [])) mid) s = Ok s'
    /\ holds_scenario_position sym s'.
Proof.
  revert s. induction mid as [|c r IH]; simpl; intros s H.
  - eauto.
  - destruct (scenario_hold c s H) as (s1 & H1 & HJ). rewrite H1. simpl. auto.
Qed.

Lemma scenario_exit c_sell sell s :
  holds_scenario_position sym s ->
  close c_sell == 110 ->
  sig_type sell = SELL -> sig_symbol sell = sym ->
  exists s' t, candle_step scenario_config c_sell [sell] s = Ok s'
    /\ trades s' = [t] /\ trade_size t == 10 /\ pnl t == 100
    /\ trade_type t = EXIT
    /\ cash s' == 10100 /\ positions s' = [].
Proof.
  intros H Hclose Hty Hsym. unfold candle_step.
  rewrite (scenario_quiet_exits _ _ _ _ H). cbn [bind process_signals].
  apply (scenario_tracking (high c_sell) (low c_sell)) in H.
  set (s2 := _update_position_prices scenario_config (high c_sell) (low c_sell) s) in *.
  destruct H as (Hc & Htr & p & Hpos & Hid & Hsy & Hsd & He & Hsz & Hsl & Htp & Hts).
  unfold _process_signal, is_actionable. rewrite Hty. cbn [negb].
  unfold _close_position, find_by_symbol. rewrite Hpos, Hsym. cbn [find snd].
  rewrite Hsy, String.eqb_refl.
  assert (Hne : ~ entry_price p == 0) by (rewrite He; intro E; vm_compute in E; discriminate).
  assert (Hin : In (pos_id 1) (dict_keys (positions s2))) by (rewrite Hpos; now left).
  destruct (settle_total scenario_config (pos_id 1) (pos_id 1) p
              (close c_sell * (1 - slippage scenario_config)) (timestamp c_sell)
              EXIT s2 Hne Hin) as [s3 H3].
  rewrite H3. cbn [bind].
  apply settle_Ok in H3
    as (t & Hp3 & _ & Ht3 & _ & _ & Hk & Hpnl & Hc3 & _ & _ & _ & _ & _ & Hts3).
  eexists. exists t. split; [reflexivity|].
  cbn [_record_equity trades cash positions].
  split; [rewrite Ht3, Htr; reflexivity|].
  split; [rewrite Hts3; exact Hsz|].
  split.
  { rewrite Hpnl. unfold calculate_pnl. rewrite Hsd. simpl.
    rewrite Hclose, He, Hsz. reflexivity. }
  split; [exact Hk|]. split.
  - rewrite Hc3, Hc. simpl. rewrite Hclose, Hsz. reflexivity.
  - rewrite Hp3, Hpos. simpl. reflexivity.
Qed.

(** C6: under {initial_capital=10000, commission=0, slippage=0,
    max_positions=1}, a BUY with default sizing at a candle closing at 100,
    any number of candles without signals, then a SELL of the same symbol
    at a candle closing at 110 leave exactly one trade, of ten units with
    pnl 100, cash 10100 and no open position. *)
Theorem scenario_A c_buy c_sell mid buy sell :
  close c_buy == 100 -> close c_sell == 110 ->
  sig_type buy = BUY -> sig_symbol buy = sym ->
  dict_get "position_size_pct" (metadata buy) = None ->
  dict_get "stop_loss" (metadata buy) = None ->
  dict_get "take_profit" (metadata buy) = None ->
  sig_type sell = SELL -> sig_symbol sell = sym ->
  exists s t,
    run_candles scenario_config (scenario_steps c_buy c_sell mid buy sell)
      (init scenario_config) = Ok s
    /\ trades s = [t] /\ trade_size t == 10 /\ pnl t == 100
    /\ trade_type t = EXIT
    /\ cash s == 10100 /\ positions s = [].
Proof.
  intros Hb Hs Hbt Hbs Hpct Hsl Htp Hst Hss.
  destruct (scenario_entry c_buy buy Hb Hbt Hbs Hpct Hsl Htp) as (s1 & H1 & J1).
  destruct (scenario_holds mid s1 J1) as (s2 & H2 & J2).
  destruct (scenario_exit c_sell sell s2 J2 Hs Hst Hss) as (s3 & t & H3 & Hrest).
  exists s3, t. split; [|exact Hrest].
  unfold scenario_steps. cbn [run_candles]. rewrite H1. cbn [bind].
  rewrite run_candles_app, H2. cbn [bind run_candles]. rewrite H3. reflexivity.
Qed.

End ScenarioA.

Lemma scenario_A_witness :
  exists s t,
    run_candles scenario_config
      (scenario_steps (flat_candle 10 100) (flat_candle 20 110)
         [flat_candle 15 105] buy_btc sell_btc)
      (init scenario_config) = Ok s
    /\ trades s = [t] /\ trade_size t == 10 /\ pnl t == 100
    /\ trade_type t = EXIT
    /\ cash s == 10100 /\ positions s = [].
Proof.
  apply (scenario_A "BTC" (flat_candle 10 100) (flat_candle 20 110)
           [flat_candle 15 105] buy_btc sell_btc); reflexivity.
Defined.

(** ** Exit orders *)

Section ExitOrders.
Variable config : BacktestConfig.

Lemma dict_remove_keys_other {V : Type} k k' (d : dict V) :
  k <> k' -> In k (dict_keys d) -> In k (dict_keys (dict_remove k' d)).
Proof.
  intros Hne. induction d as [|[k0 v0] r IH]; simpl; [tauto|].
  destruct (String.eqb_spec k' k0) as [->|Hne'].
  - intros [E|H]; [congruence|exact H].
  - simpl. intros [E|H]; auto.
Qed.

(** The closing loop settles every scheduled exit, in order, at its trigger
    price and under its trade type. *)
Lemma close_scheduled_trades todo ts s :
  wf_state s ->
  NoDup (map exit_key todo) ->
  Forall (fun item => In (exit_key item) (dict_keys (positions s))) todo ->
  exists s' new,
    close_scheduled config todo ts s = Ok s'
    /\ trades s' = trades s ++ new
    /\ map trade_summary new = todo
    /\ (forall k, In k (map exit_key todo) -> dict_get k (positions s') = None)
    /\ (forall k, ~ In k (map exit_key todo) ->
          dict_get k (positions s') = dict_get k (positions s)).
Proof.
  revert s. induction todo as [|[[pid kind] price] rest IH]; intros s Hwf Hnd Hall.
  - exists s, []. simpl. rewrite app_nil_r. repeat split; auto. intros k [].
  - inversion Hnd as [|? ? Hnotin Hnd']; subst.
    inversion Hall as [|? ? Hin Hall']; subst.
    unfold exit_key in Hin, Hnotin. simpl in Hin, Hnotin.
    destruct (dict_get pid (positions s)) as [p|] eqn:Hget;
      [|apply dict_get_None in Hget; contradiction].
    destruct (wf_get s pid p Hwf Hget) as (Hid & Hne & _ & _).
    destruct (settle_total config pid pid p price ts kind s Hne Hin) as [s1 H1].
    pose proof (wf_settle config _ _ _ _ _ _ _ _ Hwf H1) as Hwf1.
    pose proof H1 as H1'.
    apply settle_Ok in H1' as (t & Hpos & _ & Htr & Ht1 & Ht2 & Ht3 & _).
    destruct (IH s1 Hwf1 Hnd') as (s' & new & Hrun & Htrades & Hsum & Hgone & Hkept).
    { rewrite Hpos. eapply Forall_impl; [|apply Forall_forall; intros x Hx;
        exact (conj (proj1 (Forall_forall _ _) Hall' x Hx) Hx)].
      intros item [Hk Hx]. apply dict_remove_keys_other; [|exact Hk].
      intro E. apply Hnotin. rewrite <- E.
      apply in_map_iff. exists item. split; [reflexivity|exact Hx]. }
    exists s', (t :: new). cbn [close_scheduled]. rewrite Hget.
    unfold _close_position_at_price. rewrite Hid, H1. cbn [bind].
    split; [exact Hrun|]. split.
    { rewrite Htrades, Htr, <- app_assoc. reflexivity. }
    split.
    { cbn [map]. rewrite Hsum. unfold trade_summary. rewrite Ht1, Ht2, Ht3.
      reflexivity. }
    destruct Hwf as [Hndk _]. split.
    + intros k [E|Hk].
      * unfold exit_key in E. simpl in E. subst k.
        rewrite Hkept by exact Hnotin. rewrite Hpos.
        now apply dict_get_remove_same.
      * now apply Hgone.
    + intros k Hk. simpl in Hk.
      rewrite Hkept by (intro; apply Hk; now right).
      rewrite Hpos. apply dict_get_remove_other.
      intro E. apply Hk. left. unfold exit_key. simpl. congruence.
Qed.

Lemma exit_trigger_key h l k p item :
  In item (exit_trigger h l (k, p)) -> exit_key item = k.
Proof.
  unfold exit_trigger.
  destruct (guarded (stop_loss p) _); [intros [<-|[]]; reflexivity|].
  destruct (guarded (take_profit p) _); [intros [<-|[]]; reflexivity|].
  destruct (guarded (trailing_stop p) _); [intros [<-|[]]; reflexivity|].
  contradiction.
Qed.

Lemma exit_trigger_short h l kp : (List.length (exit_trigger h l kp) <= 1)%nat.
Proof.
  destruct kp as [k p]. unfold exit_trigger.
  destruct (guarded (stop_loss p) _); [simpl; lia|].
  destruct (guarded (take_profit p) _); [simpl; lia|].
  destruct (guarded (trailing_stop p) _); simpl; lia.
Qed.

Lemma scheduled_keys h l (d : dict BacktestPosition) k :
  In k (map exit_key (flat_map (exit_trigger h l) d)) -> In k (dict_keys d).
Proof.
  intro H. apply in_map_iff in H as (item & <- & Hin).
  apply in_flat_map in Hin as ([k' p] & Hkp & Hitem).
  apply exit_trigger_key in Hitem. rewrite Hitem.
  change k' with (fst (k', p)). now apply in_map.
Qed.

Lemma scheduled_NoDup h l (d : dict BacktestPosition) :
  NoDup (dict_keys d) -> NoDup (map exit_key (flat_map (exit_trigger h l) d)).
Proof.
  induction d as [|[k p] r IH]; intro Hnd; [constructor|].
  cbn [flat_map dict_keys map fst] in *.
  inversion Hnd as [|? ? Hnotin Hnd']; subst.
  rewrite map_app.
  pose proof (exit_trigger_short h l (k, p)) as Hlen.
  destruct (exit_trigger h l (k, p)) as [|item [|item' more]] eqn:E;
    cbn [map app List.length] in *; [auto| |lia].
  constructor; [|auto].
  assert (Hk : exit_key item = k).
  { apply (exit_trigger_key h l k p). rewrite E. now left. }
  rewrite Hk. intro Hin. apply Hnotin. eapply scheduled_keys. exact Hin.
Qed.

(** Among the scheduled exits, those of one position are exactly what
    [exit_trigger] yields for it. *)
Lemma scheduled_for h l (d : dict BacktestPosition) pid p :
  NoDup (dict_keys d) -> dict_get pid d = Some p ->
  filter (fun item => String.eqb (exit_key item) pid) (flat_map (exit_trigger h l) d)
  = exit_trigger h l (pid, p).
Proof.
  induction d as [|[k v] r IH]; intros Hnd Hget; [discriminate|].
  cbn [flat_map dict_get dict_keys map fst] in *.
  inversion Hnd as [|? ? Hnotin Hnd']; subst.
  rewrite filter_app. revert Hget.
  destruct (String.eqb_spec pid k) as [->|Hne]; intro Hget.
  - injection Hget as ->.
    assert (H1 : filter (fun item => String.eqb (exit_key item) k)
                   (exit_trigger h l (k, p)) = exit_trigger h l (k, p)).
    { apply forallb_filter_id. apply forallb_forall. intros item Hin.
      apply exit_trigger_key in Hin. rewrite Hin. apply String.eqb_refl. }
    assert (H2 : filter (fun item => String.eqb (exit_key item) k)
                   (flat_map (exit_trigger h l) r) = []).
    { destruct (filter _ (flat_map (exit_trigger h l) r)) as [|x xs] eqn:E;
        [reflexivity|].
      exfalso. assert (Hx : In x (x :: xs)) by now left.
      rewrite <- E in Hx. apply filter_In in Hx as [Hx Hk].
      apply String.eqb_eq in Hk. apply Hnotin. rewrite <- Hk.
      apply (scheduled_keys h l). apply in_map. exact Hx. }
    rewrite H1, H2. apply app_nil_r.
  - assert (H1 : filter (fun item => String.eqb (exit_key item) pid)
                   (exit_trigger h l (k, v)) = []).
    { destruct (filter _ (exit_trigger h l (k, v))) as [|x xs] eqn:E;
        [reflexivity|].
      exfalso. assert (Hx : In x (x :: xs)) by now left.
      rewrite <- E in Hx. apply filter_In in Hx as [Hx Hk].
      apply String.eqb_eq in Hk. apply exit_trigger_key in Hx. congruence. }
    rewrite H1. cbn [app]. auto.
Qed.

Lemma stop_loss_first h l pid p sl :
  stop_loss p = Some sl -> ~ sl == 0 -> l <= sl ->
  exit_trigger h l (pid, p) = [(pid, STOP_LOSS, sl)].
Proof.
  intros Hsl Hnz Hle. unfold exit_trigger, guarded. rewrite Hsl.
  apply truthy_Some in Hnz. rewrite Hnz.
  apply Qle_bool_iff in Hle. rewrite Hle. reflexivity.
Qed.

Lemma filter_map_summary pid (new : list BacktestTrade) :
  map trade_summary (filter (fun x => String.eqb (position_id x) pid) new)
  = filter (fun item => String.eqb (exit_key item) pid) (map trade_summary new).
Proof.
  induction new as [|t r IH]; simpl; [reflexivity|].
  unfold exit_key at 1. simpl.
  destruct (String.eqb (position_id t) pid); simpl; now rewrite IH.
Qed.

(** C2, as the code has it: the exit check tests the truthiness of the
    stop-loss level, so a level of exactly 0 counts as unset.  For an open
    position whose stop loss is set to a non-zero level and whose take
    profit is set, at a candle with low <= stop_loss and high >=
    take_profit, the check completes, the position is gone afterwards, and
    exactly one of the trades it appends belongs to the position: it exits
    at the stop-loss level and is typed STOP_LOSS. *)
Theorem exit_priority s pid p sl tp h l ts :
  reachable config s ->
  dict_get pid (positions s) = Some p ->
  stop_loss p = Some sl -> ~ sl == 0 ->
  take_profit p = Some tp ->
  l <= sl -> tp <= h ->
  exists s' new t,
    _check_exit_orders config h l ts s = Ok s'
    /\ trades s' = trades s ++ new
    /\ filter (fun x => String.eqb (position_id x) pid) new = [t]
    /\ exit_price t = sl
    /\ trade_type t = STOP_LOSS
    /\ dict_get pid (positions s') = None.
Proof.
  intros Hr Hget Hsl Hnz Htp Hlow Hhigh.
  pose proof (reachable_wf config s Hr) as Hwf.
  pose proof Hwf as [Hnd _].
  destruct (close_scheduled_trades (flat_map (exit_trigger h l) (positions s)) ts s Hwf)
    as (s' & new & Hrun & Htrades & Hsum & Hgone & _).
  { now apply scheduled_NoDup. }
  { apply Forall_forall. intros item Hin. apply (scheduled_keys h l).
    now apply in_map. }
  pose proof (scheduled_for h l (positions s) pid p Hnd Hget) as Hfor.
  rewrite (stop_loss_first h l pid p sl Hsl Hnz Hlow) in Hfor.
  assert (Hmine : map trade_summary
                    (filter (fun x => String.eqb (position_id x) pid) new)
                  = [(pid, STOP_LOSS, sl)]).
  { rewrite filter_map_summary, Hsum. exact Hfor. }
  destruct (filter (fun x => String.eqb (position_id x) pid) new)
    as [|t [|t' more]] eqn:E; try discriminate.
  simpl in Hmine. injection Hmine as _ Hkind Hprice.
  exists s', new, t. unfold _check_exit_orders.
  split; [exact Hrun|]. split; [exact Htrades|]. split; [exact E|].
  split; [exact Hprice|]. split; [exact Hkind|].
  apply Hgone. apply in_map_iff. exists (pid, STOP_LOSS, sl).
  split; [reflexivity|].
  assert (Hin : In (pid, STOP_LOSS, sl)
                  (filter (fun item => String.eqb (exit_key item) pid)
                     (flat_map (exit_trigger h l) (positions s)))).
  { rewrite Hfor. now left. }
  apply filter_In in Hin. tauto.
Qed.

End ExitOrders.

Lemma exit_priority_witness :
  exists s' new t,
    _check_exit_orders scenario_config 106 94 15 bracketed_btc = Ok s'
    /\ trades s' = trades bracketed_btc ++ new
    /\ filter (fun x => String.eqb (position_id x) (pos_id 1)) new = [t]
    /\ exit_price t = 95
    /\ trade_type t = STOP_LOSS
    /\ dict_get (pos_id 1) (positions s') = None.
Proof.
  apply (exit_priority scenario_config bracketed_btc (pos_id 1) bracket_position
           95 105 106 94 15%Z).
  - exists (init scenario_config).
    exists [ProcessSignal buy_bracket (flat_candle 10 100) 10%Z].
    vm_compute. reflexivity.
  - vm_compute. reflexivity.
  - reflexivity.
  - intro H. vm_compute in H. discriminate.
  - reflexivity.
  - lra.
  - lra.
Defined.

(** A position whose stop loss is set to 0 and whose take profit is set to
    105, at a candle with low 0 and high 110: both levels are touched, and
    the position closes at 105 as TAKE_PROFIT. *)
Lemma zero_stop_loss_yields_to_take_profit :
  exists s p s',
    exec_all scenario_config
      [ProcessSignal buy_zero_stop (flat_candle 10 100) 10%Z]
      (reset (init scenario_config)) = Ok s
    /\ dict_get (pos_id 1) (positions s) = Some p
    /\ stop_loss p = Some 0 /\ take_profit p = Some 105
    /\ 0 <= 0 /\ 105 <= 110
    /\ _check_exit_orders scenario_config 110 0 15 s = Ok s'
    /\ map trade_summary (trades s') = [(pos_id 1, TAKE_PROFIT, 105)].
Proof.
  eexists. eexists. eexists.
  split; [vm_compute; reflexivity|].
  split; [vm_compute; reflexivity|].
  split; [reflexivity|]. split; [reflexivity|].
  split; [lra|]. split; [lra|].
  split; vm_compute; reflexivity.
Qed.

(** ** The trailing stop only moves up *)

Section TrailingStop.
Variable config : BacktestConfig.

Lemma evolves_refl p : evolves p p.
Proof.
  unfold evolves. repeat split; auto. intros t Ht. exists t. split; [auto|lra].
Qed.

Lemma evolves_trans p q r : evolves p q -> evolves q r -> evolves p r.
Proof.
  unfold evolves.
  intros (A1 & A2 & A3 & A4 & A5 & A6 & A7 & A8 & A9)
         (B1 & B2 & B3 & B4 & B5 & B6 & B7 & B8 & B9).
  repeat split; try congruence.
  intros t Ht. destruct (A9 t Ht) as (t1 & Ht1 & Hle1).
  destruct (B9 t1 Ht1) as (t2 & Ht2 & Hle2). exists t2. split; [auto|lra].
Qed.

(** The new trailing level, and what the update stores. *)
Lemma update_one_trailing h l p :
  trailing_stop_enabled config = true -> side p = LONG ->
  let new_trailing :=
    Qmax (highest_price p) h * (1 - trailing_stop_percent config / 100) in
  trailing_stop (update_one config h l p) =
    Some match trailing_stop p with
         | None => new_trailing
         | Some t => if Qgtb new_trailing t then new_trailing else t
         end.
Proof.
  intros Hon Hside. unfold update_one. rewrite Hon. cbn. rewrite Hside.
  destruct (trailing_stop p) as [t|] eqn:Et; [|reflexivity].
  destruct (Qgtb _ t); cbn; [reflexivity|exact Et].
Qed.

Lemma update_one_evolves h l p : evolves p (update_one config h l p).
Proof.
  destruct (update_one_static config h l p) as (E1 & E2 & E3 & E4 & E5 & E6 & E7 & E8).
  unfold evolves. repeat split; auto.
  intros t Ht. unfold update_one.
  destruct (trailing_stop_enabled config); cbn.
  - destruct (side p); cbn; [|exists t; split; [auto|lra]].
    rewrite Ht.
    destruct (Qgtb _ t) eqn:E; cbn.
    + eexists. split; [reflexivity|]. apply Qgtb_true in E. lra.
    + exists t. split; [auto|lra].
  - exists t. split; [auto|lra].
Qed.

Lemma descends_refl s : descends s s.
Proof.
  split; [lia|]. intros k p' H. left. exists p'. split; [auto|apply evolves_refl].
Qed.

Lemma descends_trans a b c : descends a b -> descends b c -> descends a c.
Proof.
  intros [Hab Hb] [Hbc Hc]. split; [lia|].
  intros k p' H. destruct (Hc k p' H) as [(q & Hq & Hev) | (m & -> & Hm)].
  - destruct (Hb k q Hq) as [(p & Hp & Hev') | (m & -> & Hm)].
    + left. exists p. split; [auto|]. eapply evolves_trans; eauto.
    + right. exists m. split; [auto|lia].
  - right. exists m. split; [auto|lia].
Qed.

Lemma dict_get_remove_Some {V : Type} k key (d : dict V) v :
  NoDup (dict_keys d) -> dict_get k (dict_remove key d) = Some v ->
  dict_get k d = Some v.
Proof.
  intros Hnd H. destruct (String.eqb_spec k key) as [->|Hne].
  - rewrite dict_get_remove_same in H by assumption. discriminate.
  - now rewrite dict_get_remove_other in H by assumption.
Qed.

Lemma dict_get_map {V : Type} (f : V -> V) k (d : dict V) :
  dict_get k (map (fun kp => (fst kp, f (snd kp))) d) = option_map f (dict_get k d).
Proof.
  induction d as [|[k0 v0] r IH]; simpl; [reflexivity|].
  destruct (String.eqb k k0); auto.
Qed.

Lemma descends_settle key pid p price ts kind s s' :
  wf_state s -> settle config key pid p price ts kind s = Ok s' -> descends s s'.
Proof.
  intros [Hnd _] H.
  apply settle_Ok in H as (t & Hpos & _ & _ & _ & _ & _ & _ & _ & _ & _ & _ & Hc & _).
  split; [lia|]. intros k p' Hget. left. exists p'. split; [|apply evolves_refl].
  rewrite Hpos in Hget. eapply dict_get_remove_Some; eauto.
Qed.

Lemma descends_exec op s s' :
  wf_state s -> exec config op s = Ok s' -> descends s s'.
Proof.
  intros Hwf H. destruct op; simpl in H.
  - unfold _check_exit_orders in H.
    apply (close_scheduled_inv config (fun x => wf_state x /\ descends s x)
             (fun _ => True) ts) with (s' := s') (s := s)
             (todo := flat_map (exit_trigger h l) (positions s)).
    + intros s1 pid p price kind s2 [Hwf1 Hd1] _ _ Hc.
      split; [eapply wf_settle; eauto|].
      eapply descends_trans; [exact Hd1|]. eapply descends_settle; eauto.
    + apply Forall_forall. auto.
    + split; [exact Hwf|apply descends_refl].
    + exact H.
  - injection H as <-. split; [simpl; lia|].
    intros k p' Hget. simpl in Hget. rewrite dict_get_map in Hget.
    destruct (dict_get k (positions s)) as [p|]; [|discriminate].
    simpl in Hget. injection Hget as <-.
    left. exists p. split; [reflexivity|apply update_one_evolves].
  - unfold _process_signal in H.
    destruct (negb (is_actionable sg)); [injection H as <-; apply descends_refl|].
    assert (Hcl : forall kind, _close_position config sg candle ts kind s = Ok s' ->
                   descends s s').
    { intros kind Hc. unfold _close_position in Hc.
      destruct (find_by_symbol (sig_symbol sg) (positions s)) as [[pid p]|].
      - eapply descends_settle; eauto.
      - injection Hc as <-. apply descends_refl. }
    destruct (sig_type sg); eauto; try (injection H as <-; apply descends_refl).
    destruct (max_positions config <=? Z.of_nat (List.length (positions s)))%Z;
      [injection H as <-; apply descends_refl|].
    pose proof (next_id_fresh s Hwf) as Hfresh.
    apply open_position_Ok in H as [_ [[_ ->] | (_ & _ & Hpos & _ & _ & _ & _ & Hc & _)]];
      [apply descends_refl|].
    rewrite dict_set_fresh in Hpos by assumption.
    split; [lia|]. intros k p' Hget. rewrite Hpos, dict_get_app in Hget.
    destruct (dict_get k (positions s)) as [p|] eqn:E.
    + injection Hget as <-. left. exists p. split; [auto|apply evolves_refl].
    + right. simpl in Hget.
      destruct (String.eqb_spec k (pos_id (S (position_counter s)))) as [->|];
        [|discriminate].
      exists (S (position_counter s)). split; [reflexivity|lia].
  - injection H as <-. split; [simpl; lia|].
    intros k p' Hget. left. exists p'. split; [exact Hget|apply evolves_refl].
Qed.

Lemma descends_exec_all ops s s' :
  wf_state s -> exec_all config ops s = Ok s' -> descends s s'.
Proof.
  revert s. induction ops as [|op r IH]; simpl; intros s Hwf H.
  - injection H as <-. apply descends_refl.
  - apply bind_Ok in H as (s1 & H1 & H2).
    eapply descends_trans; [eapply descends_exec; eauto|].
    apply IH; [eapply wf_exec; eauto|exact H2].
Qed.

(** C8: a position that is open before and after any number of
    consecutive candles of a run keeps or raises its stored trailing stop;
    and with the global trailing stop enabled, the price update of a LONG
    position recomputes the level as highest_price * (1 - percent / 100)
    and stores it only where none is stored or the new level is higher. *)
Theorem trailing_stop_ratchet s steps s' pid p p' :
  reachable config s ->
  run_candles config steps s = Ok s' ->
  dict_get pid (positions s) = Some p ->
  dict_get pid (positions s') = Some p' ->
  (forall t, trailing_stop p = Some t ->
     exists t', trailing_stop p' = Some t' /\ t <= t')
  /\ (forall h l q,
        trailing_stop_enabled config = true -> side q = LONG ->
        let new_trailing :=
          Qmax (highest_price q) h * (1 - trailing_stop_percent config / 100) in
        trailing_stop (update_one config h l q) =
          Some match trailing_stop q with
               | None => new_trailing
               | Some t => if Qgtb new_trailing t then new_trailing else t
               end).
Proof.
  intros Hr Hrun Hp Hp'. split; [|intros h l q; apply update_one_trailing].
  pose proof (reachable_wf config s Hr) as Hwf.
  rewrite run_candles_trace in Hrun.
  destruct (descends_exec_all _ s s' Hwf Hrun) as [_ Hd].
  destruct (Hd pid p' Hp') as [(q & Hq & Hev) | (m & E & Hm)].
  - rewrite Hp in Hq. injection Hq as <-. apply Hev.
  - exfalso. destruct (wf_get s pid p Hwf Hp) as (_ & _ & _ & Hin).
    destruct (wf_keys_bounded s pid Hwf Hin) as (n & E' & Hn).
    rewrite E in E'. apply pos_id_inj in E'. lia.
Qed.

End TrailingStop.

Lemma trailing_stop_ratchet_witness :
  (forall t, trailing_stop trailing_position_before = Some t ->
     exists t', trailing_stop trailing_position_after = Some t' /\ t <= t')
  /\ (forall h l q,
        trailing_stop_enabled trailing_config = true -> side q = LONG ->
        let new_trailing :=
          Qmax (highest_price q) h * (1 - trailing_stop_percent trailing_config / 100) in
        trailing_stop (update_one trailing_config h l q) =
          Some match trailing_stop q with
               | None => new_trailing
               | Some t => if Qgtb new_trailing t then new_trailing else t
               end).
Proof.
  apply (trailing_stop_ratchet trailing_config trailing_before
           [(flat_candle 20 110, [])] trailing_after (pos_id 1)
           trailing_position_before trailing_position_after).
  - exists (init trailing_config), trailing_ops. vm_compute. reflexivity.
  - vm_compute. reflexivity.
  - vm_compute. reflexivity.
  - vm_compute. reflexivity.
Defined.

(** * Further properties of the engine *)

(** ** A case principle for ledger operations *)

Section LedgerCases.
Variable config : BacktestConfig.

(** Everything a successful [settle] says about the new state and the trade
    it records. *)
Lemma settle_record key pid p price ts kind s s' :
  settle config key pid p price ts kind s = Ok s' ->
  exists t,
    trades s' = trades s ++ [t]
    /\ trade_id t = trade_name (S (trade_counter s))
    /\ position_id t = pid
    /\ trade_symbol t = symbol p
    /\ trade_entry_price t = entry_price p
    /\ trade_size t = size p
    /\ exit_price t = price
    /\ trade_type t = kind
    /\ pnl t = calculate_pnl p price - price * size p * commission config
    /\ trade_commission t = price * size p * commission config
    /\ positions s' = dict_remove key (positions s)
    /\ cash s' = cash s + (price * size p - price * size p * commission config)
    /\ position_counter s' = position_counter s
    /\ trade_counter s' = S (trade_counter s)
    /\ self_initial_capital s' = self_initial_capital s
    /\ exit_time t = ts.
Proof.
  unfold settle. intro H.
  apply bind_Ok in H as (pct & _ & H).
  apply bind_Ok in H as (ps & Hdel & H).
  apply dict_del_Ok in Hdel as [-> Hin].
  injection H as <-. simpl.
  eexists. repeat split; reflexivity.
Qed.

(** A relation between states that holds across the primitive updates holds
    across every operation. *)
Lemma exec_cases (R : Engine -> Engine -> Prop) :
  (forall s, R s s) ->
  (forall a b c, R a b -> R b c -> R a c) ->
  (forall s k p price ts kind s',
      wf_state s -> In (k, p) (positions s) ->
      settle config k k p price ts kind s = Ok s' -> R s s') ->
  (forall s sg candle ts s',
      wf_state s -> _open_position config sg candle ts s = Ok s' -> R s s') ->
  (forall s h l, wf_state s -> R s (_update_position_prices config h l s)) ->
  (forall s ts c, wf_state s -> R s (_record_equity ts c s)) ->
  forall op s s', wf_state s -> exec config op s = Ok s' -> R s s'.
Proof.
  intros Hrefl Htrans Hsettle Hopen Hupd Hrec op s s' Hwf H.
  destruct op as [h l ts|h l|sg candle ts|ts c]; simpl in H.
  - unfold _check_exit_orders in H.
    apply (close_scheduled_inv config (fun x => wf_state x /\ R s x)
             (fun _ => True) ts) with (s' := s') (s := s)
             (todo := flat_map (exit_trigger h l) (positions s)).
    + intros s1 pid p price kind s2 [Hwf1 HR] _ Hget Hc.
      split; [eapply wf_settle; eauto|].
      eapply Htrans; [exact HR|].
      destruct (wf_get s1 pid p Hwf1 Hget) as (Hid & _).
      unfold _close_position_at_price in Hc. rewrite Hid in Hc.
      eapply Hsettle; [exact Hwf1| |exact Hc].
      now apply dict_get_In.
    + apply Forall_forall. auto.
    + split; [exact Hwf|apply Hrefl].
    + exact H.
  - injection H as <-. now apply Hupd.
  - unfold _process_signal in H.
    destruct (negb (is_actionable sg)); [injection H as <-; apply Hrefl|].
    assert (Hcl : forall kind,
      _close_position config sg candle ts kind s = Ok s' -> R s s').
    { intros kind Hc. unfold _close_position in Hc.
      destruct (find_by_symbol (sig_symbol sg) (positions s)) as [[pid p]|] eqn:E.
      - apply find_by_symbol_In in E as [Hin _]. eapply Hsettle; eauto.
      - injection Hc as <-. apply Hrefl. }
    destruct (sig_type sg); eauto; try (injection H as <-; apply Hrefl).
    destruct (max_positions config <=? Z.of_nat (List.length (positions s)))%Z;
      [injection H as <-; apply Hrefl|].
    eapply Hopen; eauto.
  - injection H as <-. now apply Hrec.
Qed.

Lemma exec_all_cases (R : Engine -> Engine -> Prop) :
  (forall s, R s s) ->
  (forall a b c, R a b -> R b c -> R a c) ->
  (forall op s s', wf_state s -> exec config op s = Ok s' -> R s s') ->
  forall ops s s', wf_state s -> exec_all config ops s = Ok s' -> R s s'.
Proof.
  intros Hrefl Htrans Hstep.
  induction ops as [|op r IH]; simpl; intros s s' Hwf H.
  - injection H as <-. apply Hrefl.
  - apply bind_Ok in H as (s1 & H1 & H2).
    eapply Htrans; [eapply Hstep; eauto|].
    apply IH; [eapply wf_exec; eauto|exact H2].
Qed.

(** An invariant kept by the primitive updates holds at every reachable
    state. *)
Lemma reachable_ind (I : Engine -> Prop) :
  (forall s0, I (reset s0)) ->
  (forall s k p price ts kind s',
      wf_state s -> In (k, p) (positions s) -> I s ->
      settle config k k p price ts kind s = Ok s' -> I s') ->
  (forall s sg candle ts s',
      wf_state s -> I s -> _open_position config sg candle ts s = Ok s' -> I s') ->
  (forall s h l, wf_state s -> I s -> I (_update_position_prices config h l s)) ->
  (forall s ts c, wf_state s -> I s -> I (_record_equity ts c s)) ->
  forall s, reachable config s -> I s.
Proof.
  intros Hreset Hsettle Hopen Hupd Hrec s (s0 & ops & H).
  apply (exec_all_cases (fun a b => I a -> I b)) with (ops := ops) (s := reset s0);
    auto using wf_reset.
  intros op a b Hwf Hab.
  apply (exec_cases (fun a b => I a -> I b)) with (op := op); eauto.
Qed.

End LedgerCases.

(** ** The accounting identity *)






Section Accounting.
Variable config : BacktestConfig.





End Accounting.


(** ** Position ids and trade numbers *)

Lemma NoDup_move_key {V : Type} k (d : dict V) (ids : list string) :
  NoDup (dict_keys d ++ ids) -> In k (dict_keys d) ->
  NoDup (dict_keys (dict_remove k d) ++ ids ++ [k]).
Proof.
  induction d as [|[k0 v0] r IH]; simpl; intros Hnd Hin; [contradiction|].
  inversion Hnd as [|? ? Hnotin Hnd']; subst.
  destruct (String.eqb_spec k k0) as [->|Hne].
  - rewrite app_assoc. now apply NoDup_snoc.
  - simpl. constructor.
    + rewrite !in_app_iff in *. simpl. intros [H|[H|[H|[]]]].
      * apply Hnotin. left. eapply dict_remove_keys_incl. exact H.
      * apply Hnotin. now right.
      * congruence.
    + apply IH; [exact Hnd'|]. destruct Hin as [E|Hin]; [congruence|exact Hin].
Qed.

Lemma NoDup_insert_middle {A : Type} (a b : list A) (x : A) :
  NoDup (a ++ b) -> ~ In x a -> ~ In x b -> NoDup ((a ++ [x]) ++ b).
Proof.
  induction a as [|y r IH]; simpl; intros Hnd Ha Hb.
  - constructor; assumption.
  - inversion Hnd as [|? ? Hnotin Hnd']; subst. constructor.
    + rewrite !in_app_iff in *. simpl. intros [[H|[H|[]]]|H]; intuition.
    + apply IH; intuition.
Qed.

Lemma dict_remove_length_In {V : Type} k (d : dict V) :
  In k (dict_keys d) -> List.length d = S (List.length (dict_remove k d)).
Proof.
  induction d as [|[k0 v0] r IH]; simpl; [contradiction|].
  destruct (String.eqb_spec k k0) as [->|Hne]; [reflexivity|].
  intros [E|Hin]; [congruence|]. simpl. now rewrite (IH Hin).
Qed.

Section Identifiers.
Variable config : BacktestConfig.

Lemma ids_accounted_settle s k p price ts kind s' :
  wf_state s -> In (k, p) (positions s) -> ids_accounted s ->
  settle config k k p price ts kind s = Ok s' -> ids_accounted s'.
Proof.
  intros Hwf Hin (Hnd & Hb & Hcount) H.
  assert (Hk : In k (dict_keys (positions s))).
  { change k with (fst (k, p)). now apply in_map. }
  apply settle_record in H
    as (t & Htr & _ & Hpid & _ & _ & _ & _ & _ & _ & _ & Hpos & _ & Hpc & _).
  unfold ids_accounted, settled_ids in *.
  rewrite Htr, Hpos, Hpc, map_app. simpl map. rewrite Hpid.
  split; [now apply NoDup_move_key|]. split.
  - apply Forall_app. split; [exact Hb|]. constructor; [|constructor].
    now apply wf_keys_bounded.
  - rewrite length_app. simpl.
    rewrite (dict_remove_length_In k (positions s) Hk) in Hcount. lia.
Qed.

Lemma ids_accounted_open s sg candle ts s' :
  wf_state s -> ids_accounted s ->
  _open_position config sg candle ts s = Ok s' -> ids_accounted s'.
Proof.
  intros Hwf (Hnd & Hb & Hcount) H. pose proof (next_id_fresh s Hwf) as Hfresh.
  apply open_position_Ok in H
    as [_ [[_ ->] | (_ & _ & Hpos & Htr & _ & _ & _ & Hpc & _)]];
    [repeat split; assumption|].
  rewrite dict_set_fresh in Hpos by assumption.
  unfold ids_accounted, settled_ids in *. rewrite Hpos, Htr, Hpc.
  split; [|split].
  - unfold dict_keys. rewrite map_app. simpl map.
    apply NoDup_insert_middle; [exact Hnd|exact Hfresh|].
    intro Hin. rewrite Forall_forall in Hb.
    destruct (Hb _ Hin) as (n & E & Hle). apply pos_id_inj in E. lia.
  - eapply Forall_impl; [|exact Hb]. intros k (n & E & Hle).
    exists n. split; [exact E|lia].
  - rewrite length_app. simpl. lia.
Qed.

Lemma reachable_ids_accounted s : reachable config s -> ids_accounted s.
Proof.
  apply (reachable_ind config ids_accounted).
  - intro s0. unfold ids_accounted, settled_ids. simpl.
    repeat split; constructor.
  - intros. eapply ids_accounted_settle; eauto.
  - intros. eapply ids_accounted_open; eauto.
  - intros a h l _ (Hnd & Hb & Hc). unfold ids_accounted, settled_ids in *.
    simpl trades. simpl position_counter. rewrite update_keys.
    simpl positions. rewrite length_map. auto.
  - intros a ts c _ H. exact H.
Qed.

(** X2: at every state of a run, the ids of the open positions and the
    position ids of the recorded trades are pairwise distinct, and the
    number of ids handed out is the number of open positions plus the
    number of trades: a position opened is either still open or was closed
    by exactly one trade. *)
Theorem every_position_closed_once s :
  reachable config s ->
  NoDup (dict_keys (positions s) ++ map position_id (trades s))
  /\ position_counter s
     = (List.length (positions s) + List.length (trades s))%nat.
Proof.
  intro Hr. destruct (reachable_ids_accounted s Hr) as (H1 & _ & H3). auto.
Qed.

Lemma trades_numbered_settle s k p price ts kind s' :
  trades_numbered s ->
  settle config k k p price ts kind s = Ok s' -> trades_numbered s'.
Proof.
  intros [Hc Hids] H.
  apply settle_record in H
    as (t & Htr & Hid & _ & _ & _ & _ & _ & _ & _ & _ & _ & _ & _ & Htc & _).
  unfold trades_numbered. rewrite Htr, Htc, length_app. simpl.
  split; [lia|].
  rewrite map_app, Hids. simpl map.
  replace (List.length (trades s) + 1)%nat with (S (List.length (trades s))) by lia.
  rewrite seq_S, map_app. simpl. rewrite Hid, Hc. reflexivity.
Qed.

Lemma reachable_trades_numbered s : reachable config s -> trades_numbered s.
Proof.
  apply (reachable_ind config trades_numbered).
  - intro s0. split; reflexivity.
  - intros. eapply trades_numbered_settle; eauto.
  - intros a sg candle ts b _ Hn H.
    apply open_position_Ok in H
      as [_ [[_ ->] | (_ & _ & _ & Htr & _ & _ & _ & _ & Htc)]]; [exact Hn|].
    unfold trades_numbered. now rewrite Htr, Htc.
  - intros a h l _ H. exact H.
  - intros a ts c _ H. exact H.
Qed.

(** X3: the trade list is append-only along a run, and at every state the
    trades carry the ids trade_1, trade_2, ... in the order recorded, the
    trade counter being their number. *)
Theorem trades_append_only s ops s' :
  reachable config s ->
  exec_all config ops s = Ok s' ->
  (exists new, trades s' = trades s ++ new)
  /\ trade_counter s' = List.length (trades s')
  /\ map trade_id (trades s') = map trade_name (seq 1 (List.length (trades s'))).
Proof.
  intros Hr Hrun. split.
  - apply (exec_all_cases config (fun a b => exists new, trades b = trades a ++ new))
      with (ops := ops); [| | |now apply (reachable_wf config)|exact Hrun].
    + intro a. exists []. now rewrite app_nil_r.
    + intros a b c [n1 H1] [n2 H2]. exists (n1 ++ n2).
      now rewrite H2, H1, app_assoc.
    + intros op a b Hwf Hab.
      apply (exec_cases config (fun a b => exists new, trades b = trades a ++ new))
        with (op := op); auto.
      * intro x. exists []. now rewrite app_nil_r.
      * intros x y z [n1 H1] [n2 H2]. exists (n1 ++ n2).
        now rewrite H2, H1, app_assoc.
      * intros x k p price ts kind y _ _ H.
        apply settle_record in H as (t & Htr & _). now exists [t].
      * intros x sg candle ts y _ H.
        apply open_position_Ok in H as [_ [[_ ->] | (_ & _ & _ & Htr & _)]];
          exists []; now rewrite app_nil_r.
      * intros x h l _. exists []. now rewrite app_nil_r.
      * intros x ts c _. exists []. now rewrite app_nil_r.
  - apply reachable_trades_numbered.
    destruct Hr as (s0 & ops0 & H0). exists s0, (ops0 ++ ops).
    rewrite exec_all_app, H0. exact Hrun.
Qed.

End Identifiers.

Lemma every_position_closed_once_witness :
  NoDup (dict_keys (positions round_trip_state)
           ++ map position_id (trades round_trip_state))
  /\ position_counter round_trip_state
     = (List.length (positions round_trip_state)
        + List.length (trades round_trip_state))%nat.
Proof.
  apply (every_position_closed_once (default_config 0 1000) round_trip_state).
  exists (init (default_config 0 1000)), round_trip_ops.
  vm_compute. reflexivity.
Defined.

Lemma trades_append_only_witness :
  (exists new, trades round_trip_state = trades entered_state ++ new)
  /\ trade_counter round_trip_state = List.length (trades round_trip_state)
  /\ map trade_id (trades round_trip_state)
     = map trade_name (seq 1 (List.length (trades round_trip_state))).
Proof.
  apply (trades_append_only (default_config 0 1000) entered_state
           (tl round_trip_ops) round_trip_state).
  - exists (init (default_config 0 1000)).
    exists [ProcessSignal buy_btc (flat_candle 10 100) 10%Z].
    vm_compute. reflexivity.
  - vm_compute. reflexivity.
Defined.

(** ** Price trackers and the trailing stop of open positions *)

Section Trackers.
Variable config : BacktestConfig.

Lemma update_one_highest h l p :
  highest_price (update_one config h l p) = Qmax (highest_price p) h.
Proof.
  unfold update_one. cbn.
  destruct (trailing_stop_enabled config); [|reflexivity].
  destruct (side p); [|reflexivity].
  destruct (trailing_stop p) as [t|]; [|reflexivity].
  match goal with |- context [if ?b then _ else _] => destruct b end; reflexivity.
Qed.

Lemma update_one_lowest h l p :
  lowest_price (update_one config h l p) = Qmin (lowest_price p) l.
Proof.
  unfold update_one. cbn.
  destruct (trailing_stop_enabled config); [|reflexivity].
  destruct (side p); [|reflexivity].
  destruct (trailing_stop p) as [t|]; [|reflexivity].
  match goal with |- context [if ?b then _ else _] => destruct b end; reflexivity.
Qed.

Lemma update_one_trailing_off h l p :
  trailing_stop_enabled config = false ->
  trailing_stop (update_one config h l p) = trailing_stop p.
Proof. intro H. unfold update_one. rewrite H. reflexivity. Qed.

Lemma tracked_update h l p :
  side p = LONG -> tracked config p -> tracked config (update_one config h l p).
Proof.
  intros Hside ([Hlo Hhi] & Hoff & Hfol).
  destruct (update_one_static config h l p) as (_ & _ & _ & E4 & _).
  split; [|split].
  - unfold trackers_bracket.
    rewrite update_one_highest, update_one_lowest, E4. split.
    + eapply Qle_trans; [apply Q.le_min_l|exact Hlo].
    + eapply Qle_trans; [exact Hhi|apply Q.le_max_l].
  - intro Hflag. rewrite update_one_trailing_off by assumption. auto.
  - intros Hpct t Ht. rewrite update_one_highest.
    destruct (trailing_stop_enabled config) eqn:Hflag.
    + rewrite (update_one_trailing config h l p Hflag Hside) in Ht.
      injection Ht as Ht.
      destruct (trailing_stop p) as [t0|] eqn:E0; [|rewrite <- Ht; reflexivity].
      destruct (Qgtb _ t0) eqn:Eg; [rewrite <- Ht; reflexivity|].
      subst t0. apply Qgtb_false in Eg.
      specialize (Hfol Hpct t E0).
      set (k := 1 - trailing_stop_percent config / 100) in *.
      assert (Hk : 0 <= k).
      { assert (trailing_stop_percent config / 100 <= 1)
          by (apply Qle_shift_div_r; lra).
        unfold k. lra. }
      assert (Hmono : highest_price p * k <= Qmax (highest_price p) h * k).
      { apply Qmult_le_compat_r; [apply Q.le_max_l|exact Hk]. }
      lra.
    + rewrite update_one_trailing_off in Ht by exact Hflag.
      rewrite (Hoff eq_refl) in Ht. discriminate.
Qed.

Lemma reachable_tracked s :
  reachable config s -> Forall (fun kp => tracked config (snd kp)) (positions s).
Proof.
  apply (reachable_ind config
           (fun s => Forall (fun kp => tracked config (snd kp)) (positions s))).
  - intro s0. constructor.
  - intros a k p price ts kind b _ _ Ha H.
    apply settle_record in H
      as (t & _ & _ & _ & _ & _ & _ & _ & _ & _ & _ & Hpos & _).
    rewrite Hpos. now apply dict_remove_Forall.
  - intros a sg candle ts b _ Ha H.
    apply open_position_Ok in H as [_ [[_ ->] | (_ & _ & Hpos & _)]];
      [exact Ha|].
    rewrite Hpos. apply Forall_forall. intros x Hx.
    apply dict_set_In in Hx as [Hx | ->].
    + rewrite Forall_forall in Ha. auto.
    + simpl. split; [|split].
      * unfold trackers_bracket. simpl. split; apply Qle_refl.
      * reflexivity.
      * intros _ t Ht. discriminate.
  - intros a h l [_ Hwf] Ha. simpl. apply Forall_map.
    rewrite Forall_forall in *. intros [k p] Hin. simpl.
    apply tracked_update; [|exact (Ha _ Hin)].
    destruct (Hwf _ Hin) as (_ & _ & _ & Hside). exact Hside.
  - intros a ts c _ Ha. exact Ha.
Qed.

(** X4: at every state of a run, every open position has
    lowest_price <= entry_price <= highest_price. *)
Theorem trackers_bracket_entry s k p :
  reachable config s ->
  dict_get k (positions s) = Some p ->
  lowest_price p <= entry_price p /\ entry_price p <= highest_price p.
Proof.
  intros Hr Hget. pose proof (reachable_tracked s Hr) as Hall.
  rewrite Forall_forall in Hall. apply dict_get_In in Hget.
  destruct (Hall _ Hget) as (H & _). exact H.
Qed.

(** X5: with the global trailing stop disabled no open position ever has a
    trailing stop; with a trailing percentage of at most 100, a stored
    trailing stop is always highest_price * (1 - percent / 100) of the
    position's current highest price. *)
Theorem trailing_stop_tracks_highest s k p :
  reachable config s ->
  dict_get k (positions s) = Some p ->
  (trailing_stop_enabled config = false -> trailing_stop p = None)
  /\ (trailing_stop_percent config <= 100 ->
      forall t, trailing_stop p = Some t ->
        t == highest_price p * (1 - trailing_stop_percent config / 100)).
Proof.
  intros Hr Hget. pose proof (reachable_tracked s Hr) as Hall.
  rewrite Forall_forall in Hall. apply dict_get_In in Hget.
  destruct (Hall _ Hget) as (_ & H1 & H2). split; assumption.
Qed.

End Trackers.

Lemma trackers_bracket_entry_witness :
  lowest_price round_trip_position <= entry_price round_trip_position
  /\ entry_price round_trip_position <= highest_price round_trip_position.
Proof.
  apply (trackers_bracket_entry (default_config 0 1000) round_trip_state
           (pos_id 2) round_trip_position).
  - exists (init (default_config 0 1000)), round_trip_ops.
    vm_compute. reflexivity.
  - vm_compute. reflexivity.
Defined.

Lemma trailing_stop_tracks_highest_witness :
  (trailing_stop_enabled trailing_config = false ->
   trailing_stop trailing_position_after = None)
  /\ (trailing_stop_percent trailing_config <= 100 ->
      forall t, trailing_stop trailing_position_after = Some t ->
        t == highest_price trailing_position_after
             * (1 - trailing_stop_percent trailing_config / 100)).
Proof.
  apply (trailing_stop_tracks_highest trailing_config trailing_after
           (pos_id 1) trailing_position_after).
  - exists (init trailing_config).
    exists (trailing_ops ++ candle_ops (flat_candle 20 110) []).
    vm_compute. reflexivity.
  - vm_compute. reflexivity.
Defined.

(** ** Recorded equity points *)

Section EquityPoints.
Variable config : BacktestConfig.







End EquityPoints.


(** ** The candles a run visits *)

Section Visits.
Variable config : BacktestConfig.

Lemma same_curve_signals sgs candle ts s s' :
  process_signals config sgs candle ts s = Ok s' -> same_curve s s'.
Proof.
  revert s. induction sgs as [|sg r IH]; simpl; intros s H.
  - injection H as <-. apply same_curve_refl.
  - apply bind_Ok in H as (s1 & H1 & H2).
    eapply same_curve_trans; [|apply IH; exact H2].
    apply (same_curve_exec config (ProcessSignal sg candle ts));
      [intros; discriminate|exact H1].
Qed.

(** One pass of the loop body appends exactly one equity point, stamped
    with the candle's timestamp. *)
Lemma candle_step_curve candle sgs s s' :
  candle_step config candle sgs s = Ok s' ->
  exists pt, equity_curve s' = equity_curve s ++ [pt]
    /\ eq_timestamp pt = timestamp candle.
Proof.
  unfold candle_step. intro H.
  apply bind_Ok in H as (s1 & H1 & H).
  apply bind_Ok in H as (s3 & H3 & H). injection H as <-.
  apply (same_curve_exec config (CheckExits (high candle) (low candle) (timestamp candle)))
    in H1 as (E1 & _); [|intros; discriminate].
  apply same_curve_signals in H3 as (E3 & _). simpl in E3.
  eexists. split; [simpl; rewrite E3, E1; reflexivity|reflexivity].
Qed.

Lemma run_indices_curve strategy d idxs s s' :
  run_indices config strategy d idxs s = Ok s' ->
  exists cs,
    map (nth_error (rows d)) idxs = map Some cs
    /\ map eq_timestamp (equity_curve s')
       = map eq_timestamp (equity_curve s) ++ map timestamp cs.
Proof.
  revert s. induction idxs as [|i r IH]; simpl; intros s H.
  - injection H as <-. exists []. simpl. now rewrite app_nil_r.
  - apply bind_Ok in H as (s1 & H1 & H2).
    destruct (IH _ H2) as (cs & Hcs & Hts).
    unfold loop_body in H1.
    destruct (nth_error (rows d) i) as [c|]; [|discriminate].
    destruct (dict_keys (data_sources strategy)) as [|key ks]; [discriminate|].
    apply candle_step_curve in H1 as (pt & Hpt & Hstamp).
    exists (c :: cs). simpl. rewrite Hcs. split; [reflexivity|].
    rewrite Hts, Hpt, map_app, <- app_assoc. simpl. now rewrite Hstamp.
Qed.

Lemma nth_error_seq_skipn {A : Type} (l : list A) (a : nat) :
  map (nth_error l) (seq a (List.length l - a)) = map Some (skipn a l).
Proof.
  revert a. induction l as [|x r IH]; intro a.
  - simpl. now destruct a.
  - destruct a as [|a'].
    + simpl. f_equal. rewrite <- seq_shift, map_map. simpl.
      specialize (IH 0%nat). rewrite Nat.sub_0_r in IH. simpl in IH. exact IH.
    + simpl List.length. simpl skipn.
      replace (S (List.length r) - S a')%nat with (List.length r - a')%nat by lia.
      rewrite <- seq_shift, map_map. simpl. apply IH.
Qed.

Lemma map_Some_inj {A : Type} (xs ys : list A) :
  map Some xs = map Some ys -> xs = ys.
Proof.
  revert ys. induction xs as [|x r IH]; intros [|y s] H; simpl in H;
    try discriminate; [reflexivity|].
  injection H as -> H. f_equal. auto.
Qed.

(** X7: a run that completes records one equity point for each candle of
    the date-filtered series from index max(50, number of columns) on, in
    order, each stamped with its candle's timestamp. *)
Theorem one_point_per_candle_after_warm_up strategy s0 r key src rest d :
  data_sources strategy = (key, src) :: rest ->
  data src = Some d ->
  run config strategy s0 = Ok r ->
  map eq_timestamp (res_equity_curve r)
  = map timestamp
      (skipn (warm_up (_filter_data_by_date config d))
         (rows (_filter_data_by_date config d))).
Proof.
  intros Hsrc Hd Hrun. unfold run in Hrun. rewrite Hsrc in Hrun. simpl in Hrun.
  rewrite Hd in Hrun.
  destruct (List.length (rows d) =? 0)%nat; [discriminate|].
  apply bind_Ok in Hrun as (s & Hloop & H). injection H as <-. simpl.
  unfold _run_event_driven in Hloop.
  apply run_indices_curve in Hloop as (cs & Hcs & Hts).
  rewrite nth_error_seq_skipn in Hcs. apply map_Some_inj in Hcs.
  rewrite Hts, Hcs. reflexivity.
Qed.

(** X8: when the date-filtered series has no more rows than the warm-up
    index max(50, number of columns), a run over non-empty data visits no
    candle: it raises nothing and returns no trades, no equity points and
    the default metrics. *)
Theorem short_series_gives_empty_result strategy s0 key src rest d :
  data_sources strategy = (key, src) :: rest ->
  data src = Some d ->
  rows d <> [] ->
  (List.length (rows (_filter_data_by_date config d))
     <= warm_up (_filter_data_by_date config d))%nat ->
  run config strategy s0 = Ok (empty_result config).
Proof.
  intros Hsrc Hd Hrows Hshort. unfold run. rewrite Hsrc. simpl. rewrite Hd.
  destruct (rows d) eqn:E; [contradiction|]. simpl List.length. simpl Nat.eqb.
  rewrite <- E in *. unfold _run_event_driven.
  replace (List.length (rows (_filter_data_by_date config d))
           - warm_up (_filter_data_by_date config d))%nat with 0%nat by lia.
  reflexivity.
Qed.

End Visits.

Lemma one_point_per_candle_after_warm_up_witness :
  map eq_timestamp (res_equity_curve holder_result)
  = map timestamp
      (skipn (warm_up (_filter_data_by_date (default_config 0 1000) (flat_frame 60 100)))
         (rows (_filter_data_by_date (default_config 0 1000) (flat_frame 60 100)))).
Proof.
  apply (one_point_per_candle_after_warm_up (default_config 0 1000) holder
           (init (default_config 0 1000)) holder_result
           "primary"%string {| data := Some (flat_frame 60 100) |} []
           (flat_frame 60 100)).
  - reflexivity.
  - reflexivity.
  - vm_compute. reflexivity.
Defined.

Lemma short_series_gives_empty_result_witness :
  run (default_config 0 1000)
    (constant_strategy (Some (flat_frame 50 100)) [buy_btc])
    (init (default_config 0 1000))
  = Ok (empty_result (default_config 0 1000)).
Proof.
  apply (short_series_gives_empty_result (default_config 0 1000)
           (constant_strategy (Some (flat_frame 50 100)) [buy_btc])
           (init (default_config 0 1000))
           "primary"%string {| data := Some (flat_frame 50 100) |} []
           (flat_frame 50 100)).
  - reflexivity.
  - reflexivity.
  - intro H. vm_compute in H. discriminate.
  - vm_compute. lia.
Defined.

(** ** Runs of a strategy that never acts *)

Section Passive.
Variable config : BacktestConfig.

Lemma process_passive sgs candle ts s :
  Forall (fun sg => is_actionable sg = false) sgs ->
  process_signals config sgs candle ts s = Ok s.
Proof.
  induction 1 as [|sg r Hsg _ IH]; simpl; [reflexivity|].
  unfold _process_signal. rewrite Hsg. simpl. exact IH.
Qed.

Lemma untouched_step candle sgs s :
  untouched s ->
  Forall (fun sg => is_actionable sg = false) sgs ->
  exists s', candle_step config candle sgs s = Ok s'
    /\ untouched s'
    /\ self_initial_capital s' = self_initial_capital s.
Proof.
  intros (Hpos & Htr & Hcash & Hpeak & Hcurve) Hsgs.
  unfold candle_step, _check_exit_orders. rewrite Hpos. cbn [flat_map close_scheduled bind].
  rewrite process_passive by assumption. cbn [bind].
  eexists. split; [reflexivity|]. split; [|reflexivity].
  unfold untouched. cbn. rewrite Hpos. cbn.
  assert (Hsum : fsum [] == 0) by reflexivity.
  assert (Hmax : Qmax (peak_equity s) (cash s + fsum [])
                 == self_initial_capital s).
  { rewrite Q.max_l; [exact Hpeak|]. rewrite Hcash. lra. }
  split; [reflexivity|]. split; [exact Htr|]. split; [exact Hcash|].
  split; [exact Hmax|].
  apply Forall_app. split; [exact Hcurve|].
  constructor; [|constructor]. cbn. rewrite Hmax, Hcash. split; lra.
Qed.

Lemma untouched_run strategy d idxs s :
  passive strategy ->
  dict_keys (data_sources strategy) <> [] ->
  Forall (fun i => (i < List.length (rows d))%nat) idxs ->
  untouched s ->
  exists s', run_indices config strategy d idxs s = Ok s'
    /\ untouched s'
    /\ self_initial_capital s' = self_initial_capital s.
Proof.
  intros Hpassive Hkeys. revert s.
  induction idxs as [|i r IH]; simpl; intros s Hall Hs.
  - eauto.
  - inversion Hall as [|? ? Hi Hrest]; subst.
    unfold loop_body.
    destruct (nth_error (rows d) i) as [c|] eqn:E;
      [|apply nth_error_None in E; lia].
    destruct (dict_keys (data_sources strategy)) as [|key ks]; [contradiction|].
    destruct (untouched_step c (generate_signals strategy [(key, window d i)]) s Hs)
      as (s1 & H1 & Hs1 & Hcap1); [apply Hpassive|].
    rewrite H1. cbn [bind].
    destruct (IH s1 Hrest Hs1) as (s' & H' & Hs' & Hcap').
    exists s'. split; [exact H'|]. split; [exact Hs'|congruence].
Qed.

(** X9: a strategy none of whose signals is ever actionable, run over
    non-empty data, completes with no trades and the default metrics, and
    every equity point it records shows the initial capital and a drawdown
    of zero. *)
Theorem passive_strategy_keeps_capital strategy s0 key src rest d :
  passive strategy ->
  data_sources strategy = (key, src) :: rest ->
  data src = Some d ->
  rows d <> [] ->
  exists r,
    run config strategy s0 = Ok r
    /\ res_trades r = []
    /\ res_metrics r = Some default_metrics
    /\ Forall (fun pt => equity pt == self_initial_capital s0 /\ drawdown pt == 0)
         (res_equity_curve r).
Proof.
  intros Hpassive Hsrc Hd Hrows. unfold run. rewrite Hsrc. simpl. rewrite Hd.
  destruct (rows d) eqn:E; [contradiction|]. simpl List.length. simpl Nat.eqb.
  rewrite <- E in *. unfold _run_event_driven.
  set (d' := _filter_data_by_date config d).
  destruct (untouched_run strategy d'
              (seq (warm_up d') (List.length (rows d') - warm_up d')) (reset s0))
    as (s & Hrun & (Hpos & Htr & Hcash & Hpeak & Hcurve) & Hcap).
  - exact Hpassive.
  - rewrite Hsrc. discriminate.
  - apply Forall_forall. intros i Hi. apply in_seq in Hi. lia.
  - unfold untouched. simpl. repeat split; try reflexivity. constructor.
  - rewrite Hrun. cbn [bind]. eexists. split; [reflexivity|]. simpl.
    split; [exact Htr|]. split.
    + unfold _calculate_metrics. now rewrite Htr.
    + simpl in Hcap. rewrite <- Hcap. exact Hcurve.
Qed.

End Passive.

Lemma passive_strategy_keeps_capital_witness :
  exists r,
    run (default_config 0 1000) holder (init (default_config 0 1000)) = Ok r
    /\ res_trades r = []
    /\ res_metrics r = Some default_metrics
    /\ Forall (fun pt => equity pt == self_initial_capital (init (default_config 0 1000))
                         /\ drawdown pt == 0)
         (res_equity_curve r).
Proof.
  apply (passive_strategy_keeps_capital (default_config 0 1000) holder
           (init (default_config 0 1000))
           "primary"%string {| data := Some (flat_frame 60 100) |} []
           (flat_frame 60 100)).
  - intro w. repeat constructor.
  - reflexivity.
  - reflexivity.
  - intro H. vm_compute in H. discriminate.
Defined.

(** ** What the exit check closes and what it leaves *)

Section ExitCheck.
Variable config : BacktestConfig.

Lemma dict_remove_as_filter {V : Type} k (d : dict V) :
  NoDup (dict_keys d) ->
  dict_remove k d = filter (fun kp => negb (String.eqb k (fst kp))) d.
Proof.
  induction d as [|[k0 v0] r IH]; simpl; intro Hnd; [reflexivity|].
  inversion Hnd as [|? ? Hnotin Hnd']; subst.
  destruct (String.eqb_spec k k0) as [->|Hne]; simpl.
  - symmetry. apply forallb_filter_id. apply forallb_forall.
    intros [k1 v1] Hin. simpl. apply negb_true_iff.
    apply String.eqb_neq. intros ->. apply Hnotin.
    change k1 with (fst (k1, v1)). now apply in_map.
  - f_equal. auto.
Qed.

Lemma filter_filter {A : Type} (f g : A -> bool) (l : list A) :
  filter f (filter g l) = filter (fun x => g x && f x) l.
Proof.
  induction l as [|x r IH]; simpl; [reflexivity|].
  destruct (g x); simpl; [destruct (f x)|]; now rewrite IH.
Qed.

(** The closing loop in full: the trades it appends, in order; what each
    realised; and the positions it leaves. *)
Lemma close_scheduled_full todo ts s :
  wf_state s ->
  NoDup (map exit_key todo) ->
  Forall (fun item => In (exit_key item) (dict_keys (positions s))) todo ->
  exists s' new,
    close_scheduled config todo ts s = Ok s'
    /\ trades s' = trades s ++ new
    /\ map trade_summary new = todo
    /\ positions s'
       = filter (fun kp => negb (existsb (String.eqb (fst kp)) (map exit_key todo)))
           (positions s)
    /\ Forall (fun t => exists p,
                 dict_get (position_id t) (positions s) = Some p
                 /\ pnl t = net_pnl config p (exit_price t)
                 /\ trade_size t = size p
                 /\ exit_time t = ts) new.
Proof.
  revert s. induction todo as [|[[pid kind] price] rest IH]; intros s Hwf Hnd Hall.
  - exists s, []. simpl. rewrite app_nil_r. repeat split; auto.
    symmetry. apply forallb_filter_id. apply forallb_forall. auto.
  - inversion Hnd as [|? ? Hnotin Hnd']; subst.
    inversion Hall as [|? ? Hin Hall']; subst.
    unfold exit_key in Hin, Hnotin. simpl in Hin, Hnotin.
    destruct (dict_get pid (positions s)) as [p|] eqn:Hget;
      [|apply dict_get_None in Hget; contradiction].
    destruct (wf_get s pid p Hwf Hget) as (Hid & Hne & _ & _).
    destruct (settle_total config pid pid p price ts kind s Hne Hin) as [s1 H1].
    pose proof (wf_settle config _ _ _ _ _ _ _ _ Hwf H1) as Hwf1.
    pose proof Hwf as [Hndk _].
    pose proof H1 as H1'.
    apply settle_record in H1'
      as (t & Htr & _ & Ht1 & _ & _ & Hsz & Ht2 & Ht3 & Hpnl & _ & Hpos
          & _ & _ & _ & _ & Hwhen).
    destruct (IH s1 Hwf1 Hnd') as (s' & new & Hrun & Htrades & Hsum & Hleft & Hreal).
    { rewrite Hpos. eapply Forall_impl; [|apply Forall_forall; intros x Hx;
        exact (conj (proj1 (Forall_forall _ _) Hall' x Hx) Hx)].
      intros item [Hk Hx]. apply dict_remove_keys_other; [|exact Hk].
      intro E. apply Hnotin. rewrite <- E.
      apply in_map_iff. exists item. split; [reflexivity|exact Hx]. }
    exists s', (t :: new). cbn [close_scheduled]. rewrite Hget.
    unfold _close_position_at_price. rewrite Hid, H1. cbn [bind].
    split; [exact Hrun|]. split.
    { rewrite Htrades, Htr, <- app_assoc. reflexivity. }
    split.
    { cbn [map]. rewrite Hsum. unfold trade_summary. rewrite Ht1, Ht2, Ht3.
      reflexivity. }
    split.
    { rewrite Hleft, Hpos, (dict_remove_as_filter pid _ Hndk), filter_filter.
      apply filter_ext. intros [k v]. cbn [map existsb exit_key fst].
      rewrite negb_orb. f_equal. f_equal. apply String.eqb_sym. }
    constructor.
    + exists p. rewrite Ht1, Ht2. unfold net_pnl. repeat split; auto.
    + eapply Forall_impl; [|exact Hreal]. intros x (q & Hq & Hx).
      exists q. split; [|exact Hx]. rewrite Hpos in Hq.
      eapply dict_get_remove_Some; eauto.
Qed.

End ExitCheck.

Section ExitOutcomes.
Variable config : BacktestConfig.

Lemma same_key_same_item {V : Type} (d : dict V) k v v' :
  NoDup (dict_keys d) -> In (k, v) d -> In (k, v') d -> v = v'.
Proof.
  intros Hnd H1 H2.
  pose proof (In_dict_get k v d Hnd H1) as E1.
  pose proof (In_dict_get k v' d Hnd H2) as E2. congruence.
Qed.

Lemma scheduled_iff_triggered h l (d : dict BacktestPosition) kp :
  NoDup (dict_keys d) -> In kp d ->
  negb (existsb (String.eqb (fst kp))
          (map exit_key (flat_map (exit_trigger h l) d)))
  = stays_open h l kp.
Proof.
  intros Hnd Hin. unfold stays_open.
  destruct (exit_trigger h l kp) as [|item more] eqn:E.
  - apply negb_true_iff. apply not_true_is_false. intro Hex.
    apply existsb_exists in Hex as (k & Hk & Heq).
    apply String.eqb_eq in Heq. subst k.
    apply in_map_iff in Hk as (item & Hkey & Hitem).
    apply in_flat_map in Hitem as ([k' p'] & Hin' & Hitem).
    pose proof (exit_trigger_key _ _ _ _ _ Hitem) as Hk'.
    destruct kp as [k p]. cbn [fst] in *.
    assert (Ek : k' = k) by congruence. rewrite Ek in Hin', Hitem.
    rewrite (same_key_same_item d k p' p Hnd Hin' Hin) in Hitem.
    rewrite E in Hitem. contradiction.
  - apply negb_false_iff. apply existsb_exists. exists (fst kp).
    split; [|apply String.eqb_refl].
    apply in_map_iff. exists item. split.
    + destruct kp as [k p]. apply (exit_trigger_key h l k p). rewrite E. now left.
    + apply in_flat_map. exists kp. split; [exact Hin|]. rewrite E. now left.
Qed.

(** X10: on every state of a run the exit check completes.  It appends one
    trade per position with a triggered level, in the order of the position
    map, each at its trigger price and type (stop loss before take profit
    before trailing stop) with pnl (exit - entry) * size less the exit
    commission; the positions without a triggered level stay as they were,
    in order. *)
Theorem exits_close_exactly_the_triggered s h l ts :
  reachable config s ->
  exists s' new,
    _check_exit_orders config h l ts s = Ok s'
    /\ trades s' = trades s ++ new
    /\ map trade_summary new = flat_map (exit_trigger h l) (positions s)
    /\ positions s' = filter (stays_open h l) (positions s)
    /\ Forall (fun t => exists p,
                 dict_get (position_id t) (positions s) = Some p
                 /\ pnl t = (exit_price t - entry_price p) * size p
                            - exit_price t * size p * commission config
                 /\ trade_size t = size p
                 /\ exit_time t = ts) new.
Proof.
  intro Hr. pose proof (reachable_wf config s Hr) as Hwf.
  pose proof Hwf as [Hnd _].
  destruct (close_scheduled_full config
              (flat_map (exit_trigger h l) (positions s)) ts s Hwf)
    as (s' & new & Hrun & Htr & Hsum & Hpos & Hreal).
  { now apply scheduled_NoDup. }
  { apply Forall_forall. intros item Hin. apply (scheduled_keys h l).
    now apply in_map. }
  exists s', new. unfold _check_exit_orders.
  split; [exact Hrun|]. split; [exact Htr|]. split; [exact Hsum|]. split.
  - rewrite Hpos. apply filter_ext_in. intros kp Hin.
    now apply scheduled_iff_triggered.
  - eapply Forall_impl; [|exact Hreal]. intros t (p & Hget & Hpnl & Hrest).
    exists p. split; [exact Hget|]. split; [|exact Hrest].
    destruct (wf_get s _ p Hwf Hget) as (_ & _ & Hside & _).
    rewrite Hpnl. unfold net_pnl, calculate_pnl. now rewrite Hside.
Qed.

(** The position whose only scheduled exit is [(pid, kind, price)] is
    closed once, there, and is gone afterwards. *)
Lemma single_exit s pid p h l ts kind price :
  reachable config s ->
  dict_get pid (positions s) = Some p ->
  exit_trigger h l (pid, p) = [(pid, kind, price)] ->
  exists s' new t,
    _check_exit_orders config h l ts s = Ok s'
    /\ trades s' = trades s ++ new
    /\ filter (fun x => String.eqb (position_id x) pid) new = [t]
    /\ exit_price t = price
    /\ trade_type t = kind
    /\ pnl t = (price - entry_price p) * size p - price * size p * commission config
    /\ dict_get pid (positions s') = None.
Proof.
  intros Hr Hget Htrig.
  pose proof (reachable_wf config s Hr) as Hwf.
  pose proof Hwf as [Hnd _].
  destruct (close_scheduled_full config
              (flat_map (exit_trigger h l) (positions s)) ts s Hwf)
    as (s' & new & Hrun & Htr & Hsum & Hpos & Hreal).
  { now apply scheduled_NoDup. }
  { apply Forall_forall. intros item Hin. apply (scheduled_keys h l).
    now apply in_map. }
  pose proof (scheduled_for h l (positions s) pid p Hnd Hget) as Hfor.
  rewrite Htrig in Hfor.
  assert (Hmine : map trade_summary
                    (filter (fun x => String.eqb (position_id x) pid) new)
                  = [(pid, kind, price)]).
  { rewrite filter_map_summary, Hsum. exact Hfor. }
  destruct (filter (fun x => String.eqb (position_id x) pid) new)
    as [|t [|t' more]] eqn:E; try discriminate.
  simpl in Hmine. injection Hmine as Hpid Hkind Hprice.
  exists s', new, t. unfold _check_exit_orders.
  split; [exact Hrun|]. split; [exact Htr|]. split; [exact E|].
  split; [exact Hprice|]. split; [exact Hkind|]. split.
  - assert (Hin : In t new).
    { assert (H : In t (filter (fun x => String.eqb (position_id x) pid) new))
        by (rewrite E; now left).
      apply filter_In in H. tauto. }
    rewrite Forall_forall in Hreal.
    destruct (Hreal t Hin) as (q & Hq & Hpnl & _).
    rewrite Hpid, Hget in Hq. injection Hq as <-.
    destruct (wf_get s pid p Hwf Hget) as (_ & _ & Hside & _).
    rewrite Hpnl. unfold net_pnl, calculate_pnl. now rewrite Hside, Hprice.
  - rewrite Hpos. apply dict_get_None. intro Hin.
    apply in_map_iff in Hin as ([k v] & Hk & Hin). simpl in Hk. subst k.
    apply filter_In in Hin as [Hin Hstay].
    rewrite (same_key_same_item (positions s) pid v p Hnd Hin
               (dict_get_In _ _ _ Hget)) in Hstay.
    rewrite (scheduled_iff_triggered h l (positions s) (pid, p) Hnd
               (dict_get_In _ _ _ Hget)) in Hstay.
    unfold stays_open in Hstay. rewrite Htrig in Hstay. discriminate.
Qed.

Lemma guarded_None_when (o : option Q) (test : Q -> bool) :
  (forall v, o = Some v -> v == 0 \/ test v = false) ->
  guarded o test = None.
Proof.
  intro H. unfold guarded. destruct o as [v|]; [|reflexivity].
  destruct (H v eq_refl) as [Hz | Ht].
  - simpl. apply Qeq_eq_bool in Hz. now rewrite Hz.
  - rewrite Ht, andb_false_r. reflexivity.
Qed.

Lemma Qle_bool_false (a b : Q) : b < a -> Qle_bool a b = false.
Proof.
  intro H. destruct (Qle_bool a b) eqn:E; [|reflexivity].
  apply Qle_bool_iff in E. lra.
Qed.

(** X11: an open position whose take profit is set to a non-zero level at
    or below the candle's high, and whose stop loss is unset, zero or below
    the candle's low, is closed by the exit check exactly once, at the
    take-profit level, typed TAKE_PROFIT, with pnl
    (take_profit - entry) * size less the exit commission. *)
Theorem take_profit_exit s pid p tp h l ts :
  reachable config s ->
  dict_get pid (positions s) = Some p ->
  take_profit p = Some tp -> ~ tp == 0 -> tp <= h ->
  (forall sl, stop_loss p = Some sl -> sl == 0 \/ sl < l) ->
  exists s' new t,
    _check_exit_orders config h l ts s = Ok s'
    /\ trades s' = trades s ++ new
    /\ filter (fun x => String.eqb (position_id x) pid) new = [t]
    /\ exit_price t = tp
    /\ trade_type t = TAKE_PROFIT
    /\ pnl t = (tp - entry_price p) * size p - tp * size p * commission config
    /\ dict_get pid (positions s') = None.
Proof.
  intros Hr Hget Htp Hnz Hhigh Hstop.
  apply (single_exit s pid p h l ts TAKE_PROFIT tp Hr Hget).
  unfold exit_trigger.
  rewrite (guarded_None_when (stop_loss p)).
  - unfold guarded. rewrite Htp.
    apply truthy_Some in Hnz. rewrite Hnz.
    apply Qle_bool_iff in Hhigh. rewrite Hhigh. reflexivity.
  - intros sl Hsl. destruct (Hstop sl Hsl) as [Hz|Hlt]; [now left|right].
    now apply Qle_bool_false.
Qed.

(** X12: an open position with a non-zero trailing stop at or above the
    candle's low, whose stop loss and take profit do not trigger, is closed
    by the exit check exactly once, at the trailing-stop level, typed
    STOP_LOSS. *)
Theorem trailing_stop_exit s pid p tr h l ts :
  reachable config s ->
  dict_get pid (positions s) = Some p ->
  trailing_stop p = Some tr -> ~ tr == 0 -> l <= tr ->
  (forall sl, stop_loss p = Some sl -> sl == 0 \/ sl < l) ->
  (forall tp, take_profit p = Some tp -> tp == 0 \/ h < tp) ->
  exists s' new t,
    _check_exit_orders config h l ts s = Ok s'
    /\ trades s' = trades s ++ new
    /\ filter (fun x => String.eqb (position_id x) pid) new = [t]
    /\ exit_price t = tr
    /\ trade_type t = STOP_LOSS
    /\ pnl t = (tr - entry_price p) * size p - tr * size p * commission config
    /\ dict_get pid (positions s') = None.
Proof.
  intros Hr Hget Htr Hnz Hlow Hstop Htp.
  apply (single_exit s pid p h l ts STOP_LOSS tr Hr Hget).
  unfold exit_trigger.
  rewrite (guarded_None_when (stop_loss p)).
  - rewrite (guarded_None_when (take_profit p)).
    + unfold guarded. rewrite Htr.
      apply truthy_Some in Hnz. rewrite Hnz.
      apply Qle_bool_iff in Hlow. rewrite Hlow. reflexivity.
    + intros tp Ht. destruct (Htp tp Ht) as [Hz|Hlt]; [now left|right].
      now apply Qle_bool_false.
  - intros sl Hsl. destruct (Hstop sl Hsl) as [Hz|Hlt]; [now left|right].
    now apply Qle_bool_false.
Qed.

End ExitOutcomes.

Lemma exits_close_exactly_the_triggered_witness :
  exists s' new,
    _check_exit_orders (default_config 0 1000) 106 99 15 mixed_state = Ok s'
    /\ trades s' = trades mixed_state ++ new
    /\ map trade_summary new = flat_map (exit_trigger 106 99) (positions mixed_state)
    /\ positions s' = filter (stays_open 106 99) (positions mixed_state)
    /\ Forall (fun t => exists p,
                 dict_get (position_id t) (positions mixed_state) = Some p
                 /\ pnl t = (exit_price t - entry_price p) * size p
                            - exit_price t * size p * commission (default_config 0 1000)
                 /\ trade_size t = size p
                 /\ exit_time t = 15%Z) new.
Proof.
  apply (exits_close_exactly_the_triggered (default_config 0 1000) mixed_state
           106 99 15%Z).
  exists (init (default_config 0 1000)), mixed_ops. vm_compute. reflexivity.
Defined.

Lemma take_profit_exit_witness :
  exists s' new t,
    _check_exit_orders (default_config 0 1000) 106 99 15 mixed_state = Ok s'
    /\ trades s' = trades mixed_state ++ new
    /\ filter (fun x => String.eqb (position_id x) (pos_id 1)) new = [t]
    /\ exit_price t = 105
    /\ trade_type t = TAKE_PROFIT
    /\ pnl t = (105 - entry_price mixed_position) * size mixed_position
               - 105 * size mixed_position * commission (default_config 0 1000)
    /\ dict_get (pos_id 1) (positions s') = None.
Proof.
  apply (take_profit_exit (default_config 0 1000) mixed_state (pos_id 1)
           mixed_position 105 106 99 15%Z).
  - exists (init (default_config 0 1000)), mixed_ops. vm_compute. reflexivity.
  - vm_compute. reflexivity.
  - reflexivity.
  - intro H. vm_compute in H. discriminate.
  - lra.
  - intros sl H. discriminate.
Defined.

Lemma trailing_stop_exit_witness :
  exists s' new t,
    _check_exit_orders trailing_config 108 107 25 trailing_after = Ok s'
    /\ trades s' = trades trailing_after ++ new
    /\ filter (fun x => String.eqb (position_id x) (pos_id 1)) new = [t]
    /\ exit_price t = 10780 # 100
    /\ trade_type t = STOP_LOSS
    /\ pnl t = ((10780 # 100) - entry_price trailing_position_after)
                 * size trailing_position_after
               - (10780 # 100) * size trailing_position_after
                 * commission trailing_config
    /\ dict_get (pos_id 1) (positions s') = None.
Proof.
  apply (trailing_stop_exit trailing_config trailing_after (pos_id 1)
           trailing_position_after (10780 # 100) 108 107 25%Z).
  - exists (init trailing_config).
    exists (trailing_ops ++ candle_ops (flat_candle 20 110) []).
    vm_compute. reflexivity.
  - vm_compute. reflexivity.
  - vm_compute. reflexivity.
  - intro H. vm_compute in H. discriminate.
  - unfold Qle. simpl. lia.
  - intros sl H. discriminate.
  - intros tp H. discriminate.
Defined.

(** ** Configuration validation *)

(** X13: [validate] returns no error exactly when start_date < end_date,
    initial_capital > 0, commission >= 0 and max_positions >= 1; it
    reports at most four errors and looks at no other field (slippage and
    the trailing percentage are never checked). *)
Theorem validate_accepts_iff (c : BacktestConfig) :
  (validate c = [] <->
     (start_date c < end_date c)%Z /\ 0 < initial_capital c
     /\ 0 <= commission c /\ (1 <= max_positions c)%Z)
  /\ (List.length (validate c) <= 4)%nat.
Proof.
  assert (B1 : (end_date c <=? start_date c)%Z = false
               <-> (start_date c < end_date c)%Z) by apply Z.leb_gt.
  assert (B2 : Qle_bool (initial_capital c) 0 = false <-> 0 < initial_capital c).
  { split; intro H.
    - apply Qnot_le_lt. intro Hle. apply Qle_bool_iff in Hle. congruence.
    - destruct (Qle_bool (initial_capital c) 0) eqn:E; [|reflexivity].
      apply Qle_bool_iff in E. lra. }
  assert (B3 : Qgtb 0 (commission c) = false <-> 0 <= commission c)
    by apply Qgtb_false.
  assert (B4 : (max_positions c <? 1)%Z = false <-> (1 <= max_positions c)%Z)
    by apply Z.ltb_ge.
  unfold validate. rewrite <- B1, <- B2, <- B3, <- B4.
  destruct (end_date c <=? start_date c)%Z;
  destruct (Qle_bool (initial_capital c) 0);
  destruct (Qgtb 0 (commission c));
  destruct (max_positions c <? 1)%Z; simpl;
    (split; [split; [try discriminate; auto|intros (H1 & H2 & H3 & H4); try discriminate; auto]
            |lia]).
Qed.

(** ** Profit and loss of a position *)

(** X14: for a position with a non-zero entry price, the pnl percentage
    is computed without error and pnl = percentage / 100 * entry_price *
    size, for LONG and for SHORT; and the pnl of a SHORT position is the
    opposite of the pnl of a LONG position of the same entry price and
    size at the same price. *)
Theorem pnl_matches_percentage (p : BacktestPosition) (price : Q) :
  ~ entry_price p == 0 ->
  (exists pct, calculate_pnl_percentage p price = Ok pct
     /\ calculate_pnl p price == pct / 100 * entry_price p * size p)
  /\ (forall q, side p = LONG -> side q = SHORT ->
        entry_price q = entry_price p -> size q = size p ->
        calculate_pnl q price == - calculate_pnl p price).
Proof.
  intro Hne. split.
  - unfold calculate_pnl_percentage, calculate_pnl.
    destruct (side p); rewrite fdiv_nonzero by assumption; simpl;
      eexists; (split; [reflexivity|]); field; exact Hne.
  - intros q Hp Hq He Hs. unfold calculate_pnl. rewrite Hp, Hq, He, Hs. lra.
Qed.

Lemma pnl_matches_percentage_witness :
  (exists pct, calculate_pnl_percentage bracket_position 110 = Ok pct
     /\ calculate_pnl bracket_position 110
        == pct / 100 * entry_price bracket_position * size bracket_position)
  /\ (forall q, side bracket_position = LONG -> side q = SHORT ->
        entry_price q = entry_price bracket_position ->
        size q = size bracket_position ->
        calculate_pnl q 110 == - calculate_pnl bracket_position 110).
Proof.
  apply (pnl_matches_percentage bracket_position 110).
  intro H. vm_compute in H. discriminate.
Defined.

(** ** Returns, drawdown duration and streaks *)

Lemma last_cons_default {A : Type} (a d : A) (l : list A) :
  last (a :: l) d = last l a.
Proof.
  revert a d. induction l as [|b r IH]; intros a d; [reflexivity|].
  change (last (a :: b :: r) d) with (last (b :: r) d).
  now rewrite (IH b d), (IH b a).
Qed.

Lemma returns_from_compound (prev : Q) (rest : list EquityPoint) :
  0 < prev ->
  Forall (fun pt => 0 < equity pt) rest ->
  List.length (returns_from prev rest) = List.length rest
  /\ last (map equity rest) prev == prev * compound (returns_from prev rest).
Proof.
  revert prev. induction rest as [|pt r IH]; intros prev Hprev Hall.
  - simpl. split; [reflexivity|]. unfold compound. simpl. lra.
  - inversion Hall as [|? ? Hpt Hr]; subst.
    cbn [returns_from]. apply Qgtb_true in Hprev as Hb. rewrite Hb.
    destruct (IH (equity pt) Hpt Hr) as [Hlen Hlast].
    cbn [app List.length map]. split; [now rewrite Hlen|].
    rewrite last_cons_default, Hlast. unfold compound. cbn [fold_right].
    fold (compound (returns_from (equity pt) r)).
    field. lra.
Qed.

(** X15: when every recorded equity is positive, [_calculate_returns]
    yields one return per point after the first, and compounding them
    from the first equity gives the last:
    equity_last = equity_first * prod (1 + r_i). *)
Theorem returns_compound_to_final_equity (s : Engine) first rest :
  equity_curve s = first :: rest ->
  Forall (fun pt => 0 < equity pt) (first :: rest) ->
  List.length (_calculate_returns s) = List.length rest
  /\ equity (last rest first)
     == equity first * compound (_calculate_returns s).
Proof.
  intros Hcurve Hall. unfold _calculate_returns. rewrite Hcurve.
  inversion Hall as [|? ? Hfirst Hrest]; subst.
  destruct (returns_from_compound (equity first) rest Hfirst Hrest) as [Hlen Hlast].
  split; [exact Hlen|]. rewrite <- Hlast.
  clear. revert first. induction rest as [|pt r IH]; intro first; [reflexivity|].
  cbn [map]. rewrite !last_cons_default. apply IH.
Qed.

Lemma drawdown_scan_bounds curve m c :
  (Nat.max m c <= drawdown_scan curve m c)%nat
  /\ (drawdown_scan curve m c
      <= Nat.max m (c + List.length (filter in_drawdown curve)))%nat.
Proof.
  revert m c. induction curve as [|pt r IH]; intros m c; simpl.
  - lia.
  - unfold in_drawdown at 1. destruct (Qgtb (drawdown pt) 0); simpl.
    + destruct (IH m (S c)). lia.
    + destruct (IH (Nat.max m c) 0%nat). lia.
Qed.

Lemma drawdown_scan_positive curve m c pt :
  In pt curve -> in_drawdown pt = true ->
  (1 <= drawdown_scan curve m c)%nat.
Proof.
  revert m c. induction curve as [|x r IH]; intros m c Hin Hdd; [contradiction|].
  simpl. destruct Hin as [->|Hin].
  - unfold in_drawdown in Hdd. rewrite Hdd.
    destruct (drawdown_scan_bounds r m (S c)). lia.
  - destruct (Qgtb (drawdown x) 0); now apply IH.
Qed.

Lemma drawdown_scan_all curve m c :
  Forall (fun pt => in_drawdown pt = true) curve ->
  drawdown_scan curve m c = Nat.max m (c + List.length curve).
Proof.
  revert m c. induction curve as [|pt r IH]; intros m c Hall; simpl.
  - f_equal. lia.
  - inversion Hall as [|? ? Hpt Hr]; subst. unfold in_drawdown in Hpt.
    rewrite Hpt, IH by assumption. f_equal. lia.
Qed.

(** X16: the maximum drawdown duration is at most the number of recorded
    points with drawdown > 0; it is 0 exactly when no point is in
    drawdown; and it is the length of the curve when every point is. *)
Theorem max_drawdown_duration_bounds (s : Engine) :
  (_calculate_max_drawdown_duration s
   <= List.length (filter in_drawdown (equity_curve s)))%nat
  /\ (_calculate_max_drawdown_duration s = 0%nat
      <-> forall pt, In pt (equity_curve s) -> in_drawdown pt = false)
  /\ (Forall (fun pt => in_drawdown pt = true) (equity_curve s) ->
      _calculate_max_drawdown_duration s = List.length (equity_curve s)).
Proof.
  unfold _calculate_max_drawdown_duration.
  destruct (drawdown_scan_bounds (equity_curve s) 0 0) as [_ Hup].
  split; [exact Hup|]. split; [split|].
  - intros Hz pt Hin. destruct (in_drawdown pt) eqn:E; [|reflexivity].
    pose proof (drawdown_scan_positive _ 0%nat 0%nat pt Hin E). lia.
  - intro Hnone.
    assert (Hf : filter in_drawdown (equity_curve s) = []).
    { destruct (filter in_drawdown (equity_curve s)) as [|x xs] eqn:E;
        [reflexivity|].
      assert (Hx : In x (filter in_drawdown (equity_curve s)))
        by (rewrite E; now left).
      apply filter_In in Hx as [Hx Hd]. rewrite (Hnone x Hx) in Hd. discriminate. }
    rewrite Hf in Hup. simpl in Hup. lia.
  - intro Hall. now rewrite drawdown_scan_all.
Qed.

Lemma streak_scan_bounds ts mw ml cw cl a b :
  streak_scan ts mw ml cw cl = (a, b) ->
  (mw <= a /\ a <= Nat.max mw (cw + winners ts))%nat
  /\ (ml <= b /\ b <= Nat.max ml (cl + non_winners ts))%nat.
Proof.
  unfold winners, non_winners.
  revert mw ml cw cl. induction ts as [|t r IH]; intros mw ml cw cl H; simpl in *.
  - injection H as <- <-. lia.
  - destruct (is_winner t); simpl; apply IH in H; lia.
Qed.

Lemma streak_scan_some_win ts mw ml cw cl a b t :
  streak_scan ts mw ml cw cl = (a, b) ->
  In t ts -> is_winner t = true -> (1 <= a)%nat.
Proof.
  revert mw ml cw cl. induction ts as [|x r IH]; intros mw ml cw cl H Hin Hw;
    [contradiction|].
  simpl in H. destruct Hin as [->|Hin].
  - rewrite Hw in H. apply streak_scan_bounds in H. lia.
  - destruct (is_winner x); eapply IH; eauto.
Qed.

Lemma streak_scan_some_loss ts mw ml cw cl a b t :
  streak_scan ts mw ml cw cl = (a, b) ->
  In t ts -> is_winner t = false -> (1 <= b)%nat.
Proof.
  revert mw ml cw cl. induction ts as [|x r IH]; intros mw ml cw cl H Hin Hw;
    [contradiction|].
  simpl in H. destruct Hin as [->|Hin].
  - rewrite Hw in H. apply streak_scan_bounds in H. lia.
  - destruct (is_winner x); eapply IH; eauto.
Qed.

(** X17: the longest winning streak is at most the number of winning
    trades and the longest losing streak at most the number of the other
    trades (a pnl of exactly 0 counts as a loss); each is at least 1 as
    soon as there is one such trade. *)
Theorem streaks_bounded_by_counts (s : Engine) :
  let '(max_wins, max_losses) := _calculate_consecutive_wins_losses s in
  (max_wins <= winners (trades s))%nat
  /\ (max_losses <= non_winners (trades s))%nat
  /\ (forall t, In t (trades s) -> 0 < pnl t -> (1 <= max_wins)%nat)
  /\ (forall t, In t (trades s) -> pnl t <= 0 -> (1 <= max_losses)%nat).
Proof.
  unfold _calculate_consecutive_wins_losses.
  destruct (streak_scan (trades s) 0 0 0 0) as [a b] eqn:E.
  pose proof (streak_scan_bounds _ _ _ _ _ _ _ E) as [Ha Hb].
  repeat split; try lia.
  - intros t Hin Hp. eapply streak_scan_some_win; eauto.
    unfold is_winner. now apply Qgtb_true.
  - intros t Hin Hp. eapply streak_scan_some_loss; eauto.
    unfold is_winner. now apply Qgtb_false.
Qed.

Lemma filter_split_length {A : Type} (f : A -> bool) (l : list A) :
  (List.length (filter f l) + List.length (filter (fun x => negb (f x)) l)
   = List.length l)%nat.
Proof.
  induction l as [|x r IH]; simpl; [reflexivity|].
  destruct (f x); simpl; lia.
Qed.

(** X18: in the computed metrics, total_trades is the number of trades,
    winning_trades + losing_trades = total_trades, losing_trades counts
    every trade with pnl <= 0, and the win rate lies between 0 and 100. *)
Theorem metrics_counts_consistent (s : Engine) :
  let m := _calculate_metrics s in
  total_trades m = List.length (trades s)
  /\ (winning_trades m + losing_trades m = total_trades m)%nat
  /\ winning_trades m = winners (trades s)
  /\ losing_trades m = non_winners (trades s)
  /\ 0 <= win_rate m /\ win_rate m <= 100.
Proof.
  unfold _calculate_metrics, winners, non_winners.
  pose proof (filter_split_length is_winner (trades s)) as Hsplit.
  destruct (trades s) as [|t r] eqn:E.
  - simpl. repeat split; try reflexivity; lra.
  - rewrite <- E in *. cbn [total_trades winning_trades losing_trades win_rate].
    repeat split; try lia.
    + unfold calculate_win_rate.
      destruct (List.length (trades s) =? 0)%nat eqn:Ez; [lra|].
      apply Nat.eqb_neq in Ez.
      assert (0 < inject_Z (Z.of_nat (List.length (trades s)))).
      { change 0 with (inject_Z 0). rewrite <- Zlt_Qlt. lia. }
      assert (0 <= inject_Z (Z.of_nat (List.length (filter is_winner (trades s))))).
      { change 0 with (inject_Z 0). rewrite <- Zle_Qle. lia. }
      assert (0 <= inject_Z (Z.of_nat (List.length (filter is_winner (trades s))))
                   / inject_Z (Z.of_nat (List.length (trades s))))
        by (apply Qle_shift_div_l; lra).
      lra.
    + unfold calculate_win_rate.
      destruct (List.length (trades s) =? 0)%nat eqn:Ez; [lra|].
      apply Nat.eqb_neq in Ez.
      assert (0 < inject_Z (Z.of_nat (List.length (trades s)))).
      { change 0 with (inject_Z 0). rewrite <- Zlt_Qlt. lia. }
      assert (inject_Z (Z.of_nat (List.length (filter is_winner (trades s))))
              <= inject_Z (Z.of_nat (List.length (trades s)))).
      { rewrite <- Zle_Qle. lia. }
      assert (inject_Z (Z.of_nat (List.length (filter is_winner (trades s))))
                / inject_Z (Z.of_nat (List.length (trades s))) <= 1)
        by (apply Qle_shift_div_r; lra).
      lra.
Qed.

(** ** Risk rules *)

Module RulesFacts.
Import Risk Rules.

(** X19: with a positive price, the size returned by [calculate_size]
    has a notional of at most [max_amount] whenever a maximum is
    configured, and of at least [min_amount] whenever a minimum is
    configured that the maximum, if any, does not undercut. *)
Theorem size_respects_notional_limits (self : PositionSize)
    (portfolio_value price : Q) (stop : option Q) :
  0 < price ->
  exists sz,
    calculate_size self portfolio_value price stop = Ok sz
    /\ (forall mx, max_amount self = Some mx -> sz * price <= mx)
    /\ (forall mn, min_amount self = Some mn ->
          (forall mx, max_amount self = Some mx -> mn <= mx) ->
          mn <= sz * price).
Proof.
  intro Hprice. assert (Hne : ~ price == 0) by lra.
  unfold calculate_size.
  set (base := match fixed_amount self with
               | Some amount => fdiv amount price
               | None => fdiv (portfolio_value * (percentage_of_portfolio self / 100)) price
               end).
  assert (Hbase : exists b, base = Ok b).
  { subst base. destruct (fixed_amount self); rewrite fdiv_nonzero by assumption; eauto. }
  destruct Hbase as [b ->]. cbn [bind].
  set (capped := match stop, risk_per_trade self with
                 | Some st, Some risk =>
                     if Qgtb (Qabs (price - st)) 0
                     then Qmin b (portfolio_value * (risk / 100) / Qabs (price - st))
                     else b
                 | _, _ => b
                 end).
  assert (Hdiv : forall a, a / price * price == a) by (intro a; field; exact Hne).
  assert (Hup : forall a x, x <= a / price -> x * price <= a).
  { intros a x Hx. rewrite <- (Hdiv a). apply Qmult_le_compat_r; lra. }
  assert (Hlow : forall a x, a / price <= x -> a <= x * price).
  { intros a x Hx. rewrite <- (Hdiv a). apply Qmult_le_compat_r; lra. }
  destruct (min_amount self) as [mn|]; destruct (max_amount self) as [mx|];
    rewrite ?fdiv_nonzero by assumption; cbn [bind]; eexists;
    (split; [reflexivity|]); split; intros v Hv; try discriminate;
    injection Hv as <-.
  - apply Hup. apply Q.le_min_r.
  - intro Hmm. apply Hlow. apply Q.min_glb.
    + apply Q.le_max_r.
    + specialize (Hmm mx eq_refl).
      apply Qmult_le_compat_r with (z := / price) in Hmm;
        [exact Hmm|apply Qlt_le_weak; now apply Qinv_lt_0_compat].
  - intros _. apply Hlow. apply Q.le_max_r.
  - apply Hup. apply Q.le_min_r.
Qed.

Lemma size_respects_notional_limits_witness :
  exists sz,
    calculate_size bounded_rule 10000 100 None = Ok sz
    /\ (forall mx, max_amount bounded_rule = Some mx -> sz * 100 <= mx)
    /\ (forall mn, min_amount bounded_rule = Some mn ->
          (forall mx, max_amount bounded_rule = Some mx -> mn <= mx) ->
          mn <= sz * 100).
Proof.
  apply (size_respects_notional_limits bounded_rule 10000 100 None). lra.
Defined.

Lemma percent_pos (pct : Q) : 0 < pct -> 0 < pct / 100.
Proof. intro H. apply Qlt_shift_div_l; lra. Qed.

(** X20: for a positive entry price and positive take-profit and
    stop-loss percentages, the fixed-percentage levels bracket the entry:
    for a long side stop < entry < target, for any other side
    target < entry < stop.  The ATR-based stop, for a positive ATR and a
    multiplier that is unset or not negative, lies on the same side. *)
Theorem levels_bracket_entry (tp : TakeProfitRule) (sl : StopLossRule)
    (entry : Q) (side : string) (atr : option Q) :
  0 < entry ->
  0 < tp_percentage_threshold tp ->
  0 < sl_percentage_threshold sl ->
  (forall a, atr = Some a -> 0 < a) ->
  (forall m, atr_multiplier sl = Some m -> 0 <= m) ->
  (is_long side = true ->
     calculate_stop_price sl entry side atr < entry
     /\ entry < calculate_target_price tp entry side)
  /\ (is_long side = false ->
        calculate_target_price tp entry side < entry
        /\ entry < calculate_stop_price sl entry side atr).
Proof.
  intros Hentry Htp Hsl Hatr Hmult.
  pose proof (percent_pos _ Htp) as Htp'. pose proof (percent_pos _ Hsl) as Hsl'.
  assert (Ht : 0 < entry * (tp_percentage_threshold tp / 100))
    by (apply Qmult_lt_0_compat; assumption).
  assert (Hs : 0 < entry * (sl_percentage_threshold sl / 100))
    by (apply Qmult_lt_0_compat; assumption).
  assert (Hoff : forall a, atr = Some a -> 0 < a * effective_multiplier sl).
  { intros a Ha. apply Qmult_lt_0_compat; [now apply Hatr|].
    unfold effective_multiplier.
    destruct (atr_multiplier sl) as [m|] eqn:Em; [|lra].
    destruct (Qeq_bool m 0) eqn:Ez; [lra|].
    apply Qeq_bool_neq in Ez. specialize (Hmult m eq_refl). lra. }
  unfold calculate_stop_price, calculate_target_price.
  split; intros ->.
  - split; [|lra].
    destruct (sl_type sl); try lra.
    destruct atr as [a|]; [|lra]. specialize (Hoff a eq_refl). lra.
  - split; [lra|].
    destruct (sl_type sl); try lra.
    destruct atr as [a|]; [|lra]. specialize (Hoff a eq_refl). lra.
Qed.

Lemma levels_bracket_entry_witness :
  (is_long "LONG" = true ->
     calculate_stop_price moderate_stop 100 "LONG" None < 100
     /\ 100 < calculate_target_price moderate_target 100 "LONG")
  /\ (is_long "LONG" = false ->
        calculate_target_price moderate_target 100 "LONG" < 100
        /\ 100 < calculate_stop_price moderate_stop 100 "LONG" None).
Proof.
  apply (levels_bracket_entry moderate_target moderate_stop 100 "LONG" None).
  - lra.
  - simpl. lra.
  - simpl. lra.
  - intros a H. discriminate.
  - intros m H. injection H as <-. lra.
Defined.

(** X21: the trailing stop of a stop-loss rule ratchets for a long
    position with a positive entry price and an offset of at most 100:
    once a level is returned at one highest price, a level at least as
    high is returned at every higher highest price.  It is never returned
    before the profit at the highest price reaches the activation
    threshold, nor when trailing is off. *)
Theorem rule_trailing_stop_ratchets (self : StopLossRule)
    (cur1 cur2 h1 h2 entry t1 : Q) (side : string) :
  is_long side = true ->
  0 < entry ->
  sl_trailing_offset self <= 100 ->
  h1 <= h2 ->
  sl_update_trailing self cur1 h1 entry side = Ok (Some t1) ->
  (exists t2, sl_update_trailing self cur2 h2 entry side = Ok (Some t2)
     /\ t1 <= t2)
  /\ sl_trailing self = true
  /\ (0 < trailing_activation self ->
        trailing_activation self <= (h1 - entry) / entry * 100).
Proof.
  intros Hside Hentry Hoff Hh H.
  assert (Hne : ~ entry == 0) by lra.
  unfold sl_update_trailing in *. rewrite Hside in *.
  destruct (sl_trailing self); [|discriminate]. cbn [negb] in *.
  assert (Hk : 0 <= 1 - sl_trailing_offset self / 100).
  { assert (sl_trailing_offset self / 100 <= 1)
      by (apply Qle_shift_div_r; lra). lra. }
  assert (Hmono : h1 * (1 - sl_trailing_offset self / 100)
                  <= h2 * (1 - sl_trailing_offset self / 100))
    by (apply Qmult_le_compat_r; assumption).
  destruct (Qgtb (trailing_activation self) 0) eqn:Eact.
  - rewrite !fdiv_nonzero in * by assumption. cbn [bind] in *.
    destruct (Qgtb (trailing_activation self) ((h1 - entry) / entry * 100)) eqn:E1;
      [discriminate|].
    cbn [negb] in H. injection H as <-.
    apply Qgtb_false in E1.
    assert (Hprofit : (h1 - entry) / entry <= (h2 - entry) / entry).
    { apply Qmult_le_compat_r; [lra|].
      apply Qlt_le_weak. now apply Qinv_lt_0_compat. }
    assert (E2 : Qgtb (trailing_activation self) ((h2 - entry) / entry * 100) = false)
      by (apply Qgtb_false; lra).
    rewrite E2. cbn [negb]. split; [|split; [reflexivity|intros _; exact E1]].
    eexists. split; [reflexivity|exact Hmono].
  - cbn [bind] in *. injection H as <-.
    split; [|split; [reflexivity|]].
    + eexists. split; [reflexivity|exact Hmono].
    + intro Hpos. apply Qgtb_false in Eact. lra.
Qed.

Lemma rule_trailing_stop_ratchets_witness :
  (exists t2, sl_update_trailing moderate_stop 104 106 100 "long" = Ok (Some t2)
     /\ (105 * (1 - 2 / 100)) <= t2)
  /\ sl_trailing moderate_stop = true
  /\ (0 < trailing_activation moderate_stop ->
        trailing_activation moderate_stop <= (105 - 100) / 100 * 100).
Proof.
  apply (rule_trailing_stop_ratchets moderate_stop 105 104 105 106 100
           (105 * (1 - 2 / 100)) "long").
  - reflexivity.
  - lra.
  - simpl. lra.
  - lra.
  - reflexivity.
Defined.

Lemma find_none_iff {A : Type} (f : A -> bool) (l : list A) :
  find f l = None <-> forall x, In x l -> f x = false.
Proof.
  split; [apply find_none|].
  induction l as [|x r IH]; simpl; intro H; [reflexivity|].
  rewrite (H x (or_introl eq_refl)). apply IH. intros y Hy. apply H. now right.
Qed.

(** X22: the portfolio manager sizes a symbol with the first sizing rule
    whose symbol is exactly that symbol.  When no rule names the symbol it
    uses 10% of the portfolio value divided by the price, whatever other
    rules exist: a wildcard rule "*" is not consulted for another symbol. *)
Theorem sizing_has_no_wildcard_fallback (cfg : RiskConfig) (total_value : Q)
    (sym : string) (price : Q) (stop : option Q) :
  (forall ps, get_position_size cfg sym = Some ps ->
     Risk.symbol ps = sym /\ In ps (position_sizes cfg)
     /\ calculate_position_size cfg total_value sym price stop
        = calculate_size ps total_value price stop)
  /\ ((forall ps, In ps (position_sizes cfg) -> Risk.symbol ps <> sym) ->
      ~ price == 0 ->
      calculate_position_size cfg total_value sym price stop
      = Ok (total_value * (1 # 10) / price)).
Proof.
  unfold calculate_position_size, get_position_size. split.
  - intros ps Hfind. rewrite Hfind.
    apply find_some in Hfind as [Hin Heq]. apply String.eqb_eq in Heq. auto.
  - intros Hnone Hprice.
    assert (Hf : find (fun ps => String.eqb (Risk.symbol ps) sym)
                   (position_sizes cfg) = None).
    { apply find_none_iff. intros ps Hin. apply String.eqb_neq. now apply Hnone. }
    rewrite Hf. now apply fdiv_nonzero.
Qed.

Lemma sizing_has_no_wildcard_fallback_witness :
  calculate_position_size CONSERVATIVE_RISK 10000 "BTC" 100 (Some 90)
  = Ok (10000 * (1 # 10) / 100).
Proof.
  destruct (sizing_has_no_wildcard_fallback CONSERVATIVE_RISK 10000 "BTC" 100
              (Some 90)) as [_ H].
  apply H.
  - intros ps [<-|[]]. simpl. discriminate.
  - intro E. vm_compute in E. discriminate.
Defined.

End RulesFacts.

(** ** Recorded errors *)

Lemma last_hundred_short (l : list string) :
  (List.length l <= 100)%nat -> last_hundred l = l.
Proof.
  intro H. unfold last_hundred.
  replace (List.length l - 100)%nat with 0%nat by lia. reflexivity.
Qed.

Lemma last_hundred_snoc (l : list string) (e : string) :
  last_hundred (last_hundred l ++ [e]) = last_hundred (l ++ [e]).
Proof.
  unfold last_hundred.
  destruct (Nat.le_gt_cases (List.length l) 100) as [Hle|Hgt].
  - replace (List.length l - 100)%nat with 0%nat by lia. reflexivity.
  - rewrite !length_app, length_skipn. cbn [List.length].
    replace (List.length l - (List.length l - 100) + 1 - 100)%nat with 1%nat by lia.
    replace (List.length l + 1 - 100)%nat
      with (1 + (List.length l - 100))%nat by lia.
    rewrite !skipn_app, skipn_skipn, length_skipn.
    replace (1 - (List.length l - (List.length l - 100)))%nat with 0%nat by lia.
    replace (1 + (List.length l - 100) - List.length l)%nat with 0%nat by lia.
    reflexivity.
Qed.

Lemma record_error_errors (e : string) (st : StrategyState) :
  errors (record_error e st) = last_hundred (errors st ++ [e]).
Proof.
  unfold record_error. cbn [errors].
  destruct (100 <? List.length (errors st ++ [e]))%nat eqn:E; [reflexivity|].
  apply Nat.ltb_ge in E. now rewrite last_hundred_short.
Qed.

Lemma last_hundred_length (l : list string) :
  (List.length (last_hundred l) <= 100)%nat.
Proof. unfold last_hundred. rewrite length_skipn. lia. Qed.

Lemma last_hundred_app (l r : list string) :
  last_hundred (last_hundred l ++ r) = last_hundred (l ++ r).
Proof.
  induction r as [|x xs IH] using rev_ind.
  - rewrite !app_nil_r. apply last_hundred_short. apply last_hundred_length.
  - rewrite !app_assoc.
    rewrite <- (last_hundred_snoc (last_hundred l ++ xs) x), IH.
    apply last_hundred_snoc.
Qed.

Lemma record_errors_errors (es : list string) (st : StrategyState) :
  (List.length (errors st) <= 100)%nat ->
  errors (record_errors es st) = last_hundred (errors st ++ es).
Proof.
  revert st. induction es as [|e r IH]; intros st Hlen.
  - simpl. rewrite app_nil_r. symmetry. now apply last_hundred_short.
  - unfold record_errors in *. cbn [fold_left].
    rewrite IH by (rewrite record_error_errors; apply last_hundred_length).
    rewrite record_error_errors, last_hundred_app, <- app_assoc. reflexivity.
Qed.

(** X23: after any sequence of [record_error] calls on a fresh strategy
    state, the stored errors are the last 100 of the errors recorded, in
    order; so at most 100 are kept and the most recent one is last. *)
Theorem errors_keep_last_hundred (es : list string) :
  errors (record_errors es fresh_state) = skipn (List.length es - 100) es
  /\ (List.length (errors (record_errors es fresh_state)) <= 100)%nat.
Proof.
  rewrite record_errors_errors by (simpl; lia). simpl app.
  split; [reflexivity|apply last_hundred_length].
Qed.

Lemma returns_compound_to_final_equity_witness :
  List.length (_calculate_returns round_trip_state) = List.length round_trip_rest
  /\ equity (last round_trip_rest round_trip_first)
     == equity round_trip_first * compound (_calculate_returns round_trip_state).
Proof.
  apply (returns_compound_to_final_equity round_trip_state round_trip_first
           round_trip_rest).
  - reflexivity.
  - repeat constructor; unfold Qlt; simpl; lia.
Defined.

(** ** The vectorized fast path *)

Section Vectorized.

Lemma last_snoc (l : list Q) (x d : Q) : last (l ++ [x]) d = x.
Proof. apply last_last. Qed.

(** While flat, with no buy signal, the loop only repeats the last equity. *)
Lemma vectorized_flat closes i buy_series sell_series equity_list :
  equity_list <> [] ->
  (forall j, (i <= j < i + List.length closes)%nat ->
     nth_error buy_series j = Some false
     /\ exists b, nth_error sell_series j = Some b) ->
  exists final,
    vectorized_loop closes i buy_series sell_series equity_list 0 = Ok (final, 0)
    /\ last final 0 = last equity_list 0.
Proof.
  revert i equity_list. induction closes as [|c rest IH]; intros i eq_l Hne Hser.
  - simpl. eauto.
  - cbn [vectorized_loop].
    destruct (Hser i) as (Hb & sl & Hs); [simpl; lia|].
    unfold series_at. rewrite Hb, Hs. cbn [bind andb].
    assert (Hg : Qgtb 0 0 = false) by reflexivity.
    rewrite Hg, andb_false_r. cbn [bind fst snd]. rewrite Hg.
    destruct (IH (S i) (eq_l ++ [last eq_l 0])) as (final & Hrun & Hlast).
    + intro H. apply app_eq_nil in H as [_ H]. discriminate.
    + intros j Hj. apply Hser. simpl. lia.
    + exists final. split; [exact Hrun|]. now rewrite Hlast, last_snoc.
Qed.

(** While holding a position of positive size, with no sell signal, the
    loop marks the position at each close. *)
Lemma vectorized_hold closes i buy_series sell_series equity_list position :
  0 < position ->
  (forall j, (i <= j < i + List.length closes)%nat ->
     (exists b, nth_error buy_series j = Some b)
     /\ nth_error sell_series j = Some false) ->
  vectorized_loop closes i buy_series sell_series equity_list position
  = Ok (equity_list ++ map (fun c => position * c) closes, position).
Proof.
  intro Hpos.
  assert (Hg : Qgtb position 0 = true) by now apply Qgtb_true.
  assert (Hz : Qeq_bool position 0 = false).
  { destruct (Qeq_bool position 0) eqn:E; [|reflexivity].
    apply Qeq_bool_iff in E. lra. }
  revert i equity_list. induction closes as [|c rest IH]; intros i eq_l Hser.
  - simpl. now rewrite app_nil_r.
  - cbn [vectorized_loop].
    destruct (Hser i) as ((b & Hb) & Hs); [simpl; lia|].
    unfold series_at. rewrite Hb, Hs. cbn [bind].
    rewrite Hz, andb_false_r. cbn [bind andb fst snd]. rewrite Hg.
    rewrite IH by (intros j Hj; apply Hser; simpl; lia).
    cbn [map]. now rewrite <- app_assoc.
Qed.

(** X24: on the fast path, when the buy series of the first symbol is
    never true, the reported total return and its percentage are zero,
    whatever the prices and the sell series are. *)
Theorem vectorized_without_entry_returns_zero
    (buy_signals sell_signals : dict (list bool)) (closes : list Q)
    (s : Engine) sym series rest sells :
  buy_signals = (sym, series) :: rest ->
  sym <> ""%string ->
  series = repeat false (List.length closes) ->
  dict_get sym sell_signals = Some sells ->
  List.length sells = List.length closes ->
  ~ self_initial_capital s == 0 ->
  exists m,
    run_vectorized buy_signals sell_signals closes s = Ok m
    /\ total_return m == 0 /\ total_return_percentage m == 0.
Proof.
  intros -> Hsym -> Hsells Hlen Hcap. unfold run_vectorized. cbn [dict_keys map fst].
  apply String.eqb_neq in Hsym. rewrite Hsym.
  cbn [dict_get]. rewrite String.eqb_refl, Hsells.
  destruct (vectorized_flat closes 0 (repeat false (List.length closes)) sells
              [self_initial_capital (reset s)]) as (final & Hrun & Hlast).
  - discriminate.
  - intros j Hj. split.
    + rewrite nth_error_repeat by lia. reflexivity.
    + destruct (nth_error sells j) as [b|] eqn:E; [eauto|].
      apply nth_error_None in E. lia.
  - rewrite Hrun. cbn [bind fst]. rewrite Hlast. cbn [last reset self_initial_capital].
    rewrite fdiv_nonzero by assumption. cbn [bind].
    eexists. split; [reflexivity|]. cbn. split; [lra|].
    assert (E : self_initial_capital s - self_initial_capital s == 0) by lra.
    rewrite E. field. exact Hcap.
Qed.

(** X25: on the fast path, a buy signal at the first candle and no sell
    signal afterwards (buy and hold), with a positive initial capital and a
    positive first close, gives a total return of
    initial_capital * last_close / first_close - initial_capital. *)
Theorem vectorized_buy_and_hold
    (buy_signals sell_signals : dict (list bool)) (s : Engine)
    sym series rest c0 closes :
  buy_signals = (sym, true :: series) :: rest ->
  sym <> ""%string ->
  List.length series = List.length closes ->
  dict_get sym sell_signals = None ->
  0 < self_initial_capital s ->
  0 < c0 ->
  exists m,
    run_vectorized buy_signals sell_signals (c0 :: closes) s = Ok m
    /\ total_return m
       == self_initial_capital s * last closes c0 / c0 - self_initial_capital s.
Proof.
  intros -> Hsym Hlen Hsells Hcap Hc0. unfold run_vectorized.
  cbn [dict_keys map fst].
  apply String.eqb_neq in Hsym. rewrite Hsym.
  cbn [dict_get]. rewrite String.eqb_refl, Hsells.
  cbn [vectorized_loop series_at nth_error bind andb last reset self_initial_capital].
  assert (Hz : Qeq_bool 0 0 = true) by reflexivity. rewrite Hz.
  assert (Hne : ~ c0 == 0) by lra.
  rewrite fdiv_nonzero by assumption. cbn [bind fst snd].
  set (position := self_initial_capital s / c0).
  assert (Hpos : 0 < position) by (apply Qlt_shift_div_l; lra).
  apply Qgtb_true in Hpos as Hg. rewrite Hg.
  rewrite vectorized_hold; [|exact Hpos|].
  - cbn [bind fst].
    assert (Hcap' : ~ self_initial_capital s == 0) by lra.
    rewrite fdiv_nonzero by assumption. cbn [bind].
    eexists. split; [reflexivity|]. cbn [total_return].
    assert (Hlast : last (([self_initial_capital s] ++ [position * c0])
                          ++ map (fun c => position * c) closes) 0
                    = position * last closes c0).
    { generalize position. generalize ([self_initial_capital s]).
      intros l q. clear.
      destruct closes as [|c r] using rev_ind.
      - simpl. rewrite app_nil_r, last_last. reflexivity.
      - rewrite map_app. simpl map. rewrite app_assoc, !last_last. reflexivity. }
    rewrite Hlast. unfold position. field. exact Hne.
  - intros j Hj. simpl in Hj. split.
    + destruct (nth_error (true :: series) j) as [b|] eqn:E; [eauto|].
      apply nth_error_None in E. simpl in E. lia.
    + simpl List.length. rewrite nth_error_repeat by lia. reflexivity.
Qed.

End Vectorized.

Lemma vectorized_without_entry_returns_zero_witness :
  exists m,
    run_vectorized [("BTC"%string, repeat false 3)]
      [("BTC"%string, [true; false; true])] [100; 120; 90]
      (init scenario_config) = Ok m
    /\ total_return m == 0 /\ total_return_percentage m == 0.
Proof.
  apply (vectorized_without_entry_returns_zero
           [("BTC"%string, repeat false 3)]
           [("BTC"%string, [true; false; true])] [100; 120; 90]
           (init scenario_config) "BTC"%string (repeat false 3) []
           [true; false; true]).
  - reflexivity.
  - discriminate.
  - reflexivity.
  - reflexivity.
  - reflexivity.
  - intro H. vm_compute in H. discriminate.
Defined.

Lemma vectorized_buy_and_hold_witness :
  exists m,
    run_vectorized [("BTC"%string, [true; false; true])] [] [100; 120; 90]
      (init scenario_config) = Ok m
    /\ total_return m
       == self_initial_capital (init scenario_config) * last [120; 90] 100 / 100
          - self_initial_capital (init scenario_config).
Proof.
  apply (vectorized_buy_and_hold [("BTC"%string, [true; false; true])] []
           (init scenario_config) "BTC"%string [false; true] [] 100 [120; 90]).
  - reflexivity.
  - discriminate.
  - reflexivity.
  - reflexivity.
  - simpl. lra.
  - lra.
Defined.

(** ** Signals that act *)

Section ActingSignals.
Variable config : BacktestConfig.

Lemma find_by_symbol_first sym before kp after :
  (forall x, In x before -> symbol (snd x) <> sym) ->
  symbol (snd kp) = sym ->
  find_by_symbol sym (before ++ kp :: after) = Some kp.
Proof.
  intros Hbefore Hkp. unfold find_by_symbol.
  induction before as [|x r IH]; simpl.
  - rewrite Hkp, String.eqb_refl. reflexivity.
  - destruct (String.eqb_spec (symbol (snd x)) sym) as [E|_].
    + exfalso. apply (Hbefore x); [now left|exact E].
    + apply IH. intros y Hy. apply Hbefore. now right.
Qed.

Lemma dict_remove_middle {V : Type} k (v : V) (before after : dict V) :
  ~ In k (dict_keys before) ->
  dict_remove k (before ++ (k, v) :: after) = before ++ after.
Proof.
  induction before as [|[k0 v0] r IH]; simpl; intro Hnotin.
  - now rewrite String.eqb_refl.
  - destruct (String.eqb_spec k k0) as [->|_].
    + exfalso. apply Hnotin. now left.
    + f_equal. apply IH. intro H. apply Hnotin. now right.
Qed.

(** X26: a SELL, CLOSE_LONG or CLOSE_SHORT signal closes the first open
    position, in map order, whose symbol is the signal's, and only that
    one: it is removed, the others keep their order, one EXIT trade is
    appended at close * (1 - slippage) with pnl
    (exit - entry) * size less the exit commission, and cash grows by the
    proceeds less that commission. *)
Theorem close_signal_settles_first_match s sg candle ts before pid p after :
  reachable config s ->
  sig_type sg = SELL \/ sig_type sg = CLOSE_LONG \/ sig_type sg = CLOSE_SHORT ->
  positions s = before ++ (pid, p) :: after ->
  symbol p = sig_symbol sg ->
  (forall x, In x before -> symbol (snd x) <> sig_symbol sg) ->
  let exit := close candle * (1 - slippage config) in
  exists s' t,
    _process_signal config sg candle ts s = Ok s'
    /\ positions s' = before ++ after
    /\ trades s' = trades s ++ [t]
    /\ position_id t = pid /\ trade_type t = EXIT /\ exit_price t = exit
    /\ pnl t = (exit - entry_price p) * size p - exit * size p * commission config
    /\ cash s' = cash s + (exit * size p - exit * size p * commission config).
Proof.
  intros Hr Hty Hpos Hsym Hbefore exit.
  pose proof (reachable_wf config s Hr) as Hwf.
  assert (Hin : In (pid, p) (positions s)).
  { rewrite Hpos. apply in_or_app. right. now left. }
  destruct (wf_In s pid p Hwf Hin) as (_ & Hne & Hk).
  pose proof Hwf as [Hnd Hall].
  rewrite Forall_forall in Hall. destruct (Hall _ Hin) as (_ & _ & _ & Hside).
  simpl in Hside.
  destruct (settle_total config pid pid p exit ts EXIT s Hne Hk) as [s' Hs'].
  assert (Hrun : _process_signal config sg candle ts s = Ok s').
  { unfold _process_signal, is_actionable, _close_position.
    rewrite Hpos, (find_by_symbol_first (sig_symbol sg) before (pid, p) after Hbefore Hsym).
    rewrite <- Hpos. fold exit.
    destruct Hty as [-> | [-> | ->]]; exact Hs'. }
  apply settle_record in Hs'
    as (t & Htr & _ & Hpid & _ & _ & _ & Hexit & Hkind & Hpnl & _ & Hrem & Hcash & _).
  exists s', t. split; [exact Hrun|]. split.
  - rewrite Hrem, Hpos. apply dict_remove_middle.
    rewrite Hpos in Hnd. unfold dict_keys in Hnd. rewrite map_app in Hnd.
    simpl in Hnd. apply NoDup_remove_2 in Hnd.
    intro H. apply Hnd. apply in_or_app. now left.
  - repeat split; auto.
    rewrite Hpnl. unfold calculate_pnl. now rewrite Hside.
Qed.

(** X27: on a state of a run with fewer open positions than
    max_positions, a BUY whose cost (notional plus commission) is covered
    by cash, at a non-zero entry price, opens one LONG position last in
    the map under the next id: entered at close * (1 + slippage), sized so
    that size * entry is the notional, carrying the signal's stop-loss and
    take-profit levels, with both price trackers at the entry price and no
    trailing stop; cash is debited by the cost and no trade is recorded. *)
Theorem buy_opens_position_as_signalled s sg candle ts :
  reachable config s ->
  sig_type sg = BUY ->
  (Z.of_nat (List.length (positions s)) < max_positions config)%Z ->
  buy_cost config sg s <= cash s ->
  ~ close candle * (1 + slippage config) == 0 ->
  exists s' p,
    _process_signal config sg candle ts s = Ok s'
    /\ positions s' = positions s ++ [(pos_id (S (position_counter s)), p)]
    /\ id p = pos_id (S (position_counter s))
    /\ symbol p = sig_symbol sg /\ side p = LONG
    /\ entry_price p = close candle * (1 + slippage config)
    /\ size p * entry_price p == buy_value sg s
    /\ stop_loss p = dict_get "stop_loss" (metadata sg)
    /\ take_profit p = dict_get "take_profit" (metadata sg)
    /\ trailing_stop p = None
    /\ highest_price p = entry_price p /\ lowest_price p = entry_price p
    /\ cash s' = cash s - buy_cost config sg s
    /\ trades s' = trades s.
Proof.
  intros Hr Hty Hroom Hcash Hne.
  pose proof (reachable_wf config s Hr) as Hwf.
  destruct (open_position_total config sg candle ts s Hne) as [s' Hs'].
  assert (Hrun : _process_signal config sg candle ts s = Ok s').
  { unfold _process_signal, is_actionable. rewrite Hty. cbn [negb].
    apply Z.leb_gt in Hroom. rewrite Hroom. exact Hs'. }
  apply open_position_Ok in Hs'
    as [_ [[Hlt _] | (_ & Hc & Hpos & Htr & _)]]; [lra|].
  rewrite dict_set_fresh in Hpos by (now apply next_id_fresh).
  eexists. eexists. split; [exact Hrun|]. split; [exact Hpos|].
  cbn. repeat split; auto. field.
  split; intro H0; apply Hne; rewrite H0; ring.
Qed.

End ActingSignals.

Lemma close_signal_settles_first_match_witness :
  let exit := close (flat_candle 40 120) * (1 - slippage (default_config 0 1000)) in
  exists s' t,
    _process_signal (default_config 0 1000) sell_btc (flat_candle 40 120) 40
      mixed_state = Ok s'
    /\ positions s' = [] ++ tl (positions mixed_state)
    /\ trades s' = trades mixed_state ++ [t]
    /\ position_id t = pos_id 1 /\ trade_type t = EXIT /\ exit_price t = exit
    /\ pnl t = (exit - entry_price mixed_position) * size mixed_position
               - exit * size mixed_position * commission (default_config 0 1000)
    /\ cash s' = cash mixed_state
                 + (exit * size mixed_position
                    - exit * size mixed_position * commission (default_config 0 1000)).
Proof.
  apply (close_signal_settles_first_match (default_config 0 1000) mixed_state
           sell_btc (flat_candle 40 120) 40%Z [] (pos_id 1) mixed_position
           (tl (positions mixed_state))).
  - exists (init (default_config 0 1000)), mixed_ops. vm_compute. reflexivity.
  - left. reflexivity.
  - vm_compute. reflexivity.
  - reflexivity.
  - intros x [].
Defined.

Lemma buy_opens_position_as_signalled_witness :
  exists s' p,
    _process_signal (default_config 0 1000) buy_bracket (flat_candle 40 120) 40
      mixed_state = Ok s'
    /\ positions s' = positions mixed_state
                      ++ [(pos_id (S (position_counter mixed_state)), p)]
    /\ id p = pos_id (S (position_counter mixed_state))
    /\ symbol p = sig_symbol buy_bracket /\ side p = LONG
    /\ entry_price p = close (flat_candle 40 120)
                       * (1 + slippage (default_config 0 1000))
    /\ size p * entry_price p == buy_value buy_bracket mixed_state
    /\ stop_loss p = dict_get "stop_loss" (metadata buy_bracket)
    /\ take_profit p = dict_get "take_profit" (metadata buy_bracket)
    /\ trailing_stop p = None
    /\ highest_price p = entry_price p /\ lowest_price p = entry_price p
    /\ cash s' = cash mixed_state - buy_cost (default_config 0 1000) buy_bracket mixed_state
    /\ trades s' = trades mixed_state.
Proof.
  apply (buy_opens_position_as_signalled (default_config 0 1000) mixed_state
           buy_bracket (flat_candle 40 120) 40%Z).
  - exists (init (default_config 0 1000)), mixed_ops. vm_compute. reflexivity.
  - reflexivity.
  - vm_compute. reflexivity.
  - vm_compute. discriminate.
  - intro H. vm_compute in H. discriminate.
Defined.
